(** * The calculator's expression engine and history store

    A shallow embedding of [calculator.py]: the normaliser
    [preprocess_expression], the restricted evaluator [safe_eval] and the
    history functions [load_history] / [append_history], together with the
    part of the Python runtime they rest on ([str.strip], [re.sub], the
    expression evaluator behind [eval], dictionaries and the JSON file).

    Further on come the account functions ([validate_username],
    [create_user], [authenticate_user], with SHA-256 behind
    [hash_password]), [clear_history], and the session state with the
    callbacks of the buttons.

    Python strings are sequences of code points.  Here a string is a list
    of [ascii], read as the code points below 256 (Latin-1); the character
    classes below are Python's classes restricted to that range. *)

From Stdlib Require Import ZArith NArith Ascii String List Bool Lia.
From Stdlib Require Import Floats.SpecFloat.
From stdpp Require Import base option list strings pretty gmap.

Local Open Scope char_scope.
Local Open Scope list_scope.

(** ** Strings and character classes *)

Abbreviation str := (list ascii).

Definition lit (s : string) : str := list_ascii_of_string s.
Coercion lit : string >-> list.

Definition code (c : ascii) : N := N_of_ascii c.

Definition in_range (lo hi : N) (c : ascii) : bool :=
  (lo <=? code c)%N && (code c <=? hi)%N.

(** [\d] on code points below 256: the ASCII digits. *)
Definition is_digit (c : ascii) : bool := in_range 48 57 c.

(** [[a-z]]. *)
Definition is_lower (c : ascii) : bool := in_range 97 122 c.

(** [\s] and [str.isspace] on code points below 256: TAB..CR, FS..US,
    space, NEL and NBSP. *)
Definition is_space (c : ascii) : bool :=
  in_range 9 13 c || in_range 28 32 c
  || (code c =? 133)%N || (code c =? 160)%N.

Definition is_char (x : ascii) (c : ascii) : bool := Ascii.eqb x c.

(** ** [str.strip()] *)

Fixpoint lstrip (s : str) : str :=
  match s with
  | c :: t => if is_space c then lstrip t else s
  | [] => []
  end.

Definition rstrip (s : str) : str := rev (lstrip (rev s)).

Definition strip (s : str) : str := rstrip (lstrip s).

(** ** A backtracking matcher for the regular expressions of the source

    The five patterns of [preprocess_expression] use single characters,
    character classes, greedy [+] and [*] over a class, a greedy optional
    group and capturing groups.  The matcher is written in
    continuation-passing style so that a failure of what follows a greedy
    construct makes it give characters back, as [re] does. *)

Inductive regex : Type :=
| Chr (c : ascii)
| Cls (p : ascii -> bool)
| Plus (p : ascii -> bool)
| Star (p : ascii -> bool)
| Opt (r : regex)
| Seq (r1 r2 : regex)
| Group (n : nat) (r : regex).

Definition captures := list (nat * str).

Definition mres := option (str * captures).

Fixpoint star_k (p : ascii -> bool) (s : str) (k : str -> mres) : mres :=
  match s with
  | c :: t =>
      if p c then
        match star_k p t k with
        | Some r => Some r
        | None => k s
        end
      else k s
  | [] => k []
  end.

Fixpoint rmatch (r : regex) (s : str) (cs : captures)
    (k : str -> captures -> mres) : mres :=
  match r with
  | Chr c =>
      match s with
      | x :: t => if Ascii.eqb x c then k t cs else None
      | [] => None
      end
  | Cls p =>
      match s with
      | x :: t => if p x then k t cs else None
      | [] => None
      end
  | Plus p =>
      match s with
      | x :: t => if p x then star_k p t (fun s' => k s' cs) else None
      | [] => None
      end
  | Star p => star_k p s (fun s' => k s' cs)
  | Opt r1 =>
      match rmatch r1 s cs k with
      | Some res => Some res
      | None => k s cs
      end
  | Seq r1 r2 => rmatch r1 s cs (fun s1 cs1 => rmatch r2 s1 cs1 k)
  | Group n r1 =>
      rmatch r1 s cs
        (fun s' cs' => k s' ((n, take (length s - length s') s) :: cs'))
  end.

(** [pattern.match(s)] at the start of [s]: the text left after the match
    and the groups. *)
Definition match_here (r : regex) (s : str) : mres :=
  rmatch r s [] (fun s' cs' => Some (s', cs')).

(** Replacement templates: literal text and group references [\n]. *)
Inductive titem : Type :=
| TLit (s : str)
| TRef (n : nat).

Fixpoint group (n : nat) (cs : captures) : str :=
  match cs with
  | (m, g) :: rest => if Nat.eqb m n then g else group n rest
  | [] => []
  end.

Fixpoint expand (tpl : list titem) (cs : captures) : str :=
  match tpl with
  | TLit s :: rest => s ++ expand rest cs
  | TRef n :: rest => group n cs ++ expand rest cs
  | [] => []
  end.

(** [re.sub(r, tpl, s)] for a pattern that cannot match the empty string:
    one left-to-right pass over non-overlapping matches.  [skip] counts the
    characters of [s] still covered by the match found last. *)
Fixpoint sub_from (r : regex) (tpl : list titem) (skip : nat) (s : str)
    : str :=
  match s with
  | [] => []
  | c :: t =>
      match skip with
      | S n => sub_from r tpl n t
      | O =>
          match match_here r s with
          | Some (rest, cs) =>
              expand tpl cs ++ sub_from r tpl (length s - length rest - 1) t
          | None => c :: sub_from r tpl 0 t
          end
      end
  end.

Definition re_sub (r : regex) (tpl : list titem) (s : str) : str :=
  sub_from r tpl 0 s.

(** ** [preprocess_expression] *)

(** [(\d+(?:\.\d+)?)\s*%] *)
Definition re_percent : regex :=
  Seq (Group 1 (Seq (Plus is_digit) (Opt (Seq (Chr ".") (Plus is_digit)))))
      (Seq (Star is_space) (Chr "%")).

(** [(\1/100)] *)
Definition tpl_percent : list titem :=
  [TLit (lit "("); TRef 1; TLit (lit "/100)")].

(** [(\d)([a-z])] and [\1*\2] *)
Definition re_digit_letter : regex :=
  Seq (Group 1 (Cls is_digit)) (Group 2 (Cls is_lower)).
Definition tpl_digit_letter : list titem :=
  [TRef 1; TLit (lit "*"); TRef 2].

(** [(\d)\(] and [\1*(] *)
Definition re_digit_paren : regex :=
  Seq (Group 1 (Cls is_digit)) (Chr "(").
Definition tpl_digit_paren : list titem :=
  [TRef 1; TLit (lit "*(")].

(** [\)(\d)] and [)*\1] *)
Definition re_paren_digit : regex :=
  Seq (Chr ")") (Group 1 (Cls is_digit)).
Definition tpl_paren_digit : list titem :=
  [TLit (lit ")*"); TRef 1].

(** [\)\(] and [)*(] *)
Definition re_paren_paren : regex :=
  Seq (Chr ")") (Chr "(").
Definition tpl_paren_paren : list titem :=
  [TLit (lit ")*(")].

Definition sub_percent (s : str) : str := re_sub re_percent tpl_percent s.

Definition preprocess_expression (expr : str) : str :=
  let expr := strip expr in
  let expr := re_sub re_percent tpl_percent expr in
  let expr := re_sub re_digit_letter tpl_digit_letter expr in
  let expr := re_sub re_digit_paren tpl_digit_paren expr in
  let expr := re_sub re_paren_digit tpl_paren_digit expr in
  let expr := re_sub re_paren_paren tpl_paren_paren expr in
  expr.

(** ** Direct readings of the five patterns *)

(** The longest prefix of [s] inside class [p], and what follows it. *)
Fixpoint run (p : ascii -> bool) (s : str) : str :=
  match s with
  | c :: t => if p c then c :: run p t else []
  | [] => []
  end.

Fixpoint after (p : ascii -> bool) (s : str) : str :=
  match s with
  | c :: t => if p c then after p t else s
  | [] => []
  end.

Definition starts_with (p : ascii -> bool) (s : str) : bool :=
  match s with
  | c :: _ => p c
  | [] => false
  end.

(** A match of [re_percent] at the start of [s]: the literal captured by
    group 1 and the text after the [%]. *)
Definition pct_at (s : str) : option (str * str) :=
  match s with
  | c :: t =>
      if is_digit c then
        let r1 := after is_digit t in
        let r2 :=
          match r1 with
          | x :: d :: t2 =>
              if Ascii.eqb x "." && is_digit d then after is_digit t2 else r1
          | _ => r1
          end in
        match after is_space r2 with
        | x :: rest =>
            if Ascii.eqb x "%"
            then Some (take (length s - length r2) s, rest)
            else None
        | [] => None
        end
      else None
  | [] => None
  end.

(** A numeric literal as [re_percent] reads it: digits, optionally
    followed by a point and more digits. *)
Definition decimal_literal (l : str) : bool :=
  match l with
  | c :: t =>
      is_digit c &&
      match after is_digit t with
      | [] => true
      | x :: d :: t2 =>
          Ascii.eqb x "." && is_digit d
          && match after is_digit t2 with [] => true | _ => false end
      | _ => false
      end
  | [] => false
  end.

(** A decimal number as Python writes it, exponents and underscores left
    aside: digits, or a point with digits before it, after it, or both
    ([5], [5.25], [5.], [.5]). *)
Definition python_decimal_literal (l : str) : bool :=
  match run is_digit l, after is_digit l with
  | _ :: _, [] => true
  | ip, x :: fp =>
      Ascii.eqb x "." && forallb is_digit fp
      && match ip, fp with
         | [], [] => false
         | _, _ => true
         end
  | [], [] => false
  end.

(** Some [%] of [s] follows a numeric literal and optional white space:
    [re_percent] matches somewhere in [s]. *)
Fixpoint percent_literal_in (s : str) : bool :=
  match s with
  | [] => false
  | _ :: t =>
      match pct_at s with
      | Some _ => true
      | None => percent_literal_in t
      end
  end.

(** A match of a two-character pattern [a b] with [a] in [A], [b] in [B]. *)
Definition pair_at (A B : ascii -> bool) (s : str) : option (ascii * ascii * str) :=
  match s with
  | a :: b :: t => if A a && B b then Some (a, b, t) else None
  | _ => None
  end.

(** Insertion of [*] between the two characters of every match, scanning
    left to right over non-overlapping matches. *)
Fixpoint ins_mul (A B : ascii -> bool) (skip : bool) (s : str) : str :=
  match s with
  | [] => []
  | a :: t =>
      if skip then a :: ins_mul A B false t
      else
        match pair_at A B s with
        | Some _ => a :: "*" :: ins_mul A B true t
        | None => a :: ins_mul A B false t
        end
  end.

(** The same insertion read character by character; it agrees with
    [ins_mul] when no character of [B] is in [A]. *)
Fixpoint ins_star (A B : ascii -> bool) (s : str) : str :=
  match s with
  | [] => []
  | a :: t =>
      if A a && starts_with B t then a :: "*" :: ins_star A B t
      else a :: ins_star A B t
  end.

(** Some character of [A] is directly followed by one of [B]. *)
Fixpoint has_pair (A B : ascii -> bool) (s : str) : bool :=
  match s with
  | [] => false
  | a :: t => (A a && starts_with B t) || has_pair A B t
  end.

Definition is_lpar (c : ascii) : bool := Ascii.eqb c "(".
Definition is_rpar (c : ascii) : bool := Ascii.eqb c ")".

(** [preprocess_expression] through the direct readings. *)
Definition mul_passes (s : str) : str :=
  ins_star is_rpar is_lpar
    (ins_star is_rpar is_digit
       (ins_star is_digit is_lpar
          (ins_star is_digit is_lower s))).


Definition ends_with (p : ascii -> bool) (s : str) : bool :=
  starts_with p (rev s).

(** The characters a percent match is made of before its [%]. *)
Definition literal_or_space (c : ascii) : bool :=
  is_digit c || Ascii.eqb c "." || is_space c.

(** The characters of a literal, and those that end a literal with
    optional white space. *)
Definition digit_or_point (c : ascii) : bool := is_digit c || Ascii.eqb c ".".
Definition digit_or_space (c : ascii) : bool := is_digit c || is_space c.

Definition not_percent (c : ascii) : bool := negb (Ascii.eqb c "%").
Definition not_star (c : ascii) : bool := negb (Ascii.eqb c "*").
Definition not_lpar (c : ascii) : bool := negb (Ascii.eqb c "(").

(** Neither the first nor the last character is white space. *)
Definition trimmed (s : str) : Prop :=
  starts_with is_space s = false /\ ends_with is_space s = false.


(** The characters of a literal divided by a literal. *)
Definition quotient_char (c : ascii) : bool :=
  is_digit c || Ascii.eqb c "." || Ascii.eqb c "/".

(** ** Python values, exceptions and outcomes *)

(** The objects an expression of the modelled fragment can evaluate to:
    [int], [float] (IEEE binary64), [bool], [None], the built-in
    functions (those of the [builtins] module and those of [math]), and a
    module. *)
Inductive value : Type :=
| VInt (z : Z)
| VFloat (f : spec_float)
| VBool (b : bool)
| VNone
| VBuiltin (name : string)
| VMath (name : string)
| VModule (name : string).

(** The exceptions the described code raises.  [UnicodeDecodeError] comes
    from reading a file only. *)
Inductive exn : Type :=
| ZeroDivisionError
| SyntaxError
| NameError (msg : string)
| TypeError (msg : string)
| ValueError (msg : string)
| OverflowError (msg : string)
| UnicodeDecodeError (msg : string).

(** The outcome of running a piece of Python: a result, an exception, or
    [Unmodelled] when the input leaves the fragment of the language and of
    the library described here (nothing is stated about such inputs). *)
Inductive outcome (A : Type) : Type :=
| Returns (a : A)
| Raises (e : exn)
| Unmodelled.
Arguments Returns {A} a.
Arguments Raises {A} e.
Arguments Unmodelled {A}.

#[global] Instance outcome_ret : MRet outcome := fun A a => Returns a.
#[global] Instance outcome_bind : MBind outcome := fun A B k m =>
  match m with
  | Returns a => k a
  | Raises e => Raises e
  | Unmodelled => Unmodelled
  end.

Definition type_name (v : value) : string :=
  match v with
  | VInt _ => "int"
  | VFloat _ => "float"
  | VBool _ => "bool"
  | VNone => "NoneType"
  | VBuiltin _ | VMath _ => "builtin_function_or_method"
  | VModule _ => "module"
  end.

(** ** Floating point: binary64 *)

Definition prec : Z := 53.
Definition emax : Z := 1024.

Definition fadd := SFadd prec emax.
Definition fsub := SFsub prec emax.
Definition fmul := SFmul prec emax.
Definition fdiv := SFdiv prec emax.
Definition fsqrt := SFsqrt prec emax.

Definition f_is_nan (f : spec_float) : bool :=
  match f with S754_nan => true | _ => false end.
Definition f_is_inf (f : spec_float) : bool :=
  match f with S754_infinity _ => true | _ => false end.
Definition f_is_finite (f : spec_float) : bool :=
  match f with S754_zero _ | S754_finite _ _ _ => true | _ => false end.
Definition f_is_zero (f : spec_float) : bool :=
  match f with S754_zero _ => true | _ => false end.

(** An integer as an exact (unrounded) binary number. *)
Definition exact (z : Z) : spec_float :=
  match z with
  | Z0 => S754_zero false
  | Zpos p => S754_finite false p 0
  | Zneg p => S754_finite true p 0
  end.

(** [float(z)]: round to nearest even; too large raises. *)
Definition float_of_int (z : Z) : outcome spec_float :=
  let f := binary_normalize prec emax z 0 false in
  if f_is_inf f then Raises (OverflowError "int too large to convert to float")
  else Returns f.

(** [a / b] on integers: the correctly rounded quotient. *)
Definition int_true_divide (a b : Z) : outcome spec_float :=
  if (b =? 0)%Z then Raises ZeroDivisionError
  else if (a =? 0)%Z then Returns (S754_zero (b <? 0)%Z)
  else
    let f := fdiv (exact a) (exact b) in
    if f_is_inf f
    then Raises (OverflowError "integer division result too large for a float")
    else Returns f.

(** [float.is_integer()] and [int(f)] for a float that is an integer. *)
Definition float_is_integer (f : spec_float) : bool :=
  match f with
  | S754_zero _ => true
  | S754_finite _ m e =>
      (0 <=? e)%Z || (Z.pos m mod 2 ^ (- e) =? 0)%Z
  | _ => false
  end.

Definition int_of_float (f : spec_float) : Z :=
  match f with
  | S754_finite s m e =>
      let a := if (0 <=? e)%Z then (Z.pos m * 2 ^ e)%Z
               else (Z.pos m / 2 ^ (- e))%Z in
      if s then (- a)%Z else a
  | _ => 0%Z
  end.

(** The constants of the math module. *)
Definition math_pi : spec_float := S754_finite false 7074237752028440 (-51).
Definition math_e : spec_float := S754_finite false 6121026514868073 (-51).
Definition math_tau : spec_float := S754_finite false 7074237752028440 (-50).
Definition math_inf : spec_float := S754_infinity false.
Definition math_nan : spec_float := S754_nan.

(** ** Operators *)

Inductive unop : Type := UAdd | USub.
Inductive binop : Type := Add | Sub | Mult | Div | FloorDiv | Mod | Pow.
Inductive cmpop : Type := CLt | CGt | CLtE | CGtE | CEq | CNotEq.

Inductive num : Type :=
| NInt (z : Z)
| NFloat (f : spec_float).

Definition to_num (v : value) : option num :=
  match v with
  | VInt z => Some (NInt z)
  | VBool b => Some (NInt (Z.b2z b))
  | VFloat f => Some (NFloat f)
  | _ => None
  end.

Definition num_to_float (x : num) : outcome spec_float :=
  match x with
  | NInt z => float_of_int z
  | NFloat f => Returns f
  end.

Definition binop_symbol (o : binop) : string :=
  match o with
  | Add => "+" | Sub => "-" | Mult => "*" | Div => "/"
  | FloorDiv => "//" | Mod => "%" | Pow => "** or pow()"
  end.

(** Integer powers beyond this exponent are left out of the model. *)
Definition max_modelled_exponent : Z := 4096.

Definition int_binop (o : binop) (x y : Z) : outcome value :=
  match o with
  | Add => Returns (VInt (x + y))
  | Sub => Returns (VInt (x - y))
  | Mult => Returns (VInt (x * y))
  | Div => f ← int_true_divide x y; Returns (VFloat f)
  | FloorDiv =>
      if (y =? 0)%Z then Raises ZeroDivisionError else Returns (VInt (x / y))
  | Mod =>
      if (y =? 0)%Z then Raises ZeroDivisionError
      else Returns (VInt (x mod y))
  | Pow =>
      if (0 <=? y)%Z && (y <=? max_modelled_exponent)%Z
      then Returns (VInt (x ^ y))
      else Unmodelled
  end.

Definition float_binop (o : binop) (x y : spec_float) : outcome value :=
  match o with
  | Add => Returns (VFloat (fadd x y))
  | Sub => Returns (VFloat (fsub x y))
  | Mult => Returns (VFloat (fmul x y))
  | Div =>
      if f_is_zero y then Raises ZeroDivisionError
      else Returns (VFloat (fdiv x y))
  | FloorDiv | Mod | Pow => Unmodelled
  end.

Definition binary (o : binop) (a b : value) : outcome value :=
  match to_num a, to_num b with
  | Some (NInt x), Some (NInt y) => int_binop o x y
  | Some x, Some y =>
      match o with
      | FloorDiv | Mod | Pow => Unmodelled
      | _ =>
          fx ← num_to_float x;
          fy ← num_to_float y;
          float_binop o fx fy
      end
  | _, _ =>
      Raises (TypeError ("unsupported operand type(s) for " +:+ binop_symbol o
                         +:+ ": '" +:+ type_name a +:+ "' and '"
                         +:+ type_name b +:+ "'"))
  end.

Definition unary (o : unop) (a : value) : outcome value :=
  match to_num a with
  | Some (NInt z) =>
      Returns (VInt (match o with UAdd => z | USub => - z end))
  | Some (NFloat f) =>
      Returns (VFloat (match o with UAdd => f | USub => SFopp f end))
  | None =>
      Raises (TypeError ("bad operand type for unary "
                         +:+ match o with UAdd => "+" | USub => "-" end
                         +:+ ": '" +:+ type_name a +:+ "'"))
  end.

(** Exact comparison of an integer with a float. *)
Definition compare_int_float (z : Z) (f : spec_float) : option comparison :=
  match f with
  | S754_nan => None
  | S754_infinity s => Some (if s then Gt else Lt)
  | S754_zero _ => Some (z ?= 0)%Z
  | S754_finite s m e =>
      let v := if s then Z.neg m else Z.pos m in
      if (0 <=? e)%Z then Some (z ?= v * 2 ^ e)%Z
      else Some (z * 2 ^ (- e) ?= v)%Z
  end.

Definition compare_num (x y : num) : option comparison :=
  match x, y with
  | NInt a, NInt b => Some (a ?= b)%Z
  | NFloat a, NFloat b => SFcompare a b
  | NInt a, NFloat b => compare_int_float a b
  | NFloat a, NInt b => CompOpp <$> compare_int_float b a
  end.

Definition cmp_holds (o : cmpop) (c : option comparison) : bool :=
  match o, c with
  | CLt, Some Lt => true
  | CGt, Some Gt => true
  | CLtE, Some (Lt | Eq) => true
  | CGtE, Some (Gt | Eq) => true
  | CEq, Some Eq => true
  | CNotEq, Some Eq => false
  | CNotEq, _ => true
  | _, _ => false
  end.

Definition cmpop_symbol (o : cmpop) : string :=
  match o with
  | CLt => "<" | CGt => ">" | CLtE => "<=" | CGtE => ">="
  | CEq => "==" | CNotEq => "!="
  end.

(** Identity of the objects that are not numbers. *)
Definition same_object (a b : value) : bool :=
  match a, b with
  | VNone, VNone => true
  | VBuiltin x, VBuiltin y => String.eqb x y
  | VMath x, VMath y => String.eqb x y
  | VModule x, VModule y => String.eqb x y
  | _, _ => false
  end.

Definition compare_values (o : cmpop) (a b : value) : outcome value :=
  match to_num a, to_num b with
  | Some x, Some y => Returns (VBool (cmp_holds o (compare_num x y)))
  | _, _ =>
      match o with
      | CEq => Returns (VBool (same_object a b))
      | CNotEq => Returns (VBool (negb (same_object a b)))
      | _ =>
          Raises (TypeError ("'" +:+ cmpop_symbol o
                             +:+ "' not supported between instances of '"
                             +:+ type_name a +:+ "' and '"
                             +:+ type_name b +:+ "'"))
      end
  end.

Definition truthy (v : value) : bool :=
  match v with
  | VInt z => negb (z =? 0)%Z
  | VFloat f => negb (f_is_zero f)
  | VBool b => b
  | VNone => false
  | VBuiltin _ | VMath _ | VModule _ => true
  end.

(** ** Tokens of the modelled fragment of Python expressions

    Decimal integer and point-float literals, names, the constants
    [True], [False] and [None], the arithmetic and comparison operators,
    parentheses, commas and the attribute dot.  Any other character or
    token (quotes, brackets, the ellipsis, bitwise operators, keywords,
    exponents, underscores in numbers, non-ASCII text, line breaks, ...)
    makes the lexer give up with [None], which the evaluator reports as
    [Unmodelled]. *)

Inductive token : Type :=
| TNumber (text : str)
| TName (x : string)
| TTrue | TFalse | TNone
| TPlus | TMinus | TStar | TSlash | TDoubleSlash | TPercent | TDoubleStar
| TCmp (o : cmpop)
| TLPar | TRPar | TComma | TDot.

Inductive lexed : Type :=
| Tok (t : token) (len : nat)
| Blank
| Bad.

Definition is_upper (c : ascii) : bool := in_range 65 90 c.
Definition is_ident_start (c : ascii) : bool :=
  is_lower c || is_upper c || Ascii.eqb c "_".
Definition is_ident_char (c : ascii) : bool := is_ident_start c || is_digit c.

(** Space, tab and form feed separate tokens. *)
Definition is_blank (c : ascii) : bool :=
  Ascii.eqb c " " || Ascii.eqb c "009" || Ascii.eqb c "012".

Definition keywords : list string :=
  ["and"; "as"; "assert"; "async"; "await"; "break"; "class"; "continue";
   "def"; "del"; "elif"; "else"; "except"; "finally"; "for"; "from";
   "global"; "if"; "import"; "in"; "is"; "lambda"; "nonlocal"; "not"; "or";
   "pass"; "raise"; "return"; "try"; "while"; "with"; "yield"]%string.

Definition lex_number (s : str) : lexed :=
  let ip := run is_digit s in
  let r := after is_digit s in
  let '(text, r') :=
    match r with
    | "." :: t => (ip ++ "." :: run is_digit t, after is_digit t)
    | _ => (ip, r)
    end in
  match r' with
  | c :: _ => if is_ident_char c then Bad else Tok (TNumber text) (length text)
  | [] => Tok (TNumber text) (length text)
  end.

Definition lex_name (s : str) : lexed :=
  let w := string_of_list_ascii (run is_ident_char s) in
  let len := length (run is_ident_char s) in
  if String.eqb w "True" then Tok TTrue len
  else if String.eqb w "False" then Tok TFalse len
  else if String.eqb w "None" then Tok TNone len
  else if existsb (String.eqb w) keywords then Bad
  else Tok (TName w) len.

Definition lex_op (s : str) : lexed :=
  match s with
  | "*" :: "*" :: "=" :: _ => Bad
  | "*" :: "*" :: _ => Tok TDoubleStar 2
  | "*" :: "=" :: _ => Bad
  | "*" :: _ => Tok TStar 1
  | "/" :: "/" :: "=" :: _ => Bad
  | "/" :: "/" :: _ => Tok TDoubleSlash 2
  | "/" :: "=" :: _ => Bad
  | "/" :: _ => Tok TSlash 1
  | "+" :: "=" :: _ => Bad
  | "+" :: _ => Tok TPlus 1
  | "-" :: "=" :: _ => Bad
  | "-" :: ">" :: _ => Bad
  | "-" :: _ => Tok TMinus 1
  | "%" :: "=" :: _ => Bad
  | "%" :: _ => Tok TPercent 1
  | "<" :: "=" :: _ => Tok (TCmp CLtE) 2
  | "<" :: "<" :: _ => Bad
  | "<" :: ">" :: _ => Bad
  | "<" :: _ => Tok (TCmp CLt) 1
  | ">" :: "=" :: _ => Tok (TCmp CGtE) 2
  | ">" :: ">" :: _ => Bad
  | ">" :: _ => Tok (TCmp CGt) 1
  | "=" :: "=" :: _ => Tok (TCmp CEq) 2
  | "!" :: "=" :: _ => Tok (TCmp CNotEq) 2
  | "(" :: _ => Tok TLPar 1
  | ")" :: _ => Tok TRPar 1
  | "," :: _ => Tok TComma 1
  | "." :: "." :: _ => Bad
  | "." :: _ => Tok TDot 1
  | _ => Bad
  end.

(** The token that starts at the head of [s]. *)
Definition lex_at (s : str) : lexed :=
  match s with
  | [] => Bad
  | c :: t =>
      if is_blank c then Blank
      else if is_digit c || (Ascii.eqb c "." && starts_with is_digit t)
      then lex_number s
      else if is_ident_start c then lex_name s
      else lex_op s
  end.

(** The token list of [s]; [skip] counts the characters still covered by
    the token read last. *)
Fixpoint lex_from (skip : nat) (s : str) : option (list token) :=
  match s with
  | [] => Some []
  | c :: t =>
      match skip with
      | S n => lex_from n t
      | O =>
          match lex_at s with
          | Tok tk len => cons tk <$> lex_from (len - 1) t
          | Blank => lex_from 0 t
          | Bad => None
          end
      end
  end.

Definition tokenize (s : str) : option (list token) := lex_from 0 s.

(** ** Number literals *)

Definition digit_value (c : ascii) : Z := Z.of_N (code c) - 48.

Definition digits_value (ds : str) : Z :=
  fold_left (fun acc c => 10 * acc + digit_value c)%Z ds 0%Z.

(** Longest decimal integer literal the compiler converts. *)
Definition int_max_str_digits : nat := 4300.

Definition int_literal (ds : str) : outcome value :=
  if Nat.ltb int_max_str_digits (length ds) then Unmodelled
  else if starts_with (Ascii.eqb "0") ds && negb (forallb (Ascii.eqb "0") ds)
  then Raises SyntaxError
  else Returns (VInt (digits_value ds)).

(** A point-float literal [ip.fp] denotes the binary64 number nearest to
    the decimal [ip fp / 10^|fp|]. *)
Definition float_literal (ip fp : str) : outcome value :=
  let m := digits_value (ip ++ fp) in
  let d := (10 ^ Z.of_nat (length fp))%Z in
  if (m =? 0)%Z then Returns (VFloat (S754_zero false))
  else Returns (VFloat (fdiv (exact m) (exact d))).

Definition number_value (text : str) : outcome value :=
  let ip := run is_digit text in
  match after is_digit text with
  | "." :: fp => float_literal ip fp
  | _ => int_literal text
  end.

(** ** Syntax trees and the parser *)

Inductive expr : Type :=
| EConst (v : value)
| EName (x : string)
| EUnary (o : unop) (e : expr)
| EBin (o : binop) (l r : expr)
| ECompare (l : expr) (rest : list (cmpop * expr))
| ECall (f : expr) (args : list expr)
| EAttr (e : expr) (attr : string).

Definition mk_compare (l : expr) (rest : list (cmpop * expr)) : expr :=
  match rest with
  | [] => l
  | _ => ECompare l rest
  end.

(** Recursive descent following the grammar
    [comparison > sum > term > factor > power > primary > atom].
    A construct that full Python accepts but the fragment leaves out (a
    tuple, a starred expression) gives [Unmodelled]; so does running out of
    [fuel]. *)
Fixpoint p_comparison (fuel : nat) (ts : list token)
    : outcome (expr * list token) :=
  match fuel with
  | O => Unmodelled
  | S n => '(l, ts1) ← p_sum n ts; p_comparison_rest n l [] ts1
  end
with p_comparison_rest (fuel : nat) (l : expr) (acc : list (cmpop * expr))
    (ts : list token) : outcome (expr * list token) :=
  match fuel with
  | O => Unmodelled
  | S n =>
      match ts with
      | TCmp o :: ts1 =>
          '(r, ts2) ← p_sum n ts1; p_comparison_rest n l (acc ++ [(o, r)]) ts2
      | _ => Returns (mk_compare l acc, ts)
      end
  end
with p_sum (fuel : nat) (ts : list token) : outcome (expr * list token) :=
  match fuel with
  | O => Unmodelled
  | S n => '(l, ts1) ← p_term n ts; p_sum_rest n l ts1
  end
with p_sum_rest (fuel : nat) (l : expr) (ts : list token)
    : outcome (expr * list token) :=
  match fuel with
  | O => Unmodelled
  | S n =>
      match ts with
      | TPlus :: ts1 => '(r, ts2) ← p_term n ts1; p_sum_rest n (EBin Add l r) ts2
      | TMinus :: ts1 => '(r, ts2) ← p_term n ts1; p_sum_rest n (EBin Sub l r) ts2
      | _ => Returns (l, ts)
      end
  end
with p_term (fuel : nat) (ts : list token) : outcome (expr * list token) :=
  match fuel with
  | O => Unmodelled
  | S n => '(l, ts1) ← p_factor n ts; p_term_rest n l ts1
  end
with p_term_rest (fuel : nat) (l : expr) (ts : list token)
    : outcome (expr * list token) :=
  match fuel with
  | O => Unmodelled
  | S n =>
      match ts with
      | TStar :: ts1 =>
          '(r, ts2) ← p_factor n ts1; p_term_rest n (EBin Mult l r) ts2
      | TSlash :: ts1 =>
          '(r, ts2) ← p_factor n ts1; p_term_rest n (EBin Div l r) ts2
      | TDoubleSlash :: ts1 =>
          '(r, ts2) ← p_factor n ts1; p_term_rest n (EBin FloorDiv l r) ts2
      | TPercent :: ts1 =>
          '(r, ts2) ← p_factor n ts1; p_term_rest n (EBin Mod l r) ts2
      | _ => Returns (l, ts)
      end
  end
with p_factor (fuel : nat) (ts : list token) : outcome (expr * list token) :=
  match fuel with
  | O => Unmodelled
  | S n =>
      match ts with
      | TPlus :: ts1 => '(e, ts2) ← p_factor n ts1; Returns (EUnary UAdd e, ts2)
      | TMinus :: ts1 => '(e, ts2) ← p_factor n ts1; Returns (EUnary USub e, ts2)
      | _ => p_power n ts
      end
  end
with p_power (fuel : nat) (ts : list token) : outcome (expr * list token) :=
  match fuel with
  | O => Unmodelled
  | S n =>
      '(b, ts1) ← p_primary n ts;
      match ts1 with
      | TDoubleStar :: ts2 =>
          '(e, ts3) ← p_factor n ts2; Returns (EBin Pow b e, ts3)
      | _ => Returns (b, ts1)
      end
  end
with p_primary (fuel : nat) (ts : list token) : outcome (expr * list token) :=
  match fuel with
  | O => Unmodelled
  | S n => '(a, ts1) ← p_atom n ts; p_trailers n a ts1
  end
with p_trailers (fuel : nat) (f : expr) (ts : list token)
    : outcome (expr * list token) :=
  match fuel with
  | O => Unmodelled
  | S n =>
      match ts with
      | TLPar :: ts1 =>
          '(args, ts2) ← p_args n ts1; p_trailers n (ECall f args) ts2
      | TDot :: TName x :: ts1 => p_trailers n (EAttr f x) ts1
      | TDot :: _ => Raises SyntaxError
      | _ => Returns (f, ts)
      end
  end
with p_args (fuel : nat) (ts : list token)
    : outcome (list expr * list token) :=
  match fuel with
  | O => Unmodelled
  | S n =>
      match ts with
      | TRPar :: ts1 => Returns ([], ts1)
      | TStar :: _ | TDoubleStar :: _ => Unmodelled
      | _ =>
          '(e, ts1) ← p_comparison n ts;
          match ts1 with
          | TComma :: ts2 =>
              '(rest, ts3) ← p_args n ts2; Returns (e :: rest, ts3)
          | TRPar :: ts2 => Returns ([e], ts2)
          | _ => Raises SyntaxError
          end
      end
  end
with p_atom (fuel : nat) (ts : list token) : outcome (expr * list token) :=
  match fuel with
  | O => Unmodelled
  | S n =>
      match ts with
      | TNumber text :: ts1 => v ← number_value text; Returns (EConst v, ts1)
      | TName x :: ts1 => Returns (EName x, ts1)
      | TTrue :: ts1 => Returns (EConst (VBool true), ts1)
      | TFalse :: ts1 => Returns (EConst (VBool false), ts1)
      | TNone :: ts1 => Returns (EConst VNone, ts1)
      | TLPar :: TRPar :: _ => Unmodelled
      | TLPar :: ts1 =>
          '(e, ts2) ← p_comparison n ts1;
          match ts2 with
          | TRPar :: ts3 => Returns (e, ts3)
          | TComma :: _ => Unmodelled
          | _ => Raises SyntaxError
          end
      | TStar :: _ | TDoubleStar :: _ => Unmodelled
      | _ => Raises SyntaxError
      end
  end.

Definition parse_fuel (ts : list token) : nat := 16 * S (length ts).

(** [compile(source, "<string>", "eval")] on a token list. *)
Definition parse (ts : list token) : outcome expr :=
  '(e, rest) ← p_comparison (parse_fuel ts) ts;
  match rest with
  | [] => Returns e
  | TComma :: _ => Unmodelled
  | _ => Raises SyntaxError
  end.

Local Close Scope char_scope.

(** ** Evaluation *)

(** Name lookup of an expression run by [eval(source, globals, {})].  The
    compiler replaces the name [__debug__] by the constant [True].  For any
    other name the locals are empty, then come the globals, then the
    builtins, which are whatever the globals hold under ["__builtins__"];
    subscripting [None] there raises [TypeError]. *)
Definition load_name (globals : gmap string value) (x : string)
    : outcome value :=
  if String.eqb x "__debug__" then Returns (VBool true)
  else
    match globals !! x with
    | Some v => Returns v
    | None =>
        match globals !! "__builtins__"%string with
        | Some VNone =>
            Raises (TypeError "'NoneType' object is not subscriptable")
        | _ => Unmodelled
        end
    end.

(** The attributes of the [builtins] module that are built-in functions
    (CPython 3.11). *)
Definition builtin_functions : list string :=
  ["__build_class__"; "__import__"; "abs"; "aiter"; "all"; "anext"; "any";
   "ascii"; "bin"; "breakpoint"; "callable"; "chr"; "compile"; "delattr";
   "dir"; "divmod"; "eval"; "exec"; "format"; "getattr"; "globals";
   "hasattr"; "hash"; "hex"; "id"; "input"; "isinstance"; "issubclass";
   "iter"; "len"; "locals"; "max"; "min"; "next"; "oct"; "open"; "ord";
   "pow"; "print"; "repr"; "round"; "setattr"; "sorted"; "sum";
   "vars"]%string.

(** Attribute access [v.attr].  Described: the module a built-in function
    belongs to ([f.__self__]: [builtins], and [_io] for [open]), and the
    functions of the [builtins] module.  Every other attribute access is
    left out. *)
Definition getattr (v : value) (attr : string) : outcome value :=
  match v with
  | VBuiltin f =>
      if String.eqb attr "__self__"
      then Returns (VModule (if String.eqb f "open" then "_io" else "builtins"))
      else Unmodelled
  | VModule m =>
      if String.eqb m "builtins" && existsb (String.eqb attr) builtin_functions
      then Returns (VBuiltin attr)
      else Unmodelled
  | _ => Unmodelled
  end.

(** [PyFloat_AsDouble]. *)
Definition as_double (v : value) : outcome spec_float :=
  match to_num v with
  | Some x => num_to_float x
  | None => Raises (TypeError ("must be real number, not " +:+ type_name v))
  end.

(** The wrapper of the math module around a C function of one argument
    that cannot overflow. *)
Definition math_1 (func : spec_float -> spec_float) (x : spec_float)
    : outcome value :=
  let r := func x in
  if f_is_nan r && negb (f_is_nan x) then Raises (ValueError "math domain error")
  else if f_is_inf r && f_is_finite x then Raises (ValueError "math domain error")
  else Returns (VFloat r).

Definition takes_one (fname : string) (n : nat) : string :=
  fname +:+ "() takes exactly one argument (" +:+ pretty n +:+ " given)".

Definition builtin_abs (args : list value) : outcome value :=
  match args with
  | [a] =>
      match to_num a with
      | Some (NInt z) => Returns (VInt (Z.abs z))
      | Some (NFloat f) => Returns (VFloat (SFabs f))
      | None =>
          Raises (TypeError ("bad operand type for abs(): '"
                             +:+ type_name a +:+ "'"))
      end
  | _ => Raises (TypeError (takes_one "abs" (length args)))
  end.

Definition math_sqrt (args : list value) : outcome value :=
  match args with
  | [a] => x ← as_double a; math_1 fsqrt x
  | _ => Raises (TypeError (takes_one "math.sqrt" (length args)))
  end.

Definition max_modelled_tokens : nat := 256.

Section Evaluator.

(** [dir(math)]: the attribute names of the math module. *)
Variable math_dir : list string.

(** The functions of the math module other than [sqrt] (C library code):
    what a call with the given arguments does. *)
Variable math_ext : string -> list value -> outcome value.

Definition call (f : value) (args : list value) : outcome value :=
  match f with
  | VBuiltin name =>
      if String.eqb name "abs" then builtin_abs args else Unmodelled
  | VMath name =>
      if String.eqb name "sqrt" then math_sqrt args else math_ext name args
  | _ => Raises (TypeError ("'" +:+ type_name f +:+ "' object is not callable"))
  end.

Fixpoint eval_expr (globals : gmap string value) (e : expr) {struct e}
    : outcome value :=
  match e with
  | EConst v => Returns v
  | EName x => load_name globals x
  | EUnary o a => v ← eval_expr globals a; unary o v
  | EBin o a b =>
      x ← eval_expr globals a;
      y ← eval_expr globals b;
      binary o x y
  | ECompare a rest =>
      x ← eval_expr globals a;
      (fix chain (x : value) (rest : list (cmpop * expr)) {struct rest}
           : outcome value :=
         match rest with
         | [] => Returns x
         | [(o, b)] => y ← eval_expr globals b; compare_values o x y
         | (o, b) :: more =>
             y ← eval_expr globals b;
             r ← compare_values o x y;
             if truthy r then chain y more else Returns r
         end) x rest
  | ECall f args =>
      fv ← eval_expr globals f;
      vs ← (fix eval_args (args : list expr) {struct args}
                : outcome (list value) :=
              match args with
              | [] => Returns []
              | a :: more =>
                  v ← eval_expr globals a;
                  vs ← eval_args more;
                  Returns (v :: vs)
              end) args;
      call fv vs
  | EAttr a attr => v ← eval_expr globals a; getattr v attr
  end.

(** [eval(source, globals, {})].  Sources of more than
    [max_modelled_tokens] tokens are left out: on long or deeply nested
    input the interpreter may stop on its own nesting and recursion
    limits, which are not described here. *)
Definition py_eval (source : str) (globals : gmap string value)
    : outcome value :=
  match tokenize source with
  | None => Unmodelled
  | Some ts =>
      if Nat.ltb max_modelled_tokens (length ts) then Unmodelled
      else e ← parse ts; eval_expr globals e
  end.

(** ** [safe_eval] *)

Definition startswith_underscore (attr : string) : bool :=
  match attr with
  | String "_"%char _ => true
  | _ => false
  end.

(** [getattr(math, attr)]. *)
Definition math_getattr (attr : string) : value :=
  if String.eqb attr "pi" then VFloat math_pi
  else if String.eqb attr "e" then VFloat math_e
  else if String.eqb attr "tau" then VFloat math_tau
  else if String.eqb attr "inf" then VFloat math_inf
  else if String.eqb attr "nan" then VFloat math_nan
  else VMath attr.

Definition math_attrs : list string :=
  filter (fun attr => startswith_underscore attr = false) math_dir.

(** The dictionary display that starts the namespace. *)
Definition safe_dict_literal : gmap string value :=
  <["max" := VBuiltin "max"]>
  (<["min" := VBuiltin "min"]>
  (<["pow" := VBuiltin "pow"]>
  (<["round" := VBuiltin "round"]>
  (<["abs" := VBuiltin "abs"]>
  (<["__builtins__" := VNone]> ∅))))).

(** The namespace after the loop over [math_attrs]. *)
Definition safe_dict : gmap string value :=
  foldl (fun d attr => <[attr := math_getattr attr]> d)
        safe_dict_literal math_attrs.

(** [isinstance(result, (int, float))]; [bool] is a subclass of [int]. *)
Definition is_number (v : value) : bool :=
  match v with
  | VInt _ | VFloat _ | VBool _ => true
  | _ => false
  end.

(** "Format result": a float that is an integer becomes an [int]. *)
Definition format_result (result : value) : value :=
  match result with
  | VFloat f => if float_is_integer f then VInt (int_of_float f) else result
  | _ => result
  end.

Definition try_body (expr : str) : outcome (option value * option string) :=
  let processed := preprocess_expression expr in
  result ← py_eval processed safe_dict;
  if is_number result then Returns (Some (format_result result), None)
  else Returns (None, Some "Result is not a number"%string).

Definition handlers (e : exn) : outcome (option value * option string) :=
  match e with
  | ZeroDivisionError => Returns (None, Some "Division by zero"%string)
  | SyntaxError => Returns (None, Some "Invalid syntax"%string)
  | NameError msg =>
      Returns (None, Some ("Unknown function or variable: " +:+ msg))
  | TypeError msg | ValueError msg | OverflowError msg
  | UnicodeDecodeError msg =>
      Returns (None, Some ("Error: " +:+ msg))
  end.

Definition safe_eval (expr : str) : outcome (option value * option string) :=
  match try_body expr with
  | Raises e => handlers e
  | r => r
  end.

End Evaluator.

(** [dir(math)] of CPython 3.11, for the examples. *)
Definition math_dir_311 : list string :=
  ["__doc__"; "__loader__"; "__name__"; "__package__"; "__spec__";
   "acos"; "acosh"; "asin"; "asinh"; "atan"; "atan2"; "atanh"; "cbrt";
   "ceil"; "comb"; "copysign"; "cos"; "cosh"; "degrees"; "dist"; "e"; "erf";
   "erfc"; "exp"; "exp2"; "expm1"; "fabs"; "factorial"; "floor"; "fmod";
   "frexp"; "fsum"; "gamma"; "gcd"; "hypot"; "inf"; "isclose"; "isfinite";
   "isinf"; "isnan"; "isqrt"; "lcm"; "ldexp"; "lgamma"; "log"; "log10";
   "log1p"; "log2"; "modf"; "nan"; "nextafter"; "perm"; "pi"; "pow"; "prod";
   "radians"; "remainder"; "sin"; "sinh"; "sqrt"; "tan"; "tanh"; "tau";
   "trunc"; "ulp"]%string.

(** A math module of which only [sqrt] is described. *)
Definition no_ext (name : string) (args : list value) : outcome value :=
  Unmodelled.

(** A C library whose [sin] returns [1.0] at the double nearest to pi/2. *)
Definition half_pi : spec_float := S754_finite false 7074237752028440 (-52).
Definition one : spec_float := S754_finite false 4503599627370496 (-52).
Definition half : spec_float := S754_finite false 4503599627370496 (-53).

Definition sin_ext (name : string) (args : list value) : outcome value :=
  match args with
  | [VFloat x] =>
      if String.eqb name "sin" && SFeqb x half_pi then Returns (VFloat one)
      else Unmodelled
  | _ => Unmodelled
  end.

(** ** The history store

    [histories.json] holds a dictionary from user names to lists of entry
    dictionaries.  The states of the file:
    - [Absent]: [os.path.exists] is false;
    - [Unreadable]: opening it raises [IOError], or its text is not JSON
      ([json.JSONDecodeError]); [load_json_file] catches both;
    - [Undecodable msg]: its bytes are not UTF-8 text, so reading it raises
      [UnicodeDecodeError] with the message [msg], which [load_json_file]
      does not catch;
    - [Json data]: it holds such a dictionary.
    A file that holds JSON of another shape is left out.  Opening the file
    for writing succeeds or raises [IOError]. *)

Record CalculationEntry : Type := {
  expr_ : string;
  result_ : string;
  timestamp : string
}.

Definition to_dict (entry : CalculationEntry) : gmap string string :=
  <["timestamp" := timestamp entry]>
  (<["result" := result_ entry]>
  (<["expr" := expr_ entry]> ∅))%string.

Definition MAX_HISTORY : nat := 100.

Abbreviation histories_t := (gmap string (list (gmap string string))).

Inductive file : Type :=
| Absent
| Unreadable
| Undecodable (msg : string)
| Json (data : histories_t).

Record disk : Type := {
  history_file : file;
  writable : bool
}.

Definition load_json_file (d : disk) : outcome histories_t :=
  match history_file d with
  | Json data => Returns data
  | Absent | Unreadable => Returns ∅
  | Undecodable msg => Raises (UnicodeDecodeError msg)
  end.

Definition save_json_file (data : histories_t) (d : disk) : bool * disk :=
  if writable d
  then (true, {| history_file := Json data; writable := writable d |})
  else (false, d).

Definition load_history (username : string) (d : disk)
    : outcome (list (gmap string string)) :=
  histories ← load_json_file d;
  Returns (default [] (histories !! username)).

(** The dictionary [append_history] hands to [save_json_file]. *)
Definition appended (username : string) (entry : CalculationEntry)
    (histories : histories_t) : histories_t :=
  let histories :=
    match histories !! username with
    | Some _ => histories
    | None => <[username := []]> histories
    end in
  let histories :=
    alter (fun l => to_dict entry :: l) username histories in
  let histories :=
    alter (take MAX_HISTORY) username histories in
  histories.

Definition append_history (username : string) (entry : CalculationEntry)
    (d : disk) : outcome (bool * disk) :=
  histories ← load_json_file d;
  Returns (save_json_file (appended username entry histories) d).

(** [lo / scale < f < hi / scale], decided exactly. *)
Definition float_within (f : spec_float) (lo hi scale : Z) : bool :=
  match f with
  | S754_zero _ => (lo <? 0)%Z && (0 <? hi)%Z
  | S754_finite s m e =>
      let v := if s then Z.neg m else Z.pos m in
      if (0 <=? e)%Z
      then (lo <? v * 2 ^ e * scale)%Z && (v * 2 ^ e * scale <? hi)%Z
      else (lo * 2 ^ (- e) <? v * scale)%Z && (v * scale <? hi * 2 ^ (- e))%Z
  | _ => false
  end.

(** The allowlist as the specification words it: the public names of the
    math module and five built-in functions. *)
Definition stated_allowlist (math_dir : list string) (x : string) : Prop :=
  (x ∈ math_dir /\ startswith_underscore x = false)
  \/ x ∈ ["abs"; "round"; "pow"; "min"; "max"].

(** An outcome that is not a [NameError]. *)
Definition no_name_error {A : Type} (o : outcome A) : Prop :=
  forall msg, o <> Raises (NameError msg).
(** ** Accounts: validation, password hashing and the users file *)

(** [[a-zA-Z0-9_]]. *)
Definition is_word (c : ascii) : bool :=
  is_lower c || is_upper c || is_digit c || (code c =? 95)%N.

(** Where [$] matches: at the end of the string, and just before a line
    feed that ends the string. *)
Definition at_dollar (s : str) : bool :=
  match s with
  | [] => true
  | [c] => (code c =? 10)%N
  | _ => false
  end.

(** [re.match(r'^[a-zA-Z0-9_]+$', s)]: the greedy run gives characters
    back until what is left satisfies [$]. *)
Definition re_username (s : str) : mres :=
  rmatch (Plus is_word) s []
    (fun s' cs' => if at_dollar s' then Some (s', cs') else None).

Definition validate_username (username : str) : bool * string :=
  if Nat.ltb (length username) 3
  then (false, "Username must be at least 3 characters")
  else if Nat.ltb 20 (length username)
  then (false, "Username must be at most 20 characters")
  else
    match re_username username with
    | None =>
        (false, "Username can only contain letters, numbers, and underscores")
    | Some _ => (true, "")
    end.

Definition validate_password (password : str) : bool * string :=
  if Nat.ltb (length password) 6
  then (false, "Password must be at least 6 characters")
  else (true, "").

(** [str.encode("utf-8")] on code points below 256. *)
Definition utf8_encode (s : str) : list N :=
  flat_map (fun c =>
              let n := code c in
              if (n <? 128)%N then [n]
              else [(192 + n / 64)%N; (128 + n mod 64)%N]) s.

(** SHA-256 (FIPS 180-4) on a list of bytes, as [hashlib.sha256] computes
    it, with the digest in lowercase hexadecimal. *)
Module SHA256.

Local Open Scope N_scope.

Definition word (x : N) : N := x mod 4294967296.
Definition add (x y : N) : N := word (x + y).
Definition rotr (n x : N) : N :=
  N.lor (N.shiftr x n) (word (N.shiftl x (32 - n))).
Definition shr (n x : N) : N := N.shiftr x n.
Definition lnot32 (x : N) : N := N.lxor x 4294967295.

Definition ch (x y z : N) : N := N.lxor (N.land x y) (N.land (lnot32 x) z).
Definition maj (x y z : N) : N :=
  N.lxor (N.lxor (N.land x y) (N.land x z)) (N.land y z).
Definition bsig0 (x : N) : N :=
  N.lxor (N.lxor (rotr 2 x) (rotr 13 x)) (rotr 22 x).
Definition bsig1 (x : N) : N :=
  N.lxor (N.lxor (rotr 6 x) (rotr 11 x)) (rotr 25 x).
Definition ssig0 (x : N) : N :=
  N.lxor (N.lxor (rotr 7 x) (rotr 18 x)) (shr 3 x).
Definition ssig1 (x : N) : N :=
  N.lxor (N.lxor (rotr 17 x) (rotr 19 x)) (shr 10 x).

(** The first 64 primes, by trial division. *)
Fixpoint sieve (fuel : nat) (k : N) (found : list N) : list N :=
  match fuel with
  | O => rev found
  | S fuel' =>
      sieve fuel' (k + 1)
        (if forallb (fun p => negb (k mod p =? 0)) found
         then k :: found else found)
  end.

Definition primes : list N := take 64 (sieve 310 2 []).

(** The integer cube root, one bit at a time from bit [n - 1] down. *)
Fixpoint cbrt_bits (n : nat) (x r : N) : N :=
  match n with
  | O => r
  | S n' =>
      let c := r + 2 ^ N.of_nat n' in
      cbrt_bits n' x (if c * c * c <=? x then c else r)
  end.

(** The round constants: the first 32 bits of the fractional parts of the
    cube roots of the first 64 primes.  The initial hash value: the same of
    the square roots of the first 8 primes. *)
Definition K : list N :=
  map (fun p => word (cbrt_bits 36 (p * 2 ^ 96) 0)) primes.

Definition H0 : list N :=
  map (fun p => word (N.sqrt (p * 2 ^ 64))) (take 8 primes).

(** The [n] low bytes of [x], most significant first. *)
Fixpoint be_bytes (n : nat) (x : N) : list N :=
  match n with
  | O => []
  | S n' => be_bytes n' (x / 256) ++ [x mod 256]
  end.

(** Padding: one [1] bit, zeros, and the bit length on 64 bits, up to a
    multiple of 64 bytes. *)
Definition pad (bs : list N) : list N :=
  let len := length bs in
  let zeros := ((64 - (len + 9) mod 64) mod 64)%nat in
  bs ++ [128] ++ repeat 0 zeros ++ be_bytes 8 (8 * N.of_nat len).

Fixpoint words (bs : list N) : list N :=
  match bs with
  | a :: b :: c :: d :: t => (((a * 256 + b) * 256 + c) * 256 + d) :: words t
  | _ => []
  end.

(** The message schedule, newest word first. *)
Fixpoint extend (n : nat) (w : list N) : list N :=
  match n with
  | O => w
  | S n' =>
      extend n'
        (add (add (ssig1 (nth 1 w 0)) (nth 6 w 0))
             (add (ssig0 (nth 14 w 0)) (nth 15 w 0)) :: w)
  end.

Definition schedule (block : list N) : list N :=
  rev (extend 48 (rev (words block))).

Definition regs : Type := N * N * N * N * N * N * N * N.

Definition step (s : regs) (kw : N * N) : regs :=
  let '(a, b, c, d, e, f, g, h) := s in
  let t1 := add (add (add (add h (bsig1 e)) (ch e f g)) (fst kw)) (snd kw) in
  let t2 := add (bsig0 a) (maj a b c) in
  (add t1 t2, a, b, c, add d t1, e, f, g).

Definition compress (hs : regs) (block : list N) : regs :=
  let '(a, b, c, d, e, f, g, h) := hs in
  let '(a', b', c', d', e', f', g', h') :=
    fold_left step (combine K (schedule block)) hs in
  (add a a', add b b', add c c', add d d', add e e', add f f', add g g',
   add h h').

Fixpoint blocks (n : nat) (bs : list N) : list (list N) :=
  match n with
  | O => []
  | S n' => take 64 bs :: blocks n' (drop 64 bs)
  end.

Definition initial : regs :=
  match H0 with
  | [a; b; c; d; e; f; g; h] => (a, b, c, d, e, f, g, h)
  | _ => (0, 0, 0, 0, 0, 0, 0, 0)
  end.

Definition digest (bs : list N) : regs :=
  let p := pad bs in
  fold_left compress (blocks (length p / 64) p) initial.

Definition hex_digit (d : N) : ascii :=
  ascii_of_N (if d <? 10 then 48 + d else 87 + d).

Fixpoint hex (n : nat) (x : N) : str :=
  match n with
  | O => []
  | S n' => hex n' (x / 16) ++ [hex_digit (x mod 16)]
  end.

Definition hexdigest (bs : list N) : string :=
  let '(a, b, c, d, e, f, g, h) := digest bs in
  string_of_list_ascii (flat_map (hex 8) [a; b; c; d; e; f; g; h]).

End SHA256.

Definition hash_password (password : str) : string :=
  SHA256.hexdigest (utf8_encode password).

Module User.

Record t : Type := {
  username : string;
  password_hash : string;
  created_at : string
}.

Definition to_dict (self : t) : gmap string string :=
  <["created_at" := created_at self]>
  (<["password" := password_hash self]> ∅).

End User.

(** [users.json] holds a dictionary from user names to account
    dictionaries.  Its states are those of the history file: absent,
    unreadable (an [IOError] or text that is not JSON, both caught),
    undecodable (bytes that are not UTF-8: [UnicodeDecodeError], not
    caught), or holding such a dictionary; opening it for writing succeeds
    or raises [IOError]. *)
Module Users.

Abbreviation users_t := (gmap string (gmap string string)).

Inductive file : Type :=
| Absent
| Unreadable
| Undecodable (msg : string)
| Json (data : users_t).

Record disk : Type := {
  users_file : file;
  writable : bool
}.

Definition load_json_file (d : disk) : outcome users_t :=
  match users_file d with
  | Json data => Returns data
  | Absent | Unreadable => Returns ∅
  | Undecodable msg => Raises (UnicodeDecodeError msg)
  end.

Definition save_json_file (data : users_t) (d : disk) : bool * disk :=
  if writable d
  then (true, {| users_file := Json data; writable := writable d |})
  else (false, d).

End Users.

(** [now] is the text [datetime.utcnow().isoformat()] returns at the
    call. *)
Definition create_user (now : string) (username password : str)
    (d : Users.disk) : outcome ((bool * string) * Users.disk) :=
  let username := strip username in
  let '(valid, msg) := validate_username username in
  if negb valid then Returns ((false, msg), d)
  else
    let '(valid, msg) := validate_password password in
    if negb valid then Returns ((false, msg), d)
    else
      users ← Users.load_json_file d;
      let key := string_of_list_ascii username in
      match users !! key with
      | Some _ => Returns ((false, "Username already exists"), d)
      | None =>
          let user := {| User.username := key;
                         User.password_hash := hash_password password;
                         User.created_at := now |} in
          let users := <[key := User.to_dict user]> users in
          let '(saved, d') := Users.save_json_file users d in
          if saved
          then Returns ((true,
                         "Account created successfully! You can now log in."),
                        d')
          else Returns ((false, "Error creating account"), d')
      end.

Definition authenticate_user (username password : str) (d : Users.disk)
    : outcome bool :=
  let username := strip username in
  users ← Users.load_json_file d;
  match users !! string_of_list_ascii username with
  | Some account =>
      let stored_hash := account !! "password" in
      Returns (bool_decide (stored_hash = Some (hash_password password)))
  | None => Returns false
  end.

(** ** Clearing a history *)

Definition clear_history (username : string) (d : disk)
    : outcome (bool * disk) :=
  histories ← load_json_file d;
  match histories !! username with
  | Some _ => Returns (save_json_file (delete username histories) d)
  | None => Returns (true, d)
  end.

(** ** The session state and the button callbacks

    [st.session_state] is a dictionary read and written through
    attributes.  Its values are [None], numbers and booleans, strings, and
    the history list.  The callbacks run after [init_session_state] has set
    every key; reading a key that is absent is left [Unmodelled]. *)

Inductive session_value : Type :=
| SVal (v : value)
| SStr (s : str)
| SList (l : list (gmap string string)).

Abbreviation session := (gmap string session_value).

Definition defaults : list (string * session_value) :=
  [("user", SVal VNone); ("expr", SStr []); ("last_result", SVal VNone);
   ("history", SList []); ("memory", SVal (VInt 0));
   ("show_advanced", SVal (VBool false))].

Definition init_session_state (st : session) : session :=
  foldl (fun st kv =>
           match st !! kv.1 with
           | None => <[kv.1 := kv.2]> st
           | Some _ => st
           end) st defaults.

Definition attr (st : session) (key : string) : outcome session_value :=
  match st !! key with
  | Some v => Returns v
  | None => Unmodelled
  end.

Definition session_type_name (v : session_value) : string :=
  match v with
  | SVal v => type_name v
  | SStr _ => "str"
  | SList _ => "list"
  end.

(** [a op= b] for [op] one of [+], [-] with a number on the left: the
    arithmetic of the evaluator on two numbers, [TypeError] when the right
    operand is not one.  (A string or a list on the left is not
    described.) *)
Definition augmented (o : binop) (a b : session_value)
    : outcome session_value :=
  match a with
  | SVal x =>
      match to_num x with
      | Some _ =>
          match b with
          | SVal y =>
              match to_num y with
              | Some _ => v ← binary o x y; Returns (SVal v)
              | None =>
                  Raises (TypeError ("unsupported operand type(s) for "
                                     +:+ binop_symbol o +:+ "=: '"
                                     +:+ type_name x +:+ "' and '"
                                     +:+ type_name y +:+ "'"))
              end
          | _ =>
              Raises (TypeError ("unsupported operand type(s) for "
                                 +:+ binop_symbol o +:+ "=: '"
                                 +:+ type_name x +:+ "' and '"
                                 +:+ session_type_name b +:+ "'"))
          end
      | None => Unmodelled
      end
  | _ => Unmodelled
  end.

Definition append_to_expr (value : str) (st : session) : outcome session :=
  e ← attr st "expr";
  match e with
  | SStr e => Returns (<["expr" := SStr (e ++ value)]> st)
  | _ => Unmodelled
  end.

Definition clear_expr (st : session) : session :=
  <["last_result" := SVal VNone]> (<["expr" := SStr []]> st).

(** [expr[:-1]]. *)
Definition backspace (st : session) : outcome session :=
  e ← attr st "expr";
  match e with
  | SStr e => Returns (<["expr" := SStr (take (length e - 1) e)]> st)
  | _ => Unmodelled
  end.


Definition is_none (v : session_value) : bool :=
  match v with
  | SVal VNone => true
  | _ => false
  end.

Definition memory_add (st : session) : outcome session :=
  r ← attr st "last_result";
  if is_none r then Returns st
  else
    m ← attr st "memory";
    m' ← augmented Add m r;
    Returns (<["memory" := m']> st).

Definition memory_subtract (st : session) : outcome session :=
  r ← attr st "last_result";
  if is_none r then Returns st
  else
    m ← attr st "memory";
    m' ← augmented Sub m r;
    Returns (<["memory" := m']> st).

(** The assignments of the logout button: [user] to [None], [history] to
    the empty list, [memory] to [0], the other keys to the empty string. *)
Definition logout_reset (st : session) : session :=
  foldl (fun st key =>
           <[key := if String.eqb key "user" then SVal VNone
                    else if String.eqb key "history" then SList []
                    else if String.eqb key "memory" then SVal (VInt 0)
                    else SStr []]> st)
        st ["user"; "expr"; "last_result"; "history"; "memory"].

(** [str(n)] for an integer: its decimal digits, with a sign when
    negative. *)
Definition str_int (n : Z) : str := lit (pretty n).

Section Calculator.

Variable math_dir : list string.
Variable math_ext : string -> list value -> outcome value.

(** [repr] of a float (the shortest text that reads back as the same
    binary64 number): library code, not described here. *)
Variable float_repr : spec_float -> str.

(** [str(v)]; an integer of more than [int_max_str_digits] digits is left
    out. *)
Definition py_str (v : value) : outcome str :=
  match v with
  | VInt n =>
      if Nat.ltb int_max_str_digits (length (str_int (Z.abs n)))
      then Unmodelled
      else Returns (str_int n)
  | VFloat f => Returns (float_repr f)
  | VBool true => Returns (lit "True")
  | VBool false => Returns (lit "False")
  | VNone => Returns (lit "None")
  | VBuiltin _ | VMath _ | VModule _ => Unmodelled
  end.


(** The body of the Calculate button.  [now] is the time stamp taken for
    the history entry.  When [append_history] or [load_history] raises, the
    run ends with that exception; the session it leaves behind ([last_result]
    is set by then) is not described. *)
Definition calculate (now : string) (st : session) (d : disk)
    : outcome (session * disk) :=
  e ← attr st "expr";
  match e with
  | SStr e =>
      if bool_decide (strip e = []) then Returns (st, d)
      else
        r ← safe_eval math_dir math_ext e;
        match r.2 with
        | Some (String _ _) => Returns (st, d)
        | _ =>
            let result := default VNone r.1 in
            let st := <["last_result" := SVal result]> st in
            text ← py_str result;
            u ← attr st "user";
            match u with
            | SStr u =>
                let user := string_of_list_ascii u in
                let entry := {| expr_ := string_of_list_ascii e;
                                result_ := string_of_list_ascii text;
                                timestamp := now |} in
                '(_, d') ← append_history user entry d;
                history ← load_history user d';
                let st := <["history" := SList history]> st in
                Returns (<["expr" := SStr text]> st, d')
            | _ => Unmodelled
            end
        end
  | _ => Unmodelled
  end.

End Calculator.


(** * Properties *)

Local Open Scope char_scope.

(** ** Character classes *)

Ltac by_cases_on c :=
  destruct c as [[] [] [] [] [] [] [] []]; try reflexivity; try discriminate.

Lemma digit_not_space c : is_digit c = true -> is_space c = false.
Proof. by_cases_on c. Qed.

Lemma digit_not_lower c : is_digit c = true -> is_lower c = false.
Proof. by_cases_on c. Qed.

Lemma space_not_digit c : is_space c = true -> is_digit c = false.
Proof. by_cases_on c. Qed.

Lemma digit_not_char c x :
  is_digit c = true -> is_digit x = false -> Ascii.eqb c x = false.
Proof.
  intros Hc Hx. destruct (Ascii.eqb_spec c x) as [->|]; [congruence | reflexivity].
Qed.

Lemma space_not_char c x :
  is_space c = true -> is_space x = false -> Ascii.eqb c x = false.
Proof.
  intros Hc Hx. destruct (Ascii.eqb_spec c x) as [->|]; [congruence | reflexivity].
Qed.

(** ** Runs of a character class *)

Lemma run_after p s : run p s ++ after p s = s.
Proof.
  induction s as [|c t IH]; simpl; [reflexivity|].
  destruct (p c); simpl; [now rewrite IH | reflexivity].
Qed.

Lemma run_all p s : forallb p (run p s) = true.
Proof.
  induction s as [|c t IH]; simpl; [reflexivity|].
  destruct (p c) eqn:E; simpl; [now rewrite E | reflexivity].
Qed.

Lemma after_stops p s : starts_with p (after p s) = false.
Proof.
  induction s as [|c t IH]; simpl; [reflexivity|].
  destruct (p c) eqn:E; simpl; [exact IH | exact E].
Qed.

Lemma run_app p u v :
  forallb p u = true -> starts_with p v = false -> run p (u ++ v) = u.
Proof.
  intros Hu Hv. induction u as [|c u IH]; simpl in *.
  - destruct v as [|x v]; simpl in *; [reflexivity | now rewrite Hv].
  - apply andb_prop in Hu as [Hc Hu]. rewrite Hc. now rewrite IH.
Qed.

Lemma after_app p u v :
  forallb p u = true -> starts_with p v = false -> after p (u ++ v) = v.
Proof.
  intros Hu Hv. induction u as [|c u IH]; simpl in *.
  - destruct v as [|x v]; simpl in *; [reflexivity | now rewrite Hv].
  - apply andb_prop in Hu as [Hc Hu]. rewrite Hc. now apply IH.
Qed.

Lemma lstrip_after s : lstrip s = after is_space s.
Proof. induction s as [|c t IH]; simpl; [reflexivity | now rewrite IH]. Qed.

(** Two splittings of one string at the first character outside a class
    coincide. *)
Lemma split_at_first_outside (p : ascii -> bool) u1 a1 v1 u2 a2 v2 :
  forallb p u1 = true -> p a1 = false ->
  forallb p u2 = true -> p a2 = false ->
  u1 ++ a1 :: v1 = u2 ++ a2 :: v2 ->
  u1 = u2 /\ a1 = a2 /\ v1 = v2.
Proof.
  revert u2. induction u1 as [|c u1 IH]; intros [|d u2] H1 Ha1 H2 Ha2 E;
    simpl in *.
  - now inversion E.
  - inversion E; subst. apply andb_prop in H2 as [H2 _]. congruence.
  - inversion E; subst. apply andb_prop in H1 as [H1 _]. congruence.
  - inversion E; subst.
    apply andb_prop in H1 as [_ H1]. apply andb_prop in H2 as [_ H2].
    destruct (IH u2 H1 Ha1 H2 Ha2 H3) as (-> & -> & ->). auto.
Qed.

(** ** The matcher on the five patterns *)

(** A greedy repetition hands the whole run to its continuation when the
    continuation cannot start inside the run. *)
Lemma star_k_greedy p s k :
  (forall x t, p x = true -> k (x :: t) = None) ->
  star_k p s k = k (after p s).
Proof.
  intros Hk. induction s as [|c t IH]; simpl; [reflexivity|].
  destruct (p c) eqn:E; [|reflexivity].
  rewrite IH. destruct (k (after p t)) eqn:K; [reflexivity|].
  now apply Hk.
Qed.

Lemma take_run_length (p : ascii -> bool) (s : str) :
  take (length s - length (after p s)) s = run p s.
Proof.
  rewrite <- (run_after p s) at 1 3.
  rewrite length_app, Nat.add_sub. apply take_app_length.
Qed.

Lemma rmatch_spaces_percent s cs k :
  rmatch (Seq (Star is_space) (Chr "%")) s cs k
  = match after is_space s with
    | x :: rest => if Ascii.eqb x "%" then k rest cs else None
    | [] => None
    end.
Proof.
  simpl. rewrite star_k_greedy; [reflexivity|].
  intros x t Hx. rewrite (space_not_char x "%" Hx); reflexivity.
Qed.

(** The literal part [\d+(?:\.\d+)?] under a continuation that cannot
    start at a digit or at a point. *)
Lemma rmatch_literal c t cs (k : str -> captures -> mres) :
  (forall x u cs', is_digit x = true -> k (x :: u) cs' = None) ->
  (forall u cs', k ("." :: u) cs' = None) ->
  rmatch (Seq (Plus is_digit) (Opt (Seq (Chr ".") (Plus is_digit))))
         (c :: t) cs k
  = if is_digit c then
      match after is_digit t with
      | x :: d :: t2 =>
          if Ascii.eqb x "." && is_digit d then k (after is_digit t2) cs
          else k (after is_digit t) cs
      | _ => k (after is_digit t) cs
      end
    else None.
Proof.
  intros Hd Hp. simpl. destruct (is_digit c) eqn:Hc; [|reflexivity].
  rewrite star_k_greedy.
  - destruct (after is_digit t) as [|x r] eqn:E; [reflexivity|].
    destruct (Ascii.eqb_spec x ".") as [->|Hx]; simpl.
    + destruct r as [|d t2]; [now rewrite Hp|].
      destruct (is_digit d) eqn:Hdd; [|now rewrite Hp].
      rewrite star_k_greedy by (intros; now apply Hd).
      destruct (k (after is_digit t2) cs); [reflexivity | now rewrite Hp].
    + now destruct r.
  - intros x u Hx. rewrite (digit_not_char x "." Hx eq_refl).
    now apply Hd.
Qed.

Lemma match_here_percent s :
  match_here re_percent s
  = match pct_at s with
    | Some (l, rest) => Some (rest, [(1, l)])
    | None => None
    end.
Proof.
  destruct s as [|c t]; [reflexivity|].
  unfold match_here, re_percent.
  change (rmatch (Seq ?a ?b) ?s ?cs ?k)
    with (rmatch a s cs (fun s1 cs1 => rmatch b s1 cs1 k)).
  change (rmatch (Group ?n ?r) ?s ?cs ?k)
    with (rmatch r s cs
            (fun s' cs' => k s' ((n, take (length s - length s') s) :: cs'))).
  rewrite rmatch_literal.
  - unfold pct_at. destruct (is_digit c); [|reflexivity].
    destruct (after is_digit t) as [|x [|d t2]];
      try destruct (Ascii.eqb x "." && is_digit d);
      rewrite rmatch_spaces_percent;
      match goal with |- context [after is_space ?r] =>
        destruct (after is_space r) as [|y rest]; [reflexivity|];
        destruct (Ascii.eqb y "%"); reflexivity
      end.
  - intros x u cs' Hx. rewrite rmatch_spaces_percent. simpl.
    rewrite (digit_not_space x Hx). now rewrite (digit_not_char x "%" Hx eq_refl).
  - intros u cs'. rewrite rmatch_spaces_percent. reflexivity.
Qed.

(** ** The shape of a percent match *)

Lemma after_nil_all p s : after p s = [] -> forallb p s = true.
Proof.
  intros H. rewrite <- (run_after p s), H, app_nil_r. apply run_all.
Qed.

Lemma after_all p s : forallb p s = true -> after p s = [].
Proof.
  intros H. rewrite <- (app_nil_r s). now apply after_app.
Qed.

Lemma after_run p s : after p (run p s) = [].
Proof. apply after_all, run_all. Qed.

Lemma take_prefix (u v : str) : take (length (u ++ v) - length v) (u ++ v) = u.
Proof. rewrite length_app, Nat.add_sub. apply take_app_length. Qed.

Lemma spaces_percent_no_digit ws rest :
  forallb is_space ws = true ->
  starts_with is_digit (ws ++ "%" :: rest) = false.
Proof.
  destruct ws as [|w ws]; simpl; [reflexivity|].
  intros H. apply andb_prop in H as [H _]. now apply space_not_digit.
Qed.

Lemma spaces_percent_no_point ws rest x u :
  forallb is_space ws = true ->
  ws ++ "%" :: rest = x :: u -> Ascii.eqb x "." = false.
Proof.
  destruct ws as [|w ws]; simpl; intros H E; inversion E; subst.
  - reflexivity.
  - apply andb_prop in H as [H _]. now apply (space_not_char x ".").
Qed.

Lemma after_spaces_percent ws rest :
  forallb is_space ws = true ->
  after is_space (ws ++ "%" :: rest) = "%" :: rest.
Proof. intros H. now apply after_app. Qed.

Lemma decimal_literal_shape l :
  decimal_literal l = true ->
  exists ip, ip <> [] /\ forallb is_digit ip = true /\
    (l = ip \/
     exists fp, fp <> [] /\ forallb is_digit fp = true /\ l = ip ++ "." :: fp).
Proof.
  destruct l as [|c t]; simpl; [discriminate|].
  intros H. apply andb_prop in H as [Hc H].
  pose proof (run_after is_digit t) as Ht.
  pose proof (run_all is_digit t) as Hr.
  exists (c :: run is_digit t). split; [discriminate|]. split.
  { simpl. now rewrite Hc. }
  destruct (after is_digit t) as [|x [|d t2]] eqn:E; try discriminate.
  - left. rewrite app_nil_r in Ht. now rewrite Ht.
  - right. apply andb_prop in H as [H H2]. apply andb_prop in H as [Hx Hd].
    apply Ascii.eqb_eq in Hx. subst x.
    destruct (after is_digit t2) eqn:E2; [|discriminate].
    exists (d :: t2). split; [discriminate|]. split.
    { simpl. rewrite Hd. now apply after_nil_all. }
    simpl. now rewrite Ht.
Qed.

Lemma decimal_literal_int ip :
  ip <> [] -> forallb is_digit ip = true -> decimal_literal ip = true.
Proof.
  destruct ip as [|c t]; [congruence|]. simpl. intros _ H.
  apply andb_prop in H as [Hc Ht]. rewrite Hc, (after_all _ _ Ht). reflexivity.
Qed.

Lemma decimal_literal_point ip fp :
  ip <> [] -> forallb is_digit ip = true ->
  fp <> [] -> forallb is_digit fp = true ->
  decimal_literal (ip ++ "." :: fp) = true.
Proof.
  destruct ip as [|c t]; [congruence|]. destruct fp as [|d u]; [congruence|].
  simpl. intros _ H _ H2.
  apply andb_prop in H as [Hc Ht]. apply andb_prop in H2 as [Hd Hu].
  rewrite Hc, (after_app is_digit t ("." :: d :: u) Ht eq_refl).
  simpl. rewrite Hd, (after_all _ _ Hu). reflexivity.
Qed.

Lemma pct_at_split s l rest :
  pct_at s = Some (l, rest) ->
  exists ws, decimal_literal l = true /\ forallb is_space ws = true
             /\ s = l ++ ws ++ "%" :: rest.
Proof.
  destruct s as [|c t]; [discriminate|]. unfold pct_at.
  destruct (is_digit c) eqn:Hc; [|discriminate].
  pose proof (run_after is_digit t) as Ht.
  pose proof (run_all is_digit t) as Hr.
  set (r1 := after is_digit t) in *.
  set (r2 := match r1 with
             | x :: d :: t2 =>
                 if Ascii.eqb x "." && is_digit d then after is_digit t2 else r1
             | _ => r1
             end).
  assert (L : exists l0, decimal_literal l0 = true /\ c :: t = l0 ++ r2).
  { subst r2. destruct r1 as [|x [|d t2]] eqn:E.
    - exists (c :: run is_digit t). split; [|simpl; now rewrite Ht].
      apply decimal_literal_int; [discriminate | simpl; now rewrite Hc].
    - exists (c :: run is_digit t). split; [|simpl; now rewrite Ht].
      apply decimal_literal_int; [discriminate | simpl; now rewrite Hc].
    - destruct (Ascii.eqb x "." && is_digit d) eqn:B.
      + apply andb_prop in B as [Hx Hd]. apply Ascii.eqb_eq in Hx. subst x.
        exists ((c :: run is_digit t) ++ "." :: d :: run is_digit t2). split.
        * apply decimal_literal_point; try discriminate.
          -- simpl. now rewrite Hc.
          -- simpl. rewrite Hd. apply run_all.
        * rewrite <- app_assoc. simpl. rewrite run_after. now rewrite Ht.
      + exists (c :: run is_digit t). split; [|simpl; now rewrite Ht].
        apply decimal_literal_int; [discriminate | simpl; now rewrite Hc]. }
  destruct L as (l0 & Hl0 & E0).
  assert (T : take (length (c :: t) - length r2) (c :: t) = l0)
    by (rewrite E0; apply take_prefix).
  destruct (after is_space r2) as [|x rest0] eqn:A; [discriminate|].
  destruct (Ascii.eqb_spec x "%") as [->|]; [|discriminate].
  intros H. injection H as H1 H2. subst rest0.
  change (S (length t)) with (length (c :: t)) in H1.
  rewrite T in H1. clear T. subst l0.
  exists (run is_space r2). split; [assumption|]. split; [apply run_all|].
  rewrite E0. f_equal. rewrite <- A. now rewrite run_after.
Qed.

Lemma pct_at_complete l ws rest :
  decimal_literal l = true -> forallb is_space ws = true ->
  pct_at (l ++ ws ++ "%" :: rest) = Some (l, rest).
Proof.
  intros Hl Hws.
  destruct (decimal_literal_shape l Hl) as (ip & Hne & Hip & Hshape).
  destruct ip as [|c t]; [congruence|]. simpl in Hip.
  apply andb_prop in Hip as [Hc Ht].
  pose proof (spaces_percent_no_digit ws rest Hws) as Hnd.
  destruct Hshape as [->|(fp & Hfne & Hfp & ->)].
  - simpl. rewrite Hc.
    rewrite (after_app is_digit t _ Ht Hnd).
    assert (R : match ws ++ "%" :: rest with
                | x :: d :: t2 =>
                    if Ascii.eqb x "." && is_digit d
                    then after is_digit t2 else ws ++ "%" :: rest
                | _ => ws ++ "%" :: rest
                end = ws ++ "%" :: rest).
    { destruct (ws ++ "%" :: rest) as [|x [|d t2]] eqn:E; try reflexivity.
      now rewrite (spaces_percent_no_point ws rest x _ Hws E). }
    rewrite R, (after_spaces_percent ws rest Hws). simpl.
    f_equal. f_equal.
    exact (take_prefix (c :: t) (ws ++ "%" :: rest)).
  - destruct fp as [|d u]; [congruence|]. simpl in Hfp.
    apply andb_prop in Hfp as [Hd Hu].
    rewrite <- app_assoc. simpl. rewrite Hc.
    rewrite (after_app is_digit t ("." :: d :: u ++ ws ++ "%" :: rest) Ht eq_refl).
    simpl. rewrite Hd.
    rewrite (after_app is_digit u _ Hu Hnd).
    rewrite (after_spaces_percent ws rest Hws). simpl.
    f_equal. f_equal.
    pose proof (take_prefix (c :: t ++ "." :: d :: u) (ws ++ "%" :: rest)) as T.
    simpl in T. rewrite <- app_assoc in T. exact T.
Qed.

(** ** One pass of [re.sub] *)

Lemma sub_from_skip r tpl p s :
  sub_from r tpl (length p) (p ++ s) = sub_from r tpl 0 s.
Proof. induction p as [|c p IH]; simpl; [reflexivity | exact IH]. Qed.

Lemma re_sub_nil r tpl : re_sub r tpl [] = [].
Proof. reflexivity. Qed.

Lemma re_sub_none r tpl c t :
  match_here r (c :: t) = None -> re_sub r tpl (c :: t) = c :: re_sub r tpl t.
Proof. intros H. unfold re_sub. simpl. now rewrite H. Qed.

Lemma re_sub_some r tpl c m rest cs :
  match_here r (c :: m ++ rest) = Some (rest, cs) ->
  re_sub r tpl (c :: m ++ rest) = expand tpl cs ++ re_sub r tpl rest.
Proof.
  intros H.
  assert (E : length (c :: m ++ rest) - length rest - 1 = length m)
    by (simpl; rewrite length_app; lia).
  unfold re_sub.
  change (sub_from r tpl 0 (c :: m ++ rest))
    with (match match_here r (c :: m ++ rest) with
          | Some (rest0, cs0) =>
              expand tpl cs0
              ++ sub_from r tpl (length (c :: m ++ rest) - length rest0 - 1)
                   (m ++ rest)
          | None => c :: sub_from r tpl 0 (m ++ rest)
          end).
  rewrite H, E. f_equal. apply sub_from_skip.
Qed.

Lemma sub_percent_none c t :
  pct_at (c :: t) = None -> sub_percent (c :: t) = c :: sub_percent t.
Proof.
  intros H. apply re_sub_none. now rewrite match_here_percent, H.
Qed.

Lemma sub_percent_some s l rest :
  pct_at s = Some (l, rest) ->
  sub_percent s = lit "(" ++ l ++ lit "/100)" ++ sub_percent rest.
Proof.
  intros H. destruct (pct_at_split _ _ _ H) as (ws & Hl & Hws & ->).
  destruct l as [|c l]; [discriminate|].
  unfold sub_percent.
  replace ((c :: l) ++ ws ++ "%" :: rest)
    with (c :: (l ++ ws ++ ["%"]) ++ rest) in *
    by (simpl; now rewrite <- !app_assoc).
  rewrite (re_sub_some _ _ _ _ _ [(1, c :: l)]).
  - simpl. now rewrite <- app_assoc.
  - now rewrite match_here_percent, H.
Qed.

(** The four two-character patterns. *)

Lemma succ_sub n : S n - n = 1.
Proof. lia. Qed.

Lemma match_here_digit_letter s :
  match_here re_digit_letter s
  = match pair_at is_digit is_lower s with
    | Some (a, b, t) => Some (t, [(2, [b]); (1, [a])])
    | None => None
    end.
Proof.
  destruct s as [|a [|b t]]; unfold match_here; simpl.
  - reflexivity.
  - now destruct (is_digit a).
  - destruct (is_digit a); [|reflexivity].
    destruct (is_lower b); [|reflexivity]. simpl.
    now rewrite !succ_sub.
Qed.

Lemma match_here_digit_paren s :
  match_here re_digit_paren s
  = match pair_at is_digit is_lpar s with
    | Some (a, b, t) => Some (t, [(1, [a])])
    | None => None
    end.
Proof.
  destruct s as [|a [|b t]]; unfold match_here, is_lpar; simpl.
  - reflexivity.
  - now destruct (is_digit a).
  - destruct (is_digit a); [|reflexivity].
    destruct (Ascii.eqb b "("); [|reflexivity]. simpl.
    now rewrite !succ_sub.
Qed.

Lemma match_here_paren_digit s :
  match_here re_paren_digit s
  = match pair_at is_rpar is_digit s with
    | Some (a, b, t) => Some (t, [(1, [b])])
    | None => None
    end.
Proof.
  destruct s as [|a [|b t]]; unfold match_here, is_rpar; simpl.
  - reflexivity.
  - now destruct (Ascii.eqb a ")").
  - destruct (Ascii.eqb a ")"); [|reflexivity].
    destruct (is_digit b); [|reflexivity]. simpl.
    now rewrite !succ_sub.
Qed.

Lemma match_here_paren_paren s :
  match_here re_paren_paren s
  = match pair_at is_rpar is_lpar s with
    | Some (a, b, t) => Some (t, [])
    | None => None
    end.
Proof.
  destruct s as [|a [|b t]]; unfold match_here, is_rpar, is_lpar; simpl.
  - reflexivity.
  - now destruct (Ascii.eqb a ")").
  - destruct (Ascii.eqb a ")"); [|reflexivity].
    now destruct (Ascii.eqb b "(").
Qed.

Section PairPass.

Variables (r : regex) (tpl : list titem) (A B : ascii -> bool).
Variable caps : ascii -> ascii -> captures.

Hypothesis match_pair : forall s,
  match_here r s
  = match pair_at A B s with
    | Some (a, b, t) => Some (t, caps a b)
    | None => None
    end.

Hypothesis expand_pair : forall a b,
  A a = true -> B b = true -> expand tpl (caps a b) = [a; "*"; b].

Lemma re_sub_ins_mul_aux s :
  re_sub r tpl s = ins_mul A B false s
  /\ forall a, re_sub r tpl (a :: s) = ins_mul A B false (a :: s).
Proof.
  induction s as [|b t [IH1 IH2]].
  - split; [reflexivity|]. intros a. unfold re_sub. simpl.
    now rewrite match_pair.
  - split; [apply IH2|]. intros a.
    assert (P : pair_at A B (a :: b :: t)
                = if A a && B b then Some (a, b, t) else None) by reflexivity.
    change (ins_mul A B false (a :: b :: t))
      with (match pair_at A B (a :: b :: t) with
            | Some _ => a :: "*" :: ins_mul A B true (b :: t)
            | None => a :: ins_mul A B false (b :: t)
            end).
    destruct (A a && B b) eqn:AB; rewrite P.
    + apply andb_prop in AB as [HA HB].
      change (a :: b :: t) with (a :: [b] ++ t) at 1.
      rewrite (re_sub_some _ _ _ _ _ (caps a b)).
      * rewrite (expand_pair _ _ HA HB). simpl. now rewrite IH1.
      * simpl app. now rewrite match_pair, P.
    + rewrite re_sub_none by now rewrite match_pair, P.
      now rewrite IH2.
Qed.

Lemma re_sub_ins_mul s : re_sub r tpl s = ins_mul A B false s.
Proof. apply re_sub_ins_mul_aux. Qed.

Hypothesis disjoint : forall c, B c = true -> A c = false.

Lemma ins_mul_ins_star_aux s :
  ins_mul A B false s = ins_star A B s
  /\ forall a, ins_mul A B false (a :: s) = ins_star A B (a :: s).
Proof.
  induction s as [|b t [IH1 IH2]].
  - split; [reflexivity|]. intros a. simpl. now rewrite andb_false_r.
  - split; [apply IH2|]. intros a.
    specialize (IH2 b). simpl in *.
    destruct (A a && B b) eqn:AB.
    + apply andb_prop in AB as [_ HB].
      rewrite (disjoint _ HB). simpl. now rewrite IH1.
    + now rewrite IH2.
Qed.

Lemma re_sub_ins_star s : re_sub r tpl s = ins_star A B s.
Proof.
  rewrite re_sub_ins_mul. apply ins_mul_ins_star_aux.
Qed.

End PairPass.

Lemma sub_digit_letter s :
  re_sub re_digit_letter tpl_digit_letter s = ins_star is_digit is_lower s.
Proof.
  apply (re_sub_ins_star _ _ _ _ (fun a b => [(2, [b]); (1, [a])])).
  - intros s0. rewrite match_here_digit_letter.
    now destruct (pair_at is_digit is_lower s0) as [[[? ?] ?]|].
  - reflexivity.
  - intros c. by_cases_on c.
Qed.

Lemma sub_digit_paren s :
  re_sub re_digit_paren tpl_digit_paren s = ins_star is_digit is_lpar s.
Proof.
  apply (re_sub_ins_star _ _ _ _ (fun a b => [(1, [a])])).
  - intros s0. rewrite match_here_digit_paren.
    now destruct (pair_at is_digit is_lpar s0) as [[[? ?] ?]|].
  - intros a b _ Hb. apply Ascii.eqb_eq in Hb. now subst.
  - intros c. by_cases_on c.
Qed.

Lemma sub_paren_digit s :
  re_sub re_paren_digit tpl_paren_digit s = ins_star is_rpar is_digit s.
Proof.
  apply (re_sub_ins_star _ _ _ _ (fun a b => [(1, [b])])).
  - intros s0. rewrite match_here_paren_digit.
    now destruct (pair_at is_rpar is_digit s0) as [[[? ?] ?]|].
  - intros a b Ha _. apply Ascii.eqb_eq in Ha. now subst.
  - intros c. by_cases_on c.
Qed.

Lemma sub_paren_paren s :
  re_sub re_paren_paren tpl_paren_paren s = ins_star is_rpar is_lpar s.
Proof.
  apply (re_sub_ins_star _ _ _ _ (fun a b => [])).
  - intros s0. rewrite match_here_paren_paren.
    now destruct (pair_at is_rpar is_lpar s0) as [[[? ?] ?]|].
  - intros a b Ha Hb. apply Ascii.eqb_eq in Ha, Hb. now subst.
  - intros c. by_cases_on c.
Qed.

Lemma preprocess_expression_eq s :
  preprocess_expression s = mul_passes (sub_percent (strip s)).
Proof.
  unfold preprocess_expression, mul_passes, sub_percent.
  now rewrite sub_paren_paren, sub_paren_digit, sub_digit_paren,
    sub_digit_letter.
Qed.

Example preprocess_percent_example :
  preprocess_expression (lit "50%") = lit "(50/100)".
Proof. reflexivity. Qed.

Example preprocess_strip_example :
  preprocess_expression (lit " 2pi ") = lit "2*pi".
Proof. reflexivity. Qed.

Example preprocess_mixed_example :
  preprocess_expression (lit "1.2.3% 50 % 5%% 1.% 12a%(3)(4)5")
  = lit "1.(2.3/100) (50/100) (5/100)% 1.% 12*a%(3)*(4)*5".
Proof. reflexivity. Qed.

(** ** Induction along one percent pass *)

Arguments pct_at : simpl never.

Lemma sub_percent_ind (P : str -> str -> Prop) :
  P [] [] ->
  (forall c t, pct_at (c :: t) = None ->
     P t (sub_percent t) -> P (c :: t) (c :: sub_percent t)) ->
  (forall l ws rest,
     decimal_literal l = true -> forallb is_space ws = true ->
     P rest (sub_percent rest) ->
     P (l ++ ws ++ "%" :: rest)
       (lit "(" ++ l ++ lit "/100)" ++ sub_percent rest)) ->
  forall s, P s (sub_percent s).
Proof.
  intros Hnil Hnone Hsome s.
  remember (length s) as n eqn:Hn. revert s Hn.
  induction n as [n IH] using lt_wf_ind. intros s Hn.
  destruct s as [|c t]; [exact Hnil|].
  destruct (pct_at (c :: t)) as [[l rest]|] eqn:E.
  - rewrite (sub_percent_some _ _ _ E).
    destruct (pct_at_split _ _ _ E) as (ws & Hl & Hws & Es).
    rewrite Es. apply Hsome; try assumption.
    apply (IH (length rest)); [|reflexivity].
    subst n. rewrite Es, !length_app. simpl. lia.
  - rewrite (sub_percent_none _ _ E). apply Hnone; [assumption|].
    apply (IH (length t)); [|reflexivity]. subst n. simpl. lia.
Qed.

Lemma decimal_literal_chars l :
  decimal_literal l = true -> forallb literal_or_space l = true.
Proof.
  intros H. destruct (decimal_literal_shape l H) as (ip & _ & Hip & Hs).
  assert (D : forall u, forallb is_digit u = true ->
                        forallb literal_or_space u = true).
  { induction u as [|c u IHu]; simpl; [reflexivity|]. intros Hu.
    apply andb_prop in Hu as [Hc Hu]. unfold literal_or_space at 1.
    rewrite Hc. simpl. now apply IHu. }
  destruct Hs as [->|(fp & _ & Hfp & ->)]; [now apply D|].
  rewrite forallb_app. simpl. rewrite (D _ Hip), (D _ Hfp). reflexivity.
Qed.

Lemma spaces_chars ws :
  forallb is_space ws = true -> forallb literal_or_space ws = true.
Proof.
  induction ws as [|c u IHu]; simpl; [reflexivity|]. intros Hu.
  apply andb_prop in Hu as [Hc Hu]. unfold literal_or_space at 1.
  rewrite Hc, !orb_true_r. simpl. now apply IHu.
Qed.

Lemma forallb_weaken (p q : ascii -> bool) (u : str) :
  (forall c, p c = true -> q c = true) ->
  forallb p u = true -> forallb q u = true.
Proof.
  intros Hpq. induction u as [|c u IHu]; simpl; [reflexivity|].
  intros H. apply andb_prop in H as [Hc Hu]. now rewrite (Hpq _ Hc), IHu.
Qed.

Lemma literal_or_space_not_star c :
  literal_or_space c = true -> not_star c = true.
Proof. by_cases_on c. Qed.

Lemma literal_or_space_not_lpar c :
  literal_or_space c = true -> not_lpar c = true.
Proof. by_cases_on c. Qed.

Lemma literal_or_space_not_percent c :
  literal_or_space c = true -> Ascii.eqb c "%" = false.
Proof. by_cases_on c. Qed.

Lemma not_digit_outside c : literal_or_space c = false -> is_digit c = false.
Proof. by_cases_on c. Qed.

(** A match needs a [%] right after its literal and spaces. *)
Lemma pct_at_prefix s l rest :
  pct_at s = Some (l, rest) ->
  exists u, forallb literal_or_space u = true /\ s = u ++ "%" :: rest
            /\ exists ws, u = l ++ ws /\ decimal_literal l = true
                          /\ forallb is_space ws = true.
Proof.
  intros H. destruct (pct_at_split _ _ _ H) as (ws & Hl & Hws & ->).
  exists (l ++ ws). split; [|split].
  - rewrite forallb_app, (decimal_literal_chars _ Hl), (spaces_chars _ Hws).
    reflexivity.
  - now rewrite <- app_assoc.
  - now exists ws.
Qed.

(** No match starts in a block free of [%] that ends outside the class. *)
Lemma pct_at_guarded u x X :
  forallb not_percent (u ++ [x]) = true -> literal_or_space x = false ->
  pct_at ((u ++ [x]) ++ X) = None.
Proof.
  intros Hnp Hx.
  destruct (pct_at ((u ++ [x]) ++ X)) as [[l rest]|] eqn:E; [|reflexivity].
  exfalso.
  destruct (pct_at_prefix _ _ _ E) as (w & Hw & Es & _).
  pose proof (run_after literal_or_space (u ++ [x])) as R.
  destruct (after literal_or_space (u ++ [x])) as [|y r] eqn:A.
  - apply after_nil_all in A. rewrite forallb_app in A. simpl in A.
    rewrite Hx, andb_false_r in A. discriminate.
  - pose proof (after_stops literal_or_space (u ++ [x])) as S.
    rewrite A in S. simpl in S.
    rewrite <- R, <- app_assoc in Es. simpl in Es.
    destruct (split_at_first_outside literal_or_space _ y (r ++ X) w "%" rest
                (run_all _ _) S Hw eq_refl Es) as (_ & -> & _).
    rewrite <- R, forallb_app in Hnp. simpl in Hnp.
    rewrite andb_false_r in Hnp. discriminate.
Qed.

Lemma pli_cons c t :
  percent_literal_in (c :: t)
  = match pct_at (c :: t) with
    | Some _ => true
    | None => percent_literal_in t
    end.
Proof. reflexivity. Qed.

Lemma pct_at_not_digit c t : is_digit c = false -> pct_at (c :: t) = None.
Proof. intros H. unfold pct_at. now rewrite H. Qed.

Lemma pli_guarded u x X :
  forallb not_percent (u ++ [x]) = true -> literal_or_space x = false ->
  percent_literal_in X = false ->
  percent_literal_in ((u ++ [x]) ++ X) = false.
Proof.
  intros Hnp Hx HX. induction u as [|a u IH].
  - change (([] ++ [x]) ++ X) with (x :: X).
    rewrite pli_cons, (pct_at_not_digit _ _ (not_digit_outside _ Hx)).
    exact HX.
  - change (percent_literal_in (((a :: u) ++ [x]) ++ X))
      with (match pct_at (((a :: u) ++ [x]) ++ X) with
            | Some _ => true
            | None => percent_literal_in ((u ++ [x]) ++ X)
            end).
    rewrite (pct_at_guarded _ _ _ Hnp Hx). apply IH.
    simpl in Hnp. now apply andb_prop in Hnp as [_ Hnp].
Qed.

Lemma sub_percent_fixed s :
  percent_literal_in s = false -> sub_percent s = s.
Proof.
  induction s as [|c t IH]; [reflexivity|]. rewrite pli_cons.
  destruct (pct_at (c :: t)) eqn:E; [discriminate|]. intros H.
  now rewrite (sub_percent_none _ _ E), IH.
Qed.

(** Text that one pass leaves free of [(] was copied from the input. *)
Lemma sub_percent_prefix u : forall t v,
  forallb not_lpar u = true -> sub_percent t = u ++ v ->
  exists t', t = u ++ t' /\ sub_percent t' = v.
Proof.
  induction u as [|x u IH]; intros t v Hu E.
  - now exists t.
  - simpl in Hu. apply andb_prop in Hu as [Hx Hu].
    destruct t as [|c t]; [discriminate|].
    destruct (pct_at (c :: t)) as [[l rest]|] eqn:P.
    + rewrite (sub_percent_some _ _ _ P) in E. simpl in E.
      injection E as <- _. discriminate.
    + rewrite (sub_percent_none _ _ P) in E. simpl in E.
      injection E as <- E. destruct (IH _ _ Hu E) as (t' & -> & Ht').
      now exists t'.
Qed.

Lemma literal_block_not_percent l :
  decimal_literal l = true ->
  forallb not_percent ((lit "(" ++ l ++ lit "/100") ++ [")"]) = true.
Proof.
  intros Hl. rewrite !forallb_app. simpl. rewrite !andb_true_r.
  apply (forallb_weaken literal_or_space); [|now apply decimal_literal_chars].
  intros c Hc. unfold not_percent.
  now rewrite (literal_or_space_not_percent _ Hc).
Qed.

Lemma pli_sub_percent s : percent_literal_in (sub_percent s) = false.
Proof.
  apply (sub_percent_ind (fun _ out => percent_literal_in out = false)).
  - reflexivity.
  - intros c t E IH. rewrite pli_cons.
    destruct (pct_at (c :: sub_percent t)) as [[l rest]|] eqn:P; [|exact IH].
    exfalso.
    destruct (pct_at_split _ _ _ P) as (ws & Hl & Hws & Es).
    destruct l as [|c' l]; [discriminate|]. simpl in Es.
    injection Es as <- Es.
    assert (Hu : forallb not_lpar (l ++ ws ++ ["%"]) = true).
    { pose proof (decimal_literal_chars _ Hl) as Hc. simpl in Hc.
      apply andb_prop in Hc as [_ Hc].
      rewrite !forallb_app. simpl.
      rewrite (forallb_weaken _ _ _ literal_or_space_not_lpar Hc).
      rewrite (forallb_weaken _ _ _ literal_or_space_not_lpar
                 (spaces_chars _ Hws)).
      reflexivity. }
    destruct (sub_percent_prefix (l ++ ws ++ ["%"]) t rest Hu) as (t' & -> & _).
    { rewrite Es, <- !app_assoc. reflexivity. }
    rewrite <- !app_assoc in E. simpl in E.
    change (c :: l ++ ws ++ "%" :: t') with ((c :: l) ++ ws ++ "%" :: t') in E.
    rewrite (pct_at_complete _ _ _ Hl Hws) in E. discriminate.
  - intros l ws rest Hl Hws IH.
    replace (lit "(" ++ l ++ lit "/100)" ++ sub_percent rest)
      with (((lit "(" ++ l ++ lit "/100") ++ [")"]) ++ sub_percent rest)
      by (simpl; rewrite <- !app_assoc; reflexivity).
    apply pli_guarded; [now apply literal_block_not_percent | reflexivity | exact IH].
Qed.

(** ** The insertion passes *)

Section Insertion.

Variables A B : ascii -> bool.

Lemma starts_with_ins_star p s :
  starts_with p (ins_star A B s) = starts_with p s.
Proof. destruct s as [|a t]; simpl; [|destruct (A a && _)]; reflexivity. Qed.

Lemma ins_star_fixed s : has_pair A B s = false -> ins_star A B s = s.
Proof.
  induction s as [|a t IH]; simpl; [reflexivity|]. intros H.
  apply orb_false_elim in H as [H1 H2]. now rewrite H1, IH.
Qed.

Lemma ins_star_nil s : ins_star A B s = [] -> s = [].
Proof. destruct s as [|a t]; simpl; [|destruct (A a && _)]; easy. Qed.

(** Text that a pass leaves free of [*] was copied from the input. *)
Lemma ins_star_prefix u : forall s v,
  forallb not_star u = true -> ins_star A B s = u ++ v ->
  exists s', s = u ++ s'.
Proof.
  induction u as [|x u IH]; intros s v Hu E; [now exists s|].
  simpl in Hu. apply andb_prop in Hu as [Hx Hu].
  destruct s as [|a t]; [discriminate|]. simpl in E.
  destruct (A a && starts_with B t).
  - injection E as <- E. destruct u as [|y u].
    + now exists t.
    + simpl in Hu. injection E as <- _. discriminate.
  - injection E as <- E. destruct (IH _ _ Hu E) as (s' & ->).
    now exists s'.
Qed.

Lemma pct_at_ins_star s :
  pct_at s = None -> pct_at (ins_star A B s) = None.
Proof.
  intros N.
  destruct (pct_at (ins_star A B s)) as [[l rest]|] eqn:P; [|reflexivity].
  exfalso.
  destruct (pct_at_split _ _ _ P) as (ws & Hl & Hws & Es).
  destruct (ins_star_prefix (l ++ ws ++ ["%"]) s rest) as (s' & ->).
  - rewrite !forallb_app. simpl.
    rewrite (forallb_weaken _ _ _ literal_or_space_not_star
               (decimal_literal_chars _ Hl)).
    rewrite (forallb_weaken _ _ _ literal_or_space_not_star
               (spaces_chars _ Hws)).
    reflexivity.
  - rewrite Es, <- !app_assoc. reflexivity.
  - rewrite <- !app_assoc in N. simpl in N.
    rewrite (pct_at_complete _ _ _ Hl Hws) in N. discriminate.
Qed.

Lemma pli_ins_star s :
  percent_literal_in s = false -> percent_literal_in (ins_star A B s) = false.
Proof.
  induction s as [|a t IH]; [reflexivity|]. rewrite pli_cons.
  destruct (pct_at (a :: t)) eqn:N; [discriminate|]. intros H.
  pose proof (pct_at_ins_star _ N) as N'. simpl in N' |- *.
  destruct (A a && starts_with B t).
  - rewrite pli_cons, N', pli_cons, pct_at_not_digit by reflexivity.
    now apply IH.
  - rewrite pli_cons, N'. now apply IH.
Qed.

Lemma ends_with_ins_star p s :
  ends_with p (ins_star A B s) = ends_with p s.
Proof.
  unfold ends_with. induction s as [|a t IH]; [reflexivity|].
  assert (K : forall (x : ascii) (u : str),
            u <> [] -> starts_with p (rev (x :: u)) = starts_with p (rev u)).
  { intros x u Hu. simpl. destruct (rev u) as [|y r] eqn:R; [|reflexivity].
    apply (f_equal (@rev ascii)) in R. rewrite rev_involutive in R.
    now subst. }
  destruct t as [|b t]; [simpl; now rewrite andb_false_r|].
  rewrite (K a (b :: t)) by discriminate.
  assert (Hne : ins_star A B (b :: t) <> [])
    by (intros E; now apply ins_star_nil in E).
  change (ins_star A B (a :: b :: t))
    with (if A a && B b then a :: "*" :: ins_star A B (b :: t)
          else a :: ins_star A B (b :: t)).
  destruct (A a && B b).
  - rewrite (K a), (K "*") by easy. exact IH.
  - rewrite (K a) by easy. exact IH.
Qed.


Hypothesis A_star : A "*" = false.
Hypothesis B_star : B "*" = false.

(** After its own pass no pair is left. *)
Lemma has_pair_ins_star s : has_pair A B (ins_star A B s) = false.
Proof.
  induction s as [|a t IH]; [reflexivity|]. simpl.
  destruct (A a && starts_with B t) eqn:E; simpl.
  - rewrite B_star, A_star, andb_false_r. simpl. exact IH.
  - rewrite (starts_with_ins_star B t), E. exact IH.
Qed.

End Insertion.

Section OtherPair.

Variables A B A' B' : ascii -> bool.
Hypothesis A_star : A "*" = false.
Hypothesis B_star : B "*" = false.

(** Inserting [*] for another pattern creates no new pair. *)
Lemma has_pair_ins_star_other s :
  has_pair A B s = false -> has_pair A B (ins_star A' B' s) = false.
Proof.
  induction s as [|a t IH]; [reflexivity|]. simpl. intros H.
  apply orb_false_elim in H as [H1 H2].
  destruct (A' a && starts_with B' t); simpl.
  - rewrite B_star, A_star, andb_false_r. simpl. now apply IH.
  - rewrite starts_with_ins_star, H1. simpl. now apply IH.
Qed.

End OtherPair.

(** ** Stripped strings *)

Lemma lstrip_fixed s : starts_with is_space s = false -> lstrip s = s.
Proof. destruct s as [|c t]; simpl; [reflexivity|]. now intros ->. Qed.

Lemma strip_fixed s : trimmed s -> strip s = s.
Proof.
  intros [H1 H2]. unfold strip, rstrip. rewrite (lstrip_fixed s H1).
  rewrite (lstrip_fixed (rev s) H2). apply rev_involutive.
Qed.

Lemma after_keeps_last p w (c : ascii) :
  p c = false -> exists w', after p (w ++ [c]) = w' ++ [c].
Proof.
  intros Hc. induction w as [|x w IH]; simpl.
  - exists []. now rewrite Hc.
  - destruct (p x); [exact IH|]. now exists (x :: w).
Qed.

Lemma strip_trimmed s : trimmed (strip s).
Proof.
  unfold trimmed, strip, rstrip, ends_with. rewrite rev_involutive. split.
  - pose proof (after_stops is_space s) as H. rewrite <- lstrip_after in H.
    destruct (lstrip s) as [|c t]; [reflexivity|]. simpl in H.
    simpl rev. rewrite lstrip_after.
    destruct (after_keeps_last is_space (rev t) c H) as (w' & ->).
    rewrite rev_app_distr. simpl. exact H.
  - rewrite lstrip_after. apply after_stops.
Qed.

Lemma ends_with_app p (u v : str) :
  v <> [] -> ends_with p (u ++ v) = ends_with p v.
Proof.
  intros Hv. unfold ends_with. rewrite rev_app_distr.
  destruct (rev v) as [|y r] eqn:R; [|reflexivity].
  apply (f_equal (@rev ascii)) in R. rewrite rev_involutive in R. now subst.
Qed.

Lemma sub_percent_nonempty s : s <> [] -> sub_percent s <> [].
Proof.
  destruct s as [|c t]; [congruence|]. intros _.
  destruct (pct_at (c :: t)) as [[l rest]|] eqn:P.
  - now rewrite (sub_percent_some _ _ _ P).
  - now rewrite (sub_percent_none _ _ P).
Qed.

Lemma sub_percent_trimmed s : trimmed s -> trimmed (sub_percent s).
Proof.
  intros [H1 H2]. split.
  - destruct s as [|c t]; [reflexivity|].
    destruct (pct_at (c :: t)) as [[l rest]|] eqn:P.
    + now rewrite (sub_percent_some _ _ _ P).
    + now rewrite (sub_percent_none _ _ P).
  - revert H2. clear H1.
    apply (sub_percent_ind
             (fun s out => ends_with is_space s = false ->
                           ends_with is_space out = false)).
    + easy.
    + intros c t _ IH H. destruct t as [|b t]; [exact H|].
      change (c :: sub_percent (b :: t)) with ([c] ++ sub_percent (b :: t)).
      rewrite ends_with_app by (apply sub_percent_nonempty; discriminate).
      apply IH. change (c :: b :: t) with ([c] ++ b :: t) in H.
      now rewrite ends_with_app in H.
    + intros l ws rest _ _ IH H. destruct rest as [|b t].
      * rewrite app_nil_r, !app_assoc. now rewrite ends_with_app.
      * rewrite !app_assoc.
        rewrite ends_with_app by (apply sub_percent_nonempty; discriminate).
        apply IH. rewrite !app_assoc in H.
        change ((l ++ ws) ++ "%" :: b :: t)
          with ((l ++ ws) ++ ["%"] ++ b :: t) in H.
        rewrite app_assoc in H. now rewrite ends_with_app in H.
Qed.

Lemma ins_star_trimmed A B s : trimmed s -> trimmed (ins_star A B s).
Proof.
  intros [H1 H2]. split.
  - now rewrite starts_with_ins_star.
  - now rewrite ends_with_ins_star.
Qed.

(** ** Normal forms of [preprocess_expression] *)

Lemma mul_passes_trimmed s : trimmed s -> trimmed (mul_passes s).
Proof. intros H. unfold mul_passes. now repeat apply ins_star_trimmed. Qed.

Lemma mul_passes_pli s :
  percent_literal_in s = false -> percent_literal_in (mul_passes s) = false.
Proof. intros H. unfold mul_passes. now repeat apply pli_ins_star. Qed.

Lemma mul_passes_pairs s :
  let y := mul_passes s in
  has_pair is_digit is_lower y = false /\ has_pair is_digit is_lpar y = false
  /\ has_pair is_rpar is_digit y = false /\ has_pair is_rpar is_lpar y = false.
Proof.
  unfold mul_passes. repeat split.
  - do 3 (apply has_pair_ins_star_other; try reflexivity).
    now apply has_pair_ins_star.
  - do 2 (apply has_pair_ins_star_other; try reflexivity).
    now apply has_pair_ins_star.
  - apply has_pair_ins_star_other; try reflexivity.
    now apply has_pair_ins_star.
  - now apply has_pair_ins_star.
Qed.

Lemma mul_passes_fixed y :
  has_pair is_digit is_lower y = false -> has_pair is_digit is_lpar y = false ->
  has_pair is_rpar is_digit y = false -> has_pair is_rpar is_lpar y = false ->
  mul_passes y = y.
Proof.
  intros H1 H2 H3 H4. unfold mul_passes.
  now rewrite (ins_star_fixed _ _ _ H1), (ins_star_fixed _ _ _ H2),
    (ins_star_fixed _ _ _ H3), (ins_star_fixed _ _ _ H4).
Qed.

(** A string on which no rule of [preprocess_expression] applies. *)
Lemma preprocess_fixed y :
  trimmed y -> percent_literal_in y = false ->
  has_pair is_digit is_lower y = false -> has_pair is_digit is_lpar y = false ->
  has_pair is_rpar is_digit y = false -> has_pair is_rpar is_lpar y = false ->
  preprocess_expression y = y.
Proof.
  intros Ht Hp H1 H2 H3 H4.
  rewrite preprocess_expression_eq, (strip_fixed _ Ht), (sub_percent_fixed _ Hp).
  now apply mul_passes_fixed.
Qed.

Lemma preprocess_twice s :
  preprocess_expression (preprocess_expression s) = preprocess_expression s.
Proof.
  rewrite (preprocess_expression_eq s).
  set (x := sub_percent (strip s)).
  assert (Hx : trimmed x) by apply sub_percent_trimmed, strip_trimmed.
  destruct (mul_passes_pairs x) as (H1 & H2 & H3 & H4).
  apply preprocess_fixed; try assumption.
  - now apply mul_passes_trimmed.
  - apply mul_passes_pli, pli_sub_percent.
Qed.

(** ** Where the percent rule applies *)

Lemma pli_suffix p q : percent_literal_in (p ++ q) = false -> pct_at q = None.
Proof.
  induction p as [|c p IH]; simpl app.
  - destruct q as [|c q]; [reflexivity|]. rewrite pli_cons.
    now destruct (pct_at (c :: q)).
  - rewrite pli_cons. destruct (pct_at (c :: p ++ q)); [discriminate|]. exact IH.
Qed.

Lemma pli_false_no_site s p l w q :
  percent_literal_in s = false ->
  s = p ++ l ++ w ++ "%" :: q ->
  decimal_literal l = true -> forallb is_space w = true -> False.
Proof.
  intros H -> Hl Hw. apply pli_suffix in H.
  rewrite (pct_at_complete _ _ _ Hl Hw) in H. discriminate.
Qed.

Lemma pli_true_site s :
  percent_literal_in s = true ->
  exists p l w q, s = p ++ l ++ w ++ "%" :: q
                  /\ decimal_literal l = true /\ forallb is_space w = true.
Proof.
  induction s as [|c t IH]; [discriminate|]. rewrite pli_cons.
  destruct (pct_at (c :: t)) as [[l rest]|] eqn:P.
  - intros _. destruct (pct_at_split _ _ _ P) as (ws & Hl & Hws & E).
    exists [], l, ws, rest. auto.
  - intros H. destruct (IH H) as (p & l & w & q & -> & Hl & Hw).
    exists (c :: p), l, w, q. auto.
Qed.

Lemma no_site_pli_false s :
  (forall p l w q, s = p ++ l ++ w ++ "%" :: q ->
     decimal_literal l = true -> forallb is_space w = true -> False) ->
  percent_literal_in s = false.
Proof.
  intros H. destruct (percent_literal_in s) eqn:E; [|reflexivity].
  destruct (pli_true_site s E) as (p & l & w & q & Es & Hl & Hw).
  destruct (H p l w q Es Hl Hw).
Qed.

Lemma sub_percent_at_literal n ws rest :
  decimal_literal n = true -> forallb is_space ws = true ->
  sub_percent (n ++ ws ++ "%" :: rest)
  = lit "(" ++ n ++ lit "/100)" ++ sub_percent rest.
Proof.
  intros Hn Hws. apply sub_percent_some. now apply pct_at_complete.
Qed.

(** A literal ends with a digit. *)
Lemma decimal_literal_ends l :
  decimal_literal l = true -> ends_with is_digit l = true.
Proof.
  intros H. destruct (decimal_literal_shape l H) as (ip & Hne & Hip & Hs).
  assert (D : forall u : str, u <> [] -> forallb is_digit u = true ->
                              ends_with is_digit u = true).
  { intros u Hu Hd. unfold ends_with. rewrite <- (rev_involutive u) in Hu, Hd.
    destruct (rev u) as [|x r]; [easy|]. simpl in Hd.
    rewrite forallb_app in Hd. simpl in Hd.
    apply andb_prop in Hd as [_ Hd]. now rewrite andb_true_r in Hd. }
  destruct Hs as [->|(fp & Hfne & Hfp & ->)]; [now apply D|].
  change (ip ++ "." :: fp) with (ip ++ ["."] ++ fp).
  rewrite app_assoc, ends_with_app by assumption. now apply D.
Qed.

Lemma has_pair_app A B (u v : str) :
  ends_with A u = true -> starts_with B v = true ->
  has_pair A B (u ++ v) = true.
Proof.
  unfold ends_with. intros Hu Hv.
  rewrite <- (rev_involutive u) in *. rewrite rev_involutive in Hu.
  destruct (rev u) as [|x r]; [discriminate|]. simpl in Hu. simpl rev.
  rewrite <- app_assoc. simpl. clear -Hu Hv.
  induction (rev r) as [|a w IH]; simpl.
  - now rewrite Hu, Hv.
  - rewrite IH. apply orb_true_r.
Qed.

Lemma no_digit_percent_no_literal s p l q :
  has_pair is_digit (Ascii.eqb "%") s = false ->
  s = p ++ l ++ "%" :: q -> decimal_literal l = true -> False.
Proof.
  intros H -> Hl. rewrite app_assoc in H.
  rewrite has_pair_app in H; [discriminate| |reflexivity].
  destruct l as [|c l]; [discriminate|].
  rewrite ends_with_app by discriminate. now apply decimal_literal_ends.
Qed.

(** ** A digit and what follows it, through the passes *)

Lemma starts_with_app_one (p : ascii -> bool) (u : str) x w :
  starts_with p (u ++ x :: w) = starts_with p (u ++ [x]).
Proof. now destruct u. Qed.

Lemma ins_star_split A B p d c q :
  A d = true -> B c = true ->
  ins_star A B (p ++ d :: c :: q)
  = ins_star A B (p ++ [d]) ++ "*" :: ins_star A B (c :: q).
Proof.
  intros Hd Hc. induction p as [|a p IH].
  - simpl. now rewrite Hd, Hc, andb_false_r.
  - simpl. rewrite (starts_with_app_one B p d (c :: q)), IH.
    now destruct (A a && starts_with B (p ++ [d])).
Qed.

Lemma ins_star_app_keep A B u x w :
  exists u', ins_star A B (u ++ x :: w) = u' ++ ins_star A B (x :: w).
Proof.
  induction u as [|a u (u' & IH)]; [now exists []|].
  simpl app. change (ins_star A B (a :: u ++ x :: w))
    with (if A a && starts_with B (u ++ x :: w)
          then a :: "*" :: ins_star A B (u ++ x :: w)
          else a :: ins_star A B (u ++ x :: w)).
  rewrite IH. destruct (A a && _).
  - now exists (a :: "*" :: u').
  - now exists (a :: u').
Qed.

Lemma ins_star_head A B y v : exists r, ins_star A B (y :: v) = y :: r.
Proof. simpl. destruct (A y && _); eauto. Qed.

Lemma ins_star_keeps_pair A B u x y v :
  A x && B y = false ->
  exists u' v', ins_star A B (u ++ x :: y :: v) = u' ++ x :: y :: v'.
Proof.
  intros H. destruct (ins_star_app_keep A B u x (y :: v)) as (u' & ->).
  destruct (ins_star_head A B y v) as (r & E).
  exists u', r. f_equal.
  change (ins_star A B (x :: y :: v))
    with (if A x && B y then x :: "*" :: ins_star A B (y :: v)
          else x :: ins_star A B (y :: v)).
  now rewrite H, E.
Qed.

Lemma ins_star_breaks_pair A B u x y v :
  A x = true -> B y = true ->
  exists u' v', ins_star A B (u ++ x :: y :: v) = u' ++ x :: "*" :: y :: v'.
Proof.
  intros Hx Hy. destruct (ins_star_app_keep A B u x (y :: v)) as (u' & ->).
  destruct (ins_star_head A B y v) as (r & E).
  exists u', r. f_equal.
  change (ins_star A B (x :: y :: v))
    with (if A x && B y then x :: "*" :: ins_star A B (y :: v)
          else x :: ins_star A B (y :: v)).
  now rewrite Hx, Hy, E.
Qed.

Lemma ins_star_keeps_star A B u x y v :
  A "*" = false -> B "*" = false ->
  exists u' v',
    ins_star A B (u ++ x :: "*" :: y :: v) = u' ++ x :: "*" :: y :: v'.
Proof.
  intros HA HB.
  destruct (ins_star_app_keep A B u x ("*" :: y :: v)) as (u3 & ->).
  destruct (ins_star_head A B y v) as (r & Er).
  exists u3, r. f_equal.
  change (ins_star A B (x :: "*" :: y :: v))
    with (if A x && B "*" then x :: "*" :: ins_star A B ("*" :: y :: v)
          else x :: ins_star A B ("*" :: y :: v)).
  rewrite HB, andb_false_r.
  change (ins_star A B ("*" :: y :: v))
    with (if A "*" && B y then "*" :: "*" :: ins_star A B (y :: v)
          else "*" :: ins_star A B (y :: v)).
  rewrite HA. simpl andb. cbv iota. now rewrite Er.
Qed.

Lemma lstrip_keeps u d w :
  is_space d = false -> exists u', lstrip (u ++ d :: w) = u' ++ d :: w.
Proof.
  intros Hd. induction u as [|a u IH]; simpl.
  - rewrite Hd. now exists [].
  - destruct (is_space a); [exact IH|]. now exists (a :: u).
Qed.

Lemma strip_keeps_pair u d c v :
  is_space d = false -> is_space c = false ->
  exists u' v', strip (u ++ d :: c :: v) = u' ++ d :: c :: v'.
Proof.
  intros Hd Hc. unfold strip, rstrip.
  destruct (lstrip_keeps u d (c :: v) Hd) as (u' & ->).
  rewrite rev_app_distr. simpl rev. rewrite <- !app_assoc. simpl app.
  destruct (lstrip_keeps (rev v) c (d :: rev u') Hc) as (x & ->).
  exists u', (rev x). rewrite rev_app_distr. simpl.
  rewrite rev_involutive, <- !app_assoc. reflexivity.
Qed.

(** A candidate match stopped by a character that is neither part of a
    literal, nor white space, nor [%]. *)
Lemma pct_at_blocked w c v :
  forallb literal_or_space w = true -> literal_or_space c = false ->
  Ascii.eqb c "%" = false -> pct_at (w ++ c :: v) = None.
Proof.
  intros Hw Hc Hp.
  destruct (pct_at (w ++ c :: v)) as [[l rest]|] eqn:E; [|reflexivity].
  exfalso. destruct (pct_at_prefix _ _ _ E) as (x & Hx & Es & _).
  destruct (split_at_first_outside literal_or_space w c v x "%" rest
              Hw Hc Hx eq_refl Es) as (_ & -> & _).
  discriminate.
Qed.

Lemma percent_before_pair X rest u (d c : ascii) v :
  forallb literal_or_space X = true ->
  literal_or_space d = true -> literal_or_space c = false ->
  Ascii.eqb c "%" = false ->
  X ++ "%" :: rest = u ++ d :: c :: v ->
  exists u2, u = X ++ "%" :: u2 /\ rest = u2 ++ d :: c :: v.
Proof.
  intros HX Hd Hc Hp E.
  pose proof (run_after literal_or_space u) as R.
  pose proof (run_all literal_or_space u) as Ha.
  destruct (after literal_or_space u) as [|y r] eqn:A.
  - rewrite app_nil_r in R. rewrite R in Ha.
    change (u ++ d :: c :: v) with (u ++ [d] ++ c :: v) in E.
    rewrite app_assoc in E.
    assert (Hud : forallb literal_or_space (u ++ [d]) = true)
      by (rewrite forallb_app; simpl; now rewrite Ha, Hd).
    destruct (split_at_first_outside literal_or_space X "%" rest
                (u ++ [d]) c v HX eq_refl Hud Hc E) as (_ & <- & _).
    discriminate.
  - pose proof (after_stops literal_or_space u) as S. rewrite A in S.
    simpl in S. rewrite <- R, <- app_assoc in E. simpl in E.
    destruct (split_at_first_outside literal_or_space X "%" rest
                (run literal_or_space u) y (r ++ d :: c :: v)
                HX eq_refl Ha S E) as (-> & <- & ->).
    exists r. now rewrite R.
Qed.

Lemma sub_percent_keeps_pair (d c : ascii) v :
  is_digit d = true -> literal_or_space c = false ->
  Ascii.eqb c "%" = false ->
  forall u, exists u',
    sub_percent (u ++ d :: c :: v) = u' ++ d :: c :: sub_percent v.
Proof.
  intros Hd Hc Hp u.
  assert (Hdl : literal_or_space d = true)
    by (unfold literal_or_space; now rewrite Hd).
  remember (length u) as n eqn:Hn. revert u Hn.
  induction n as [n IH] using lt_wf_ind. intros u Hn.
  destruct u as [|a u].
  - exists []. simpl app.
    rewrite sub_percent_none.
    + rewrite sub_percent_none; [reflexivity|].
      apply pct_at_not_digit. now apply not_digit_outside.
    + apply (pct_at_blocked [d] c v); [simpl; now rewrite Hdl | easy | easy].
  - simpl app. destruct (pct_at (a :: u ++ d :: c :: v)) as [[l rest]|] eqn:P.
    + rewrite (sub_percent_some _ _ _ P).
      destruct (pct_at_prefix _ _ _ P) as (X & HX & Es & _).
      change (a :: u ++ d :: c :: v) with ((a :: u) ++ d :: c :: v) in Es.
      symmetry in Es.
      destruct (percent_before_pair X rest (a :: u) d c v HX Hdl Hc Hp Es)
        as (u2 & Eu & ->).
      destruct (IH (length u2)) with (u := u2) as (u' & ->); [|reflexivity|].
      * subst n. rewrite Eu, length_app. simpl. lia.
      * exists (lit "(" ++ l ++ lit "/100)" ++ u').
        now rewrite <- !app_assoc.
    + rewrite (sub_percent_none _ _ P).
      destruct (IH (length u)) with (u := u) as (u' & ->); [|reflexivity|].
      * subst n. simpl. lia.
      * now exists (a :: u').
Qed.

(** The whole normaliser puts a [*] between a digit and the character that
    follows it when this one is a lowercase letter or an opening
    parenthesis. *)
Lemma preprocess_inserts_star p (d c : ascii) q :
  is_digit d = true -> is_lower c = true \/ c = "(" ->
  exists u v, preprocess_expression (p ++ d :: c :: q) = u ++ d :: "*" :: c :: v.
Proof.
  intros Hd Hc. rewrite preprocess_expression_eq.
  assert (Hsd : is_space d = false) by now apply digit_not_space.
  assert (Hcs : is_space c = false /\ literal_or_space c = false
                /\ Ascii.eqb c "%" = false).
  { destruct Hc as [Hc| ->]; [|easy]. revert Hc. clear. by_cases_on c; easy. }
  destruct Hcs as (Hsc & Hlc & Hpc).
  destruct (strip_keeps_pair p d c q Hsd Hsc) as (u1 & v1 & ->).
  destruct (sub_percent_keeps_pair d c v1 Hd Hlc Hpc u1) as (u2 & ->).
  unfold mul_passes.
  destruct Hc as [Hc| ->].
  - destruct (ins_star_breaks_pair is_digit is_lower u2 d c (sub_percent v1)
                Hd Hc) as (u3 & v3 & ->).
    destruct (ins_star_keeps_star is_digit is_lpar u3 d c v3 eq_refl eq_refl)
      as (u4 & v4 & ->).
    destruct (ins_star_keeps_star is_rpar is_digit u4 d c v4 eq_refl eq_refl)
      as (u5 & v5 & ->).
    apply (ins_star_keeps_star is_rpar is_lpar u5 d c v5 eq_refl eq_refl).
  - destruct (ins_star_keeps_pair is_digit is_lower u2 d "(" (sub_percent v1))
      as (u3 & v3 & ->); [now rewrite andb_false_r|].
    destruct (ins_star_breaks_pair is_digit is_lpar u3 d "(" v3 Hd eq_refl)
      as (u4 & v4 & ->).
    destruct (ins_star_keeps_star is_rpar is_digit u4 d "(" v4 eq_refl eq_refl)
      as (u5 & v5 & ->).
    apply (ins_star_keeps_star is_rpar is_lpar u5 d "(" v5 eq_refl eq_refl).
Qed.

(** ** The namespace *)

Local Close Scope char_scope.
Local Open Scope string_scope.

Lemma foldl_insert_lookup (f : string -> value) (l : list string) :
  forall (base : gmap string value) (x : string),
    foldl (fun d attr => <[attr := f attr]> d) base l !! x
    = if decide (x ∈ l) then Some (f x) else base !! x.
Proof.
  induction l as [|a l IH]; intros base x; simpl.
  - destruct (decide (x ∈ [])) as [H|_]; [|reflexivity].
    now apply elem_of_nil in H.
  - rewrite IH. destruct (decide (x ∈ l)) as [H|H].
    + destruct (decide (x ∈ a :: l)) as [_|N]; [reflexivity|].
      destruct N. now apply elem_of_cons; right.
    + destruct (decide (x = a)) as [->|Ne].
      * rewrite lookup_insert_eq.
        destruct (decide (a ∈ a :: l)) as [_|N]; [reflexivity|].
        destruct N. apply elem_of_cons; now left.
      * rewrite lookup_insert_ne by congruence.
        destruct (decide (x ∈ a :: l)) as [Y|_]; [|reflexivity].
        apply elem_of_cons in Y as [->|Y]; [congruence | contradiction].
Qed.


Lemma safe_dict_literal_lookup x v :
  safe_dict_literal !! x = Some v ->
  x ∈ ["__builtins__"; "abs"; "round"; "pow"; "min"; "max"].
Proof.
  unfold safe_dict_literal. intros H.
  repeat (rewrite lookup_insert in H;
          destruct (decide (_ = x)) as [<-|?];
          [rewrite !elem_of_cons; auto 10|]).
  now rewrite lookup_empty in H.
Qed.

Lemma math_attrs_spec math_dir x :
  x ∈ math_attrs math_dir <-> startswith_underscore x = false /\ x ∈ math_dir.
Proof. unfold math_attrs. now rewrite list_elem_of_filter. Qed.

Lemma safe_dict_lookup math_dir x :
  safe_dict math_dir !! x
  = if decide (x ∈ math_attrs math_dir) then Some (math_getattr x)
    else safe_dict_literal !! x.
Proof. apply foldl_insert_lookup. Qed.

Lemma safe_dict_math math_dir x :
  x ∈ math_dir -> startswith_underscore x = false ->
  safe_dict math_dir !! x = Some (math_getattr x).
Proof.
  intros H1 H2. rewrite safe_dict_lookup.
  destruct (decide (x ∈ math_attrs math_dir)) as [_|N]; [reflexivity|].
  destruct N. now apply math_attrs_spec.
Qed.

Lemma safe_dict_builtins math_dir :
  safe_dict math_dir !! "__builtins__" = Some VNone.
Proof.
  rewrite safe_dict_lookup.
  destruct (decide ("__builtins__" ∈ math_attrs math_dir)) as [Y|_];
    [|reflexivity].
  apply math_attrs_spec in Y as [Y _]. discriminate.
Qed.

Lemma safe_dict_keys math_dir x v :
  safe_dict math_dir !! x = Some v ->
  x ∈ ["__builtins__"; "abs"; "round"; "pow"; "min"; "max"]
  \/ (x ∈ math_dir /\ startswith_underscore x = false).
Proof.
  rewrite safe_dict_lookup.
  destruct (decide (x ∈ math_attrs math_dir)) as [Y|_].
  - intros _. right. apply math_attrs_spec in Y. tauto.
  - intros H. left. now apply safe_dict_literal_lookup in H.
Qed.

Lemma safe_dict_debug math_dir : safe_dict math_dir !! "__debug__" = None.
Proof.
  destruct (safe_dict math_dir !! "__debug__") as [v|] eqn:E; [|reflexivity].
  apply safe_dict_keys in E as [E|[_ E]]; [|discriminate].
  rewrite !elem_of_cons, elem_of_nil in E.
  repeat (destruct E as [E|E]; [discriminate|]). destruct E.
Qed.

Lemma load_name_debug globals : load_name globals "__debug__" = Returns (VBool true).
Proof. reflexivity. Qed.

Lemma load_name_found math_dir x v :
  safe_dict math_dir !! x = Some v ->
  load_name (safe_dict math_dir) x = Returns v.
Proof.
  intros H. unfold load_name. destruct (String.eqb_spec x "__debug__") as [->|_].
  - now rewrite safe_dict_debug in H.
  - now rewrite H.
Qed.

Lemma load_name_missing math_dir x :
  x <> "__debug__" ->
  safe_dict math_dir !! x = None ->
  load_name (safe_dict math_dir) x
  = Raises (TypeError "'NoneType' object is not subscriptable").
Proof.
  intros Hx H. unfold load_name.
  destruct (String.eqb_spec x "__debug__") as [->|_]; [congruence|].
  now rewrite H, safe_dict_builtins.
Qed.

(** ** [safe_eval] after [eval] *)

Section AfterEval.

Variable math_dir : list string.
Variable math_ext : string -> list value -> outcome value.

Lemma safe_eval_returns s r :
  py_eval math_ext (preprocess_expression s) (safe_dict math_dir) = Returns r ->
  safe_eval math_dir math_ext s
  = if is_number r then Returns (Some (format_result r), None)
    else Returns (None, Some "Result is not a number").
Proof.
  intros H. unfold safe_eval, try_body. rewrite H. simpl.
  now destruct (is_number r).
Qed.

Lemma safe_eval_raises s e :
  py_eval math_ext (preprocess_expression s) (safe_dict math_dir) = Raises e ->
  safe_eval math_dir math_ext s = handlers e.
Proof. intros H. unfold safe_eval, try_body. now rewrite H. Qed.

Lemma handlers_return e : exists r, handlers e = Returns (None, Some r).
Proof. destruct e; simpl; eauto. Qed.

Lemma py_eval_parsed s g ts e :
  tokenize s = Some ts -> Nat.ltb max_modelled_tokens (length ts) = false ->
  parse ts = Returns e ->
  py_eval math_ext s g = eval_expr math_ext g e.
Proof. intros H1 H2 H3. unfold py_eval. now rewrite H1, H2, H3. Qed.

End AfterEval.

(** ** Tokens of a literal divided by one hundred *)

Local Close Scope string_scope.
Local Open Scope char_scope.

Lemma lex_from_skip p s : lex_from (length p) (p ++ s) = lex_from 0 s.
Proof. induction p as [|c p IH]; simpl; [reflexivity | exact IH]. Qed.

Lemma digit_not_blank c : is_digit c = true -> is_blank c = false.
Proof. by_cases_on c. Qed.

Lemma lex_number_int ip r :
  forallb is_digit ip = true ->
  lex_number (ip ++ "/" :: r) = Tok (TNumber ip) (length ip).
Proof.
  intros H. unfold lex_number.
  rewrite (run_app is_digit ip ("/" :: r) H eq_refl).
  rewrite (after_app is_digit ip ("/" :: r) H eq_refl). reflexivity.
Qed.

Lemma lex_number_point ip fp r :
  forallb is_digit ip = true -> forallb is_digit fp = true ->
  lex_number ((ip ++ "." :: fp) ++ "/" :: r)
  = Tok (TNumber (ip ++ "." :: fp)) (length (ip ++ "." :: fp)).
Proof.
  intros Hi Hf. unfold lex_number. rewrite <- app_assoc. simpl app.
  rewrite (run_app is_digit ip ("." :: fp ++ "/" :: r) Hi eq_refl).
  rewrite (after_app is_digit ip ("." :: fp ++ "/" :: r) Hi eq_refl).
  cbv beta iota.
  rewrite (run_app is_digit fp ("/" :: r) Hf eq_refl).
  rewrite (after_app is_digit fp ("/" :: r) Hf eq_refl). reflexivity.
Qed.

Lemma lex_at_literal n r :
  decimal_literal n = true ->
  lex_at (n ++ "/" :: r) = Tok (TNumber n) (length n).
Proof.
  intros Hn. destruct (decimal_literal_shape n Hn) as (ip & Hne & Hip & Hs).
  destruct ip as [|c t]; [congruence|].
  assert (Hc : is_digit c = true) by (simpl in Hip; now apply andb_prop in Hip).
  assert (L : forall w, lex_at ((c :: t) ++ w) = lex_number ((c :: t) ++ w)).
  { intros w. simpl. now rewrite (digit_not_blank c Hc), Hc. }
  destruct Hs as [->|(fp & _ & Hfp & ->)].
  - rewrite L. now apply lex_number_int.
  - rewrite <- app_assoc, L, app_assoc. now apply lex_number_point.
Qed.

Lemma tokenize_literal n r :
  decimal_literal n = true ->
  tokenize (n ++ "/" :: r) = cons (TNumber n) <$> tokenize ("/" :: r).
Proof.
  intros Hn. pose proof (lex_at_literal n r Hn) as L.
  destruct n as [|c t]; [discriminate|]. unfold tokenize.
  change (lex_from 0 ((c :: t) ++ "/" :: r))
    with (match lex_at ((c :: t) ++ "/" :: r) with
          | Tok tk len => cons tk <$> lex_from (len - 1) (t ++ "/" :: r)
          | Blank => lex_from 0 (t ++ "/" :: r)
          | Bad => None
          end).
  rewrite L. replace (length (c :: t) - 1) with (length t) by (simpl; lia).
  rewrite lex_from_skip. reflexivity.
Qed.

Lemma tokenize_quotient n :
  decimal_literal n = true ->
  tokenize (n ++ lit "/100")
  = Some [TNumber n; TSlash; TNumber (lit "100")].
Proof.
  intros Hn. change (lit "/100") with ("/" :: lit "100").
  now rewrite (tokenize_literal n (lit "100") Hn).
Qed.

Lemma tokenize_paren_quotient n :
  decimal_literal n = true ->
  tokenize (lit "(" ++ n ++ lit "/100)")
  = Some [TLPar; TNumber n; TSlash; TNumber (lit "100"); TRPar].
Proof.
  intros Hn. change (tokenize (lit "(" ++ n ++ lit "/100)"))
    with (cons TLPar <$> tokenize (n ++ "/" :: lit "100)")).
  now rewrite (tokenize_literal n (lit "100)") Hn).
Qed.

(** The parser reaches a leading number literal through six levels. *)
Lemma p_factor_number k n ts :
  p_factor (S (S (S (S k)))) (TNumber n :: ts)
  = v ← number_value n;
    '(b, ts1) ← p_trailers (S k) (EConst v) ts;
    match ts1 with
    | TDoubleStar :: ts2 =>
        '(e, ts3) ← p_factor (S (S k)) ts2; Returns (EBin Pow b e, ts3)
    | _ => Returns (b, ts1)
    end.
Proof.
  change (p_factor (S (S (S (S k)))) (TNumber n :: ts))
    with ('(b, ts1) ← ('(a, ts1) ← (v ← number_value n;
                                     Returns (EConst v, ts));
                       p_trailers (S k) a ts1);
          match ts1 with
          | TDoubleStar :: ts2 =>
              '(e, ts3) ← p_factor (S (S k)) ts2; Returns (EBin Pow b e, ts3)
          | _ => Returns (b, ts1)
          end).
  now destruct (number_value n).
Qed.

Lemma p_comparison_levels k ts :
  p_comparison (S (S (S (S (S (S (S k))))))) ts
  = '(l, ts1) ← ('(l, ts1) ← ('(l, ts1) ← p_factor (S (S (S (S k)))) ts;
                               p_term_rest (S (S (S (S k)))) l ts1);
                 p_sum_rest (S (S (S (S (S k))))) l ts1);
    p_comparison_rest (S (S (S (S (S (S k)))))) l [] ts1.
Proof. reflexivity. Qed.

Lemma p_factor_paren_number k n ts :
  p_factor (S (S (S (S k)))) (TLPar :: TNumber n :: ts)
  = '(b, ts1) ← ('(a, ts1) ← ('(e, ts2) ← p_comparison k (TNumber n :: ts);
                               match ts2 with
                               | TRPar :: ts3 => Returns (e, ts3)
                               | TComma :: _ => Unmodelled
                               | _ => Raises SyntaxError
                               end);
                 p_trailers (S k) a ts1);
    match ts1 with
    | TDoubleStar :: ts2 =>
        '(e, ts3) ← p_factor (S (S k)) ts2; Returns (EBin Pow b e, ts3)
    | _ => Returns (b, ts1)
    end.
Proof. reflexivity. Qed.

Lemma parse_quotient n :
  parse [TNumber n; TSlash; TNumber (lit "100")]
  = v ← number_value n; Returns (EBin Div (EConst v) (EConst (VInt 100))).
Proof.
  unfold parse. change (parse_fuel [TNumber n; TSlash; TNumber (lit "100")])
    with 64.
  rewrite p_comparison_levels, p_factor_number.
  destruct (number_value n) as [v| |]; [|reflexivity|reflexivity].
  vm_compute. reflexivity.
Qed.

Lemma parse_paren_quotient n :
  parse [TLPar; TNumber n; TSlash; TNumber (lit "100"); TRPar]
  = v ← number_value n; Returns (EBin Div (EConst v) (EConst (VInt 100))).
Proof.
  unfold parse.
  change (parse_fuel [TLPar; TNumber n; TSlash; TNumber (lit "100"); TRPar])
    with 96.
  rewrite p_comparison_levels, p_factor_paren_number.
  rewrite p_comparison_levels, p_factor_number.
  destruct (number_value n) as [v| |]; [|reflexivity|reflexivity].
  vm_compute. reflexivity.
Qed.

(** ** A percent literal and the quotient it stands for *)

Lemma has_pair_no_B A B (a : ascii) (s : str) :
  forallb (fun c => negb (B c)) s = true -> has_pair A B (a :: s) = false.
Proof.
  revert a. induction s as [|b s IH]; intros a H; simpl.
  - now rewrite andb_false_r.
  - simpl in H. apply andb_prop in H as [Hb H].
    apply negb_true_iff in Hb. rewrite Hb, andb_false_r. simpl.
    exact (IH b H).
Qed.

Lemma has_pair_no_A A B (s w : str) :
  forallb (fun c => negb (A c)) s = true ->
  has_pair A B (s ++ w) = has_pair A B w.
Proof.
  induction s as [|a s IH]; intros H; simpl; [reflexivity|].
  simpl in H. apply andb_prop in H as [Ha H].
  apply negb_true_iff in Ha. rewrite Ha. simpl. now apply IH.
Qed.

Lemma pli_no_percent s :
  forallb not_percent s = true -> percent_literal_in s = false.
Proof.
  intros H. apply no_site_pli_false. intros p l w q -> _ _.
  rewrite !forallb_app in H. simpl in H.
  now rewrite !andb_false_r in H.
Qed.

Lemma decimal_literal_quotient_chars l :
  decimal_literal l = true -> forallb quotient_char l = true.
Proof.
  intros H. destruct (decimal_literal_shape l H) as (ip & _ & Hip & Hs).
  assert (D : forall u, forallb is_digit u = true ->
                        forallb quotient_char u = true).
  { intros u. apply forallb_weaken. intros c Hc. unfold quotient_char.
    now rewrite Hc. }
  destruct Hs as [->|(fp & _ & Hfp & ->)]; [now apply D|].
  rewrite forallb_app. simpl. now rewrite (D _ Hip), (D _ Hfp).
Qed.

Lemma quotient_chars_clean s :
  forallb quotient_char s = true ->
  forallb not_percent s = true
  /\ forallb (fun c => negb (is_lower c)) s = true
  /\ forallb (fun c => negb (is_lpar c)) s = true
  /\ forallb (fun c => negb (is_rpar c)) s = true.
Proof.
  intros H. repeat split; revert H; apply forallb_weaken; intros c;
    by_cases_on c.
Qed.

Lemma mul_passes_quotient s :
  forallb quotient_char s = true -> mul_passes s = s.
Proof.
  intros H. destruct (quotient_chars_clean s H) as (_ & H1 & H2 & H3).
  rewrite <- (app_nil_r s) at 1 2.
  destruct s as [|a s]; [reflexivity|]. rewrite app_nil_r.
  simpl in H1, H2. apply andb_prop in H1 as [_ H1].
  apply andb_prop in H2 as [_ H2].
  apply mul_passes_fixed.
  - now apply has_pair_no_B.
  - now apply has_pair_no_B.
  - rewrite <- (app_nil_r (a :: s)). now rewrite has_pair_no_A.
  - rewrite <- (app_nil_r (a :: s)). now rewrite has_pair_no_A.
Qed.

Lemma mul_passes_paren_quotient s :
  forallb quotient_char s = true ->
  mul_passes ("(" :: s ++ [")"]) = "(" :: s ++ [")"].
Proof.
  intros H. destruct (quotient_chars_clean s H) as (_ & H1 & H2 & H3).
  apply mul_passes_fixed.
  - apply has_pair_no_B. rewrite forallb_app, H1. reflexivity.
  - apply has_pair_no_B. rewrite forallb_app, H2. reflexivity.
  - change ("(" :: s ++ [")"]) with (("(" :: s) ++ [")"]).
    rewrite has_pair_no_A; [reflexivity|]. simpl. exact H3.
  - change ("(" :: s ++ [")"]) with (("(" :: s) ++ [")"]).
    rewrite has_pair_no_A; [reflexivity|]. simpl. exact H3.
Qed.

Lemma literal_starts n w :
  decimal_literal n = true -> starts_with is_space (n ++ w) = false.
Proof.
  destruct n as [|c t]; [discriminate|]. simpl. intros H.
  apply andb_prop in H as [H _]. now apply digit_not_space.
Qed.

Lemma ends_with_last p (u : str) (x : ascii) : ends_with p (u ++ [x]) = p x.
Proof. unfold ends_with. now rewrite rev_app_distr. Qed.

Lemma preprocess_percent_literal n :
  decimal_literal n = true ->
  preprocess_expression (n ++ lit "%") = lit "(" ++ n ++ lit "/100)".
Proof.
  intros Hn. rewrite preprocess_expression_eq.
  change (lit "%") with ["%"].
  rewrite strip_fixed
    by (split; [now apply literal_starts | now rewrite ends_with_last]).
  change (n ++ ["%"]) with (n ++ [] ++ "%" :: []).
  rewrite (sub_percent_at_literal n [] [] Hn eq_refl).
  change (sub_percent []) with (@nil ascii). rewrite app_nil_r.
  replace (lit "(" ++ n ++ lit "/100)") with ("(" :: (n ++ lit "/100") ++ [")"])
    by (simpl; now rewrite <- app_assoc).
  apply mul_passes_paren_quotient.
  rewrite forallb_app, (decimal_literal_quotient_chars n Hn). reflexivity.
Qed.

Lemma preprocess_quotient n :
  decimal_literal n = true ->
  preprocess_expression (n ++ lit "/100") = n ++ lit "/100".
Proof.
  intros Hn.
  assert (Hq : forallb quotient_char (n ++ lit "/100") = true)
    by (rewrite forallb_app, (decimal_literal_quotient_chars n Hn); reflexivity).
  rewrite preprocess_expression_eq.
  rewrite strip_fixed.
  - rewrite sub_percent_fixed
      by (apply pli_no_percent; now apply quotient_chars_clean).
    now apply mul_passes_quotient.
  - split; [now apply literal_starts|].
    change (lit "/100") with (lit "/10" ++ ["0"]).
    now rewrite app_assoc, ends_with_last.
Qed.

Lemma py_eval_percent_literal ext g n :
  decimal_literal n = true ->
  py_eval ext (lit "(" ++ n ++ lit "/100)") g = py_eval ext (n ++ lit "/100") g.
Proof.
  intros Hn. unfold py_eval.
  rewrite (tokenize_paren_quotient n Hn), (tokenize_quotient n Hn).
  change (Nat.ltb max_modelled_tokens (length _)) with false.
  cbv iota. now rewrite parse_paren_quotient, parse_quotient.
Qed.

Lemma safe_eval_percent_literal dir ext n :
  decimal_literal n = true ->
  safe_eval dir ext (preprocess_expression (n ++ lit "%"))
  = safe_eval dir ext (n ++ lit "/100").
Proof.
  intros Hn. unfold safe_eval, try_body.
  rewrite preprocess_twice, (preprocess_percent_literal n Hn).
  rewrite (preprocess_quotient n Hn).
  now rewrite (py_eval_percent_literal ext _ n Hn).
Qed.

(** ** Evaluating concrete inputs *)

Lemma safe_eval_via dir ext s ts e :
  tokenize (preprocess_expression s) = Some ts ->
  Nat.ltb max_modelled_tokens (length ts) = false ->
  parse ts = Returns e ->
  safe_eval dir ext s
  = match eval_expr ext (safe_dict dir) e with
    | Returns r =>
        if is_number r then Returns (Some (format_result r), None)
        else Returns (None, Some "Result is not a number"%string)
    | Raises x => handlers x
    | Unmodelled => Unmodelled
    end.
Proof.
  intros H1 H2 H3. unfold safe_eval, try_body.
  rewrite (py_eval_parsed ext _ _ ts e H1 H2 H3).
  destruct (eval_expr ext (safe_dict dir) e) as [r| |]; simpl; try reflexivity.
  now destruct (is_number r).
Qed.

Ltac run_safe_eval :=
  erewrite safe_eval_via by (vm_compute; reflexivity).

Lemma safe_eval_50_percent dir ext :
  safe_eval dir ext (lit "50%") = Returns (Some (VFloat half), None).
Proof. run_safe_eval. reflexivity. Qed.

Lemma safe_eval_50_percent_of_200 dir ext :
  safe_eval dir ext (lit "50% * 200") = Returns (Some (VInt 100), None).
Proof. run_safe_eval. reflexivity. Qed.

Lemma safe_eval_3_4 dir ext :
  safe_eval dir ext (lit "3(4)") = Returns (Some (VInt 12), None).
Proof. run_safe_eval. reflexivity. Qed.

Lemma safe_eval_1_div_0 dir ext :
  safe_eval dir ext (lit "1/0")
  = Returns (None, Some "Division by zero"%string).
Proof. run_safe_eval. reflexivity. Qed.

Lemma safe_eval_2_gt_1 dir ext :
  safe_eval dir ext (lit "2>1") = Returns (Some (VBool true), None).
Proof. run_safe_eval. reflexivity. Qed.

(** ** Names in concrete inputs *)

Local Close Scope char_scope.
Local Open Scope string_scope.

Ltac in_list :=
  unfold math_dir_311;
  repeat first [apply list_elem_of_here | apply list_elem_of_further].

Lemma not_in_by_eqb (x : string) (l : list string) :
  existsb (String.eqb x) l = false -> x ∉ l.
Proof.
  induction l as [|a l IH]; simpl.
  - intros _ H. now apply elem_of_nil in H.
  - intros H. apply orb_false_elim in H as [H1 H2].
    intros U. apply elem_of_cons in U as [->|U].
    + now rewrite String.eqb_refl in H1.
    + now apply IH.
Qed.

Arguments load_name : simpl never.
Arguments binary : simpl never.
Arguments call : simpl never.

Lemma safe_eval_2pi dir ext :
  "pi" ∈ dir ->
  safe_eval dir ext (lit "2pi") = Returns (Some (VFloat math_tau), None).
Proof.
  intros Hpi. run_safe_eval. simpl eval_expr.
  rewrite (load_name_found dir "pi" _ (safe_dict_math dir "pi" Hpi eq_refl)).
  reflexivity.
Qed.

Lemma safe_eval_sqrt_144 dir ext :
  "sqrt" ∈ dir ->
  safe_eval dir ext (lit "sqrt(144)") = Returns (Some (VInt 12), None).
Proof.
  intros Hs. run_safe_eval. simpl eval_expr.
  rewrite (load_name_found dir "sqrt" _ (safe_dict_math dir "sqrt" Hs eq_refl)).
  reflexivity.
Qed.

Lemma safe_eval_sin_half_pi dir ext :
  "sin" ∈ dir -> "pi" ∈ dir ->
  ext "sin" [VFloat half_pi] = Returns (VFloat one) ->
  safe_eval dir ext (lit "sin(pi/2)") = Returns (Some (VInt 1), None).
Proof.
  intros Hs Hpi Hsin. run_safe_eval. simpl eval_expr.
  rewrite (load_name_found dir "sin" _ (safe_dict_math dir "sin" Hs eq_refl)).
  rewrite (load_name_found dir "pi" _ (safe_dict_math dir "pi" Hpi eq_refl)).
  change (math_getattr "sin") with (VMath "sin").
  change (math_getattr "pi") with (VFloat math_pi).
  cbn [mbind outcome_bind].
  change (binary Div (VFloat math_pi) (VInt 2))
    with (Returns (A:=value) (VFloat half_pi)).
  cbn [mbind outcome_bind].
  change (call ext (VMath "sin") [VFloat half_pi])
    with (ext "sin" [VFloat half_pi]).
  rewrite Hsin. reflexivity.
Qed.

Lemma safe_dict_missing dir x :
  x ∉ dir -> x ∉ ["__builtins__"; "abs"; "round"; "pow"; "min"; "max"] ->
  safe_dict dir !! x = None.
Proof.
  intros H1 H2. destruct (safe_dict dir !! x) as [v|] eqn:E; [|reflexivity].
  apply safe_dict_keys in E. tauto.
Qed.

Lemma safe_eval_foo dir ext :
  "foo" ∉ dir ->
  safe_eval dir ext (lit "foo(1)")
  = Returns (None, Some "Error: 'NoneType' object is not subscriptable").
Proof.
  intros Hfoo. run_safe_eval. simpl eval_expr.
  rewrite (load_name_missing dir "foo"); [reflexivity|discriminate|].
  apply safe_dict_missing; [assumption|].
  rewrite !elem_of_cons, elem_of_nil. intros H.
  repeat (destruct H as [H|H]; [discriminate|]). exact H.
Qed.

(** ** Results after formatting *)

Lemma format_result_number r : is_number r = true -> is_number (format_result r) = true.
Proof.
  destruct r as [z|f|b| | | |]; try discriminate; try reflexivity.
  intros _. simpl. now destruct (float_is_integer f).
Qed.

(** The integer [int_of_float f] has the value of [f]. *)
Lemma int_of_float_exact f :
  float_is_integer f = true ->
  compare_int_float (int_of_float f) f = Some Eq.
Proof.
  destruct f as [s|s| |s m e]; try discriminate; [reflexivity|].
  unfold float_is_integer, int_of_float, compare_int_float.
  destruct (0 <=? e)%Z eqn:He; simpl.
  - intros _. f_equal. destruct s; apply Z.compare_eq_iff; lia.
  - intros H. apply Z.eqb_eq in H. apply Z.leb_gt in He. f_equal.
    apply Z.compare_eq_iff.
    assert (P : (0 < 2 ^ (- e))%Z) by (apply Z.pow_pos_nonneg; lia).
    pose proof (Z.div_mod (Z.pos m) (2 ^ (- e)) ltac:(lia)) as D.
    rewrite H, Z.add_0_r in D. destruct s; lia.
Qed.

Lemma format_result_not_integral r f :
  format_result r = VFloat f -> float_is_integer f = false.
Proof.
  destruct r as [z|g|b| | | |]; simpl; try discriminate.
  destruct (float_is_integer g) eqn:E; [discriminate|]. now intros [= <-].
Qed.

Lemma safe_eval_success dir ext s v msg :
  safe_eval dir ext s = Returns (Some v, msg) ->
  exists r, py_eval ext (preprocess_expression s) (safe_dict dir) = Returns r
            /\ is_number r = true /\ v = format_result r /\ msg = None.
Proof.
  unfold safe_eval, try_body.
  destruct (py_eval ext (preprocess_expression s) (safe_dict dir))
    as [r|e|] eqn:E; simpl.
  - destruct (is_number r) eqn:N; intros [= <- <-]; eauto.
  - destruct e; discriminate.
  - discriminate.
Qed.

Lemma safe_eval_no_raise dir ext s e : safe_eval dir ext s <> Raises e.
Proof.
  unfold safe_eval, try_body.
  destruct (py_eval ext (preprocess_expression s) (safe_dict dir))
    as [r|x|]; simpl.
  - now destruct (is_number r).
  - now destruct x.
  - discriminate.
Qed.

(** ** The history store *)

Lemma appended_lookup username entry (histories : gmap string (list (gmap string string))) :
  appended username entry histories !! username
  = Some (take MAX_HISTORY (to_dict entry :: default [] (histories !! username))).
Proof.
  unfold appended. rewrite !lookup_alter_eq.
  destruct (histories !! username) as [l|] eqn:E.
  - now rewrite E.
  - now rewrite lookup_insert_eq.
Qed.

Lemma appended_other username entry (histories : gmap string (list (gmap string string))) u :
  u <> username ->
  appended username entry histories !! u = histories !! u.
Proof.
  intros Hu. unfold appended. rewrite !lookup_alter_ne by congruence.
  destruct (histories !! username); [reflexivity|].
  now rewrite lookup_insert_ne by congruence.
Qed.

(** ** [NameError] is never raised

    With the builtins set to [None], a failed lookup raises [TypeError];
    nothing else in the fragment raises [NameError] either, so the handler
    for it in [safe_eval] is never entered. *)

Lemma nne_bind {A B} (m : outcome A) (k : A -> outcome B) :
  no_name_error m -> (forall a, no_name_error (k a)) ->
  no_name_error (m ≫= k).
Proof.
  intros Hm Hk msg. destruct m as [a|e|]; simpl.
  - apply Hk.
  - intros E. apply (Hm msg). congruence.
  - discriminate.
Qed.

Ltac nne_cases :=
  unfold no_name_error; intros;
  repeat (simpl; case_match); simpl; try discriminate.

Lemma nne_float_of_int z : no_name_error (float_of_int z).
Proof. unfold float_of_int. nne_cases. Qed.

Lemma nne_int_true_divide a b : no_name_error (int_true_divide a b).
Proof. unfold int_true_divide. nne_cases. Qed.

Lemma nne_num_to_float x : no_name_error (num_to_float x).
Proof. destruct x; simpl; [apply nne_float_of_int | discriminate]. Qed.

Lemma nne_int_binop o x y : no_name_error (int_binop o x y).
Proof.
  destruct o; simpl; try (unfold no_name_error; intros; case_match; discriminate);
    try discriminate.
  apply nne_bind; [apply nne_int_true_divide | discriminate].
Qed.

Lemma nne_float_binop o x y : no_name_error (float_binop o x y).
Proof. destruct o; simpl; try discriminate. nne_cases. Qed.

Lemma nne_binary o a b : no_name_error (binary o a b).
Proof.
  unfold binary.
  destruct (to_num a) as [[x|x]|], (to_num b) as [[y|y]|]; try discriminate;
    try apply nne_int_binop;
    destruct o; try discriminate;
    (apply nne_bind; [apply nne_num_to_float|]; intros fx;
     apply nne_bind; [apply nne_num_to_float|]; intros fy;
     apply nne_float_binop).
Qed.

Lemma nne_unary o a : no_name_error (unary o a).
Proof. unfold unary. nne_cases. Qed.

Lemma nne_compare_values o a b : no_name_error (compare_values o a b).
Proof. unfold compare_values. nne_cases. Qed.

Lemma nne_builtin_abs args : no_name_error (builtin_abs args).
Proof. unfold builtin_abs. nne_cases. Qed.

Lemma nne_math_sqrt args : no_name_error (math_sqrt args).
Proof.
  unfold math_sqrt. destruct args as [|a [|b args]]; try discriminate.
  apply nne_bind.
  - unfold as_double. destruct (to_num a); [apply nne_num_to_float | discriminate].
  - intros x. unfold math_1. nne_cases.
Qed.

Lemma nne_load_name dir x : no_name_error (load_name (safe_dict dir) x).
Proof.
  unfold load_name. rewrite safe_dict_builtins.
  destruct (String.eqb x "__debug__"); [discriminate|].
  destruct (safe_dict dir !! x); discriminate.
Qed.

Lemma nne_int_literal ds : no_name_error (int_literal ds).
Proof.
  unfold int_literal, no_name_error. intros.
  destruct (Nat.ltb _ _); [discriminate|]. now destruct (_ && _).
Qed.

Lemma nne_float_literal ip fp : no_name_error (float_literal ip fp).
Proof.
  unfold float_literal, no_name_error. intros. now destruct (_ =? _)%Z.
Qed.

Lemma nne_number_value text : no_name_error (number_value text).
Proof.
  unfold number_value.
  destruct (after is_digit text) as [|c fp]; [apply nne_int_literal|].
  destruct c as [[] [] [] [] [] [] [] []];
    first [apply nne_int_literal | apply nne_float_literal].
Qed.

Lemma nne_getattr v attr : no_name_error (getattr v attr).
Proof. unfold getattr. nne_cases. Qed.

Section NoNameError.

Variable math_dir : list string.
Variable math_ext : string -> list value -> outcome value.
Hypothesis ext_no_name_error :
  forall name args, no_name_error (math_ext name args).

Lemma nne_call f args : no_name_error (call math_ext f args).
Proof.
  unfold call. destruct f as [z|x|b| |name|name|name]; try discriminate.
  - destruct (String.eqb name "abs"); [apply nne_builtin_abs | discriminate].
  - destruct (String.eqb name "sqrt");
      [apply nne_math_sqrt | apply ext_no_name_error].
Qed.

Lemma nne_eval_expr :
  forall e, no_name_error (eval_expr math_ext (safe_dict math_dir) e).
Proof.
  fix IH 1. intros [v|x|o a|o a b|a rest|f args|a attr]; simpl.
  - discriminate.
  - apply nne_load_name.
  - apply nne_bind; [apply IH | intros; apply nne_unary].
  - apply nne_bind; [apply IH|]. intros x.
    apply nne_bind; [apply IH | intros; apply nne_binary].
  - apply nne_bind; [apply IH|]. intros x. revert x.
    induction rest as [|[o b] more IHr]; intros x; [discriminate|].
    destruct more as [|p more'].
    + apply nne_bind; [apply IH | intros; apply nne_compare_values].
    + apply nne_bind; [apply IH|]. intros y.
      apply nne_bind; [apply nne_compare_values|]. intros r.
      destruct (truthy r); [apply IHr | discriminate].
  - apply nne_bind; [apply IH|]. intros fv.
    apply nne_bind; [|intros; apply nne_call].
    induction args as [|a more IHa]; [discriminate|].
    apply nne_bind; [apply IH|]. intros v.
    apply nne_bind; [apply IHa | discriminate].
  - apply nne_bind; [apply IH | intros; apply nne_getattr].
Qed.

End NoNameError.

Ltac nne_step :=
  repeat first
    [ discriminate
    | assumption
    | apply nne_number_value
    | match goal with
      | H : forall ts, no_name_error (?f ?n ts) |- no_name_error (?f ?n _) =>
          apply H
      | H : forall a ts, no_name_error (?f ?n a ts)
        |- no_name_error (?f ?n _ _) => apply H
      | H : forall a b ts, no_name_error (?f ?n a b ts)
        |- no_name_error (?f ?n _ _ _) => apply H
      end
    | apply nne_bind; [|intros [? ?] || intros ?]
    | case_match ].

Lemma nne_parser fuel :
  (forall ts, no_name_error (p_comparison fuel ts))
  /\ (forall l acc ts, no_name_error (p_comparison_rest fuel l acc ts))
  /\ (forall ts, no_name_error (p_sum fuel ts))
  /\ (forall l ts, no_name_error (p_sum_rest fuel l ts))
  /\ (forall ts, no_name_error (p_term fuel ts))
  /\ (forall l ts, no_name_error (p_term_rest fuel l ts))
  /\ (forall ts, no_name_error (p_factor fuel ts))
  /\ (forall ts, no_name_error (p_power fuel ts))
  /\ (forall ts, no_name_error (p_primary fuel ts))
  /\ (forall f ts, no_name_error (p_trailers fuel f ts))
  /\ (forall ts, no_name_error (p_args fuel ts))
  /\ (forall ts, no_name_error (p_atom fuel ts)).
Proof.
  induction fuel as [|n IH].
  - repeat split; intros; discriminate.
  - destruct IH as (C & CR & S & SR & T & TR & F & P & PR & TL & A & AT).
    repeat split; intros; simpl; nne_step.
Qed.

Lemma nne_parse ts : no_name_error (parse ts).
Proof.
  unfold parse. apply nne_bind; [apply nne_parser|].
  intros [e rest]. unfold no_name_error. intros. repeat case_match; discriminate.
Qed.

Lemma nne_py_eval dir ext s :
  (forall name args, no_name_error (ext name args)) ->
  no_name_error (py_eval ext s (safe_dict dir)).
Proof.
  intros Hext. unfold py_eval.
  destruct (tokenize s) as [ts|]; [|discriminate].
  destruct (Nat.ltb _ _); [discriminate|].
  apply nne_bind; [apply nne_parse | intros; now apply nne_eval_expr].
Qed.

(** * The stated properties *)

Local Open Scope string_scope.

Lemma safe_dict_abs dir :
  "abs" ∉ dir -> safe_dict dir !! "abs" = Some (VBuiltin "abs").
Proof.
  intros H. rewrite safe_dict_lookup.
  destruct (decide ("abs" ∈ math_attrs dir)) as [Y|_]; [|reflexivity].
  apply math_attrs_spec in Y as [_ Y]. contradiction.
Qed.

Lemma underscore_not_allowed dir x :
  startswith_underscore x = true ->
  existsb (String.eqb x) ["abs"; "round"; "pow"; "min"; "max"] = false ->
  ~ stated_allowlist dir x.
Proof.
  intros Hu Hx [[_ U]|U]; [congruence|].
  now apply not_in_by_eqb in Hx.
Qed.

(** C1 fails on the code.  [safe_eval] resolves identifiers that are not in
    the allowlist: the attribute [__self__] of the allowlisted function
    [abs] is the [builtins] module, and its attributes [__import__] and
    [open] are the functions that import modules and open files.
    [safe_eval] evaluates ["abs.__self__.__import__"] and
    ["abs.__self__.open"] to these functions (and then answers "Result is
    not a number"), and ["abs.__self__.abs(-3)"] to [3].  None of
    [__self__], [__import__], [__debug__] and [__builtins__] is in the
    stated allowlist, yet ["__debug__"] evaluates to [True] and
    ["__builtins__"] to [None].  A bare [__import__], by contrast, does not
    resolve. *)
Theorem allowlist_escaped (math_dir : list string)
    (math_ext : string -> list value -> outcome value)
    (Habs : "abs" ∉ math_dir) :
  (py_eval math_ext (preprocess_expression (lit "abs.__self__"))
     (safe_dict math_dir) = Returns (VModule "builtins")
   /\ py_eval math_ext (preprocess_expression (lit "abs.__self__.__import__"))
        (safe_dict math_dir) = Returns (VBuiltin "__import__")
   /\ py_eval math_ext (preprocess_expression (lit "abs.__self__.open"))
        (safe_dict math_dir) = Returns (VBuiltin "open"))
  /\ (safe_eval math_dir math_ext (lit "abs.__self__.__import__")
      = Returns (None, Some "Result is not a number")
      /\ safe_eval math_dir math_ext (lit "abs.__self__.open")
         = Returns (None, Some "Result is not a number")
      /\ safe_eval math_dir math_ext (lit "abs.__self__.abs(-3)")
         = Returns (Some (VInt 3), None)
      /\ safe_eval math_dir math_ext (lit "__debug__")
         = Returns (Some (VBool true), None)
      /\ safe_eval math_dir math_ext (lit "__builtins__")
         = Returns (None, Some "Result is not a number")
      /\ safe_eval math_dir math_ext (lit "__import__")
         = Returns (None, Some "Error: 'NoneType' object is not subscriptable"))
  /\ (~ stated_allowlist math_dir "__self__"
      /\ ~ stated_allowlist math_dir "__import__"
      /\ ~ stated_allowlist math_dir "__debug__"
      /\ ~ stated_allowlist math_dir "__builtins__").
Proof.
  pose proof (load_name_found math_dir "abs" _ (safe_dict_abs math_dir Habs))
    as Labs.
  pose proof (load_name_found math_dir "__builtins__" _
                (safe_dict_builtins math_dir)) as Lb.
  assert (Limp : load_name (safe_dict math_dir) "__import__"
                 = Raises (TypeError "'NoneType' object is not subscriptable")).
  { apply load_name_missing; [discriminate|].
    destruct (safe_dict math_dir !! "__import__") as [w|] eqn:E; [|reflexivity].
    apply safe_dict_keys in E as [E|[_ E]]; [|discriminate].
    rewrite !elem_of_cons, elem_of_nil in E.
    repeat (destruct E as [E|E]; [discriminate|]). destruct E. }
  split; [|split].
  - repeat split.
    all: erewrite py_eval_parsed by (vm_compute; reflexivity).
    all: simpl eval_expr; rewrite Labs; reflexivity.
  - repeat split.
    all: run_safe_eval; simpl eval_expr.
    all: rewrite ?Labs, ?Lb, ?Limp; reflexivity.
  - repeat split; now apply underscore_not_allowed.
Qed.

Lemma allowlist_escaped_witness :
  ("abs" ∉ math_dir_311)
  /\ safe_eval math_dir_311 no_ext (lit "abs.__self__.__import__")
     = Returns (None, Some "Result is not a number")
  /\ py_eval no_ext (preprocess_expression (lit "abs.__self__.__import__"))
       (safe_dict math_dir_311) = Returns (VBuiltin "__import__")
  /\ ~ stated_allowlist math_dir_311 "__import__".
Proof.
  assert (H : "abs" ∉ math_dir_311) by (now apply not_in_by_eqb).
  split; [exact H|].
  pose proof (allowlist_escaped math_dir_311 no_ext H)
    as [[_ [A _]] [[B _] [_ [C _]]]].
  split; [exact B|]. split; [exact A | exact C].
Defined.

(** C2, as amended.  For every decimal literal [n] made of digits,
    optionally followed by a point and more digits, normalising [n%] and
    evaluating it gives the same outcome as evaluating [n/100]; ["50%"]
    evaluates to [0.5] and ["50% * 200"] to [100]. *)
Theorem percent_literal_is_quotient (math_dir : list string)
    (math_ext : string -> list value -> outcome value) (n : str)
    (Hn : decimal_literal n = true) :
  safe_eval math_dir math_ext (preprocess_expression (n ++ lit "%"))
  = safe_eval math_dir math_ext (n ++ lit "/100")
  /\ safe_eval math_dir math_ext (n ++ lit "%")
     = safe_eval math_dir math_ext (n ++ lit "/100")
  /\ safe_eval math_dir math_ext (lit "50%")
     = Returns (Some (VFloat half), None)
  /\ safe_eval math_dir math_ext (lit "50% * 200")
     = Returns (Some (VInt 100), None).
Proof.
  split; [now apply safe_eval_percent_literal|]. split; [|split].
  - unfold safe_eval, try_body.
    rewrite (preprocess_percent_literal n Hn), (preprocess_quotient n Hn).
    now rewrite (py_eval_percent_literal math_ext _ n Hn).
  - apply safe_eval_50_percent.
  - apply safe_eval_50_percent_of_200.
Qed.

Lemma percent_literal_is_quotient_witness :
  decimal_literal (lit "12.5") = true
  /\ safe_eval math_dir_311 no_ext (preprocess_expression (lit "12.5" ++ lit "%"))
     = safe_eval math_dir_311 no_ext (lit "12.5" ++ lit "/100").
Proof.
  split; [reflexivity|].
  exact (proj1 (percent_literal_is_quotient math_dir_311 no_ext (lit "12.5")
                  eq_refl)).
Defined.

Local Close Scope string_scope.
Local Open Scope char_scope.

(** The literals of the percent rule are decimal literals of Python. *)
Lemma decimal_literal_python (l : str) :
  decimal_literal l = true -> python_decimal_literal l = true.
Proof.
  intros H. destruct (decimal_literal_shape l H) as (ip & Hne & Hip & Hs).
  unfold python_decimal_literal.
  destruct Hs as [->|(fp & Hfne & Hfp & ->)].
  - rewrite (after_all _ _ Hip).
    pose proof (run_after is_digit ip) as R.
    rewrite (after_all _ _ Hip), app_nil_r in R. rewrite R.
    destruct ip; [congruence | reflexivity].
  - rewrite (after_app is_digit ip ("." :: fp) Hip eq_refl).
    pose proof (run_after is_digit (ip ++ "." :: fp)) as R.
    rewrite (after_app is_digit ip ("." :: fp) Hip eq_refl) in R.
    apply app_inv_tail in R. rewrite R, Hfp. simpl.
    destruct ip; [congruence|]. reflexivity.
Qed.

Local Close Scope char_scope.
Local Open Scope string_scope.

(** C2, as stated, fails for the decimal literals that end or start with
    the point.  ["5.%"] is left as it is by the normaliser and is not an
    expression, while ["5./100"] evaluates to [0.05]; [".5%"] becomes
    [".(5/100)"], not an expression either, while [".5/100"] evaluates to
    [0.005]. *)
Lemma percent_of_point_literal :
  python_decimal_literal (lit "5.") = true
  /\ python_decimal_literal (lit ".5") = true
  /\ preprocess_expression (lit "5." ++ lit "%") = lit "5.%"
  /\ preprocess_expression (lit ".5" ++ lit "%") = lit ".(5/100)"
  /\ safe_eval math_dir_311 no_ext (preprocess_expression (lit "5." ++ lit "%"))
     = Returns (None, Some "Invalid syntax")
  /\ safe_eval math_dir_311 no_ext (lit "5." ++ lit "/100")
     = Returns (Some (VFloat (S754_finite false 7205759403792794 (-57))), None)
  /\ safe_eval math_dir_311 no_ext (preprocess_expression (lit ".5" ++ lit "%"))
     = Returns (None, Some "Invalid syntax")
  /\ safe_eval math_dir_311 no_ext (lit ".5" ++ lit "/100")
     = Returns (Some (VFloat (S754_finite false 5764607523034235 (-60))), None)
  /\ ~ (forall n : str,
          python_decimal_literal n = true ->
          safe_eval math_dir_311 no_ext (preprocess_expression (n ++ lit "%"))
          = safe_eval math_dir_311 no_ext (n ++ lit "/100")).
Proof.
  repeat (split; [vm_compute; reflexivity|]).
  intros H. specialize (H (lit "5.") eq_refl). vm_compute in H. discriminate.
Qed.

Local Close Scope string_scope.
Local Open Scope char_scope.

(** C3.  [preprocess_expression] puts a multiplication sign between a
    digit and a lowercase letter or an opening parenthesis that follows it
    directly; the two rules themselves insert it exactly there.  ["2pi"]
    becomes ["2*pi"], which evaluates to the double nearest to two pi
    (within [10^-9] of 6.283185307), and ["3(4)"] becomes ["3*(4)"], which
    evaluates to [12]. *)
Theorem implicit_multiplication (p q : str) (d c : ascii)
    (Hd : is_digit d = true) (Hc : is_lower c = true \/ c = "(") :
  (exists u v : str,
     preprocess_expression (p ++ d :: c :: q) = u ++ d :: "*" :: c :: v)
  /\ (is_lower c = true ->
      re_sub re_digit_letter tpl_digit_letter (p ++ d :: c :: q)
      = re_sub re_digit_letter tpl_digit_letter (p ++ [d])
        ++ "*" :: re_sub re_digit_letter tpl_digit_letter (c :: q))
  /\ (c = "(" ->
      re_sub re_digit_paren tpl_digit_paren (p ++ d :: c :: q)
      = re_sub re_digit_paren tpl_digit_paren (p ++ [d])
        ++ "*" :: re_sub re_digit_paren tpl_digit_paren (c :: q))
  /\ preprocess_expression (lit "2pi") = lit "2*pi"
  /\ preprocess_expression (lit "3(4)") = lit "3*(4)"
  /\ (forall math_dir math_ext,
        "pi"%string ∈ math_dir ->
        safe_eval math_dir math_ext (lit "2pi")
        = Returns (Some (VFloat math_tau), None))
  /\ float_within math_tau 6283185306 6283185308 1000000000 = true
  /\ (forall math_dir math_ext,
        safe_eval math_dir math_ext (lit "3(4)")
        = Returns (Some (VInt 12), None)).
Proof.
  split; [now apply preprocess_inserts_star|].
  split; [intros Hl; rewrite !sub_digit_letter; now apply ins_star_split|].
  split; [intros ->; rewrite !sub_digit_paren; now apply ins_star_split|].
  split; [reflexivity|]. split; [reflexivity|].
  split; [intros; now apply safe_eval_2pi|].
  split; [reflexivity|]. intros. apply safe_eval_3_4.
Qed.

Lemma implicit_multiplication_witness :
  is_digit "2" = true
  /\ (is_lower "p" = true \/ "p" = "(")
  /\ exists u v : str,
       preprocess_expression (lit "1+" ++ "2" :: "p" :: lit "i")
       = u ++ "2" :: "*" :: "p" :: v.
Proof.
  split; [reflexivity|]. split; [left; reflexivity|].
  exact (proj1 (implicit_multiplication (lit "1+") (lit "i") "2" "p"
                  eq_refl (or_introl eq_refl))).
Defined.

Local Close Scope char_scope.
Local Open Scope string_scope.

(** C4.  When [eval] returns a number, [safe_eval] returns a number and no
    message; a float with zero fractional part comes back as the integer
    of the same value, any other float unchanged.  So a successful
    [safe_eval] never returns an integral float.  [sqrt(144)] gives the
    integer [12]; [sin(pi/2)] gives the integer [1] when the C library's
    sine is [1.0] there. *)
Theorem result_is_normalised (math_dir : list string)
    (math_ext : string -> list value -> outcome value) (s : str) (r : value)
    (Hev : py_eval math_ext (preprocess_expression s) (safe_dict math_dir)
           = Returns r)
    (Hnum : is_number r = true) :
  safe_eval math_dir math_ext s = Returns (Some (format_result r), None)
  /\ is_number (format_result r) = true
  /\ (forall f, r = VFloat f -> float_is_integer f = true ->
        format_result r = VInt (int_of_float f)
        /\ compare_int_float (int_of_float f) f = Some Eq)
  /\ (forall f, r = VFloat f -> float_is_integer f = false ->
        format_result r = VFloat f)
  /\ (forall z, r = VInt z -> format_result r = VInt z)
  /\ (forall s' v msg,
        safe_eval math_dir math_ext s' = Returns (Some v, msg) ->
        is_number v = true /\ msg = None
        /\ forall f, v = VFloat f -> float_is_integer f = false)
  /\ ("sqrt" ∈ math_dir ->
      safe_eval math_dir math_ext (lit "sqrt(144)")
      = Returns (Some (VInt 12), None))
  /\ ("sin" ∈ math_dir -> "pi" ∈ math_dir ->
      math_ext "sin" [VFloat half_pi] = Returns (VFloat one) ->
      safe_eval math_dir math_ext (lit "sin(pi/2)")
      = Returns (Some (VInt 1), None)).
Proof.
  split. { rewrite (safe_eval_returns _ _ _ _ Hev). now rewrite Hnum. }
  split. { now apply format_result_number. }
  split. { intros f -> Hf. simpl. rewrite Hf. split; [reflexivity|].
           now apply int_of_float_exact. }
  split. { intros f -> Hf. simpl. now rewrite Hf. }
  split. { now intros z ->. }
  split. { intros s' v msg H.
           destruct (safe_eval_success _ _ _ _ _ H) as (r' & _ & N & -> & ->).
           split; [now apply format_result_number|]. split; [reflexivity|].
           intros f. apply format_result_not_integral. }
  split; [apply safe_eval_sqrt_144 | apply safe_eval_sin_half_pi].
Qed.

Lemma result_is_normalised_witness :
  py_eval sin_ext (preprocess_expression (lit "sqrt(144)"))
    (safe_dict math_dir_311)
  = Returns (VFloat (S754_finite false 6755399441055744 (-49)))
  /\ safe_eval math_dir_311 sin_ext (lit "sqrt(144)")
     = Returns (Some (VInt 12), None)
  /\ safe_eval math_dir_311 sin_ext (lit "sin(pi/2)")
     = Returns (Some (VInt 1), None).
Proof.
  assert (H : py_eval sin_ext (preprocess_expression (lit "sqrt(144)"))
                (safe_dict math_dir_311)
              = Returns (VFloat (S754_finite false 6755399441055744 (-49))))
    by (vm_compute; reflexivity).
  split; [exact H|].
  pose proof (result_is_normalised math_dir_311 sin_ext (lit "sqrt(144)") _
                H eq_refl) as (A & _ & _ & _ & _ & _ & _ & S).
  split; [exact A|].
  apply S; [in_list | in_list | reflexivity].
Defined.

(** C5.  When evaluation raises [ZeroDivisionError], as for ["1/0"],
    [safe_eval] returns no value and the message ["Division by zero"]; it
    never raises to its caller. *)
Theorem division_by_zero_reported (math_dir : list string)
    (math_ext : string -> list value -> outcome value) (s : str)
    (Hev : py_eval math_ext (preprocess_expression s) (safe_dict math_dir)
           = Raises ZeroDivisionError) :
  safe_eval math_dir math_ext s = Returns (None, Some "Division by zero")
  /\ (forall s' e, safe_eval math_dir math_ext s' <> Raises e)
  /\ safe_eval math_dir math_ext (lit "1/0")
     = Returns (None, Some "Division by zero").
Proof.
  split; [now rewrite (safe_eval_raises _ _ _ _ Hev)|].
  split; [intros; apply safe_eval_no_raise | apply safe_eval_1_div_0].
Qed.

Lemma division_by_zero_reported_witness :
  py_eval no_ext (preprocess_expression (lit "(2 + 3) / (1.5 - 1.5)"))
    (safe_dict math_dir_311)
  = Raises ZeroDivisionError
  /\ safe_eval math_dir_311 no_ext (lit "(2 + 3) / (1.5 - 1.5)")
     = Returns (None, Some "Division by zero").
Proof.
  assert (H : py_eval no_ext
                (preprocess_expression (lit "(2 + 3) / (1.5 - 1.5)"))
                (safe_dict math_dir_311)
              = Raises ZeroDivisionError) by (vm_compute; reflexivity).
  split; [exact H|].
  exact (proj1 (division_by_zero_reported math_dir_311 no_ext _ H)).
Defined.

(** C6, on the code: for an identifier missing from the namespace, as in
    ["foo(1)"], the lookup falls through to the builtins, which are [None];
    subscripting them raises [TypeError], so [safe_eval] answers with the
    generic message and not with ["Unknown function or variable: foo"].
    Unless a function of the math module raises [NameError] itself, no
    input at all gets an answer that starts with
    ["Unknown function or variable: "]. *)
Theorem unknown_name_reported_as_type_error (math_dir : list string)
    (math_ext : string -> list value -> outcome value)
    (Hfoo : "foo" ∉ math_dir) :
  safe_eval math_dir math_ext (lit "foo(1)")
  = Returns (None, Some "Error: 'NoneType' object is not subscriptable")
  /\ (safe_eval math_dir math_ext (lit "foo(1)")
      <> Returns (None, Some "Unknown function or variable: foo"))
  /\ ((forall name args, no_name_error (math_ext name args)) ->
      forall s msg,
        safe_eval math_dir math_ext s
        <> Returns (None, Some ("Unknown function or variable: " +:+ msg))).
Proof.
  rewrite (safe_eval_foo _ _ Hfoo).
  split; [reflexivity|]. split; [discriminate|].
  intros Hext s msg. unfold safe_eval, try_body.
  pose proof (nne_py_eval math_dir math_ext (preprocess_expression s) Hext) as N.
  destruct (py_eval math_ext (preprocess_expression s) (safe_dict math_dir))
    as [r|e|]; simpl.
  - destruct (is_number r); discriminate.
  - destruct e as [| |m|m|m|m|m]; simpl; try discriminate.
    now destruct (N m).
  - discriminate.
Qed.

Lemma unknown_name_reported_as_type_error_witness :
  ("foo" ∉ math_dir_311)
  /\ safe_eval math_dir_311 no_ext (lit "foo(1)")
     = Returns (None, Some "Error: 'NoneType' object is not subscriptable").
Proof.
  assert (H : "foo" ∉ math_dir_311).
  { now apply not_in_by_eqb. }
  split; [exact H|].
  exact (proj1 (unknown_name_reported_as_type_error math_dir_311 no_ext H)).
Defined.

Local Close Scope string_scope.
Local Open Scope char_scope.

(** ** One percent pass, occurrence by occurrence *)

(** A match that is found in [s] is found in [s] followed by any text. *)
Lemma pct_at_extends s l rest (X : str) :
  pct_at s = Some (l, rest) -> pct_at (s ++ X) = Some (l, rest ++ X).
Proof.
  intros H. destruct (pct_at_split _ _ _ H) as (ws & Hl & Hws & ->).
  rewrite <- !app_assoc. simpl. now apply pct_at_complete.
Qed.

(** The pass over [p ++ X] is the pass over [p] followed by the pass over
    [X], when no match that starts in [p] reaches into [X]. *)
Lemma sub_percent_app (X : str) : forall p : str,
  (forall u v l rest,
     p = u ++ v -> v <> [] -> pct_at (v ++ X) = Some (l, rest) ->
     exists r, rest = r ++ X /\ pct_at v = Some (l, r)) ->
  sub_percent (p ++ X) = sub_percent p ++ sub_percent X.
Proof.
  intros p. remember (length p) as n eqn:Hn. revert p Hn.
  induction n as [n IH] using lt_wf_ind. intros p Hn H.
  destruct p as [|c t]; [reflexivity|].
  destruct (pct_at ((c :: t) ++ X)) as [[l rest]|] eqn:E.
  - destruct (H [] (c :: t) l rest eq_refl ltac:(discriminate) E)
      as (r & -> & P).
    rewrite (sub_percent_some _ _ _ E), (sub_percent_some _ _ _ P).
    destruct (pct_at_split _ _ _ P) as (ws & Hl & Hws & Es).
    rewrite (IH (length r)); [now rewrite <- !app_assoc| |reflexivity|].
    + subst n. rewrite Es, !length_app. simpl. lia.
    + intros u v l' rest' Er Hv E'.
      apply (H ((l ++ ws ++ ["%"]) ++ u) v); [|exact Hv|exact E'].
      rewrite Es, Er, <- !app_assoc. reflexivity.
  - assert (P : pct_at (c :: t) = None).
    { destruct (pct_at (c :: t)) as [[l r]|] eqn:P; [|reflexivity].
      rewrite (pct_at_extends _ _ _ X P) in E. discriminate. }
    change ((c :: t) ++ X) with (c :: (t ++ X)) in *.
    rewrite (sub_percent_none _ _ E), (sub_percent_none _ _ P).
    simpl. f_equal. apply (IH (length t)); [subst n; simpl; lia|reflexivity|].
    intros u v l rest Et Hv E'. apply (H (c :: u) v); [|exact Hv|exact E'].
    now rewrite Et.
Qed.

(** A match that starts in [v] and is found in [v ++ X], where [X] starts
    with a block [b] of literal and white-space characters and a [%]: either
    it lies inside [v], or its literal and white space are [v ++ b]. *)
Lemma pct_at_reach (v b q l rest : str) :
  forallb literal_or_space b = true ->
  pct_at (v ++ b ++ "%" :: q) = Some (l, rest) ->
  (exists r, rest = r ++ b ++ "%" :: q /\ pct_at v = Some (l, r))
  \/ (exists ws, forallb is_space ws = true /\ decimal_literal l = true
                 /\ v ++ b = l ++ ws).
Proof.
  intros Hb E. destruct (pct_at_split _ _ _ E) as (ws & Hl & Hws & Es).
  assert (Hlw : forallb literal_or_space (l ++ ws) = true).
  { now rewrite forallb_app, (decimal_literal_chars _ Hl), (spaces_chars _ Hws). }
  assert (Es' : v ++ b ++ "%" :: q = (l ++ ws) ++ "%" :: rest)
    by (now rewrite Es, <- app_assoc).
  pose proof (run_after literal_or_space v) as R.
  destruct (after literal_or_space v) as [|y r] eqn:A.
  - right. exists ws. split; [exact Hws|]. split; [exact Hl|].
    apply after_nil_all in A.
    assert (Hvb : forallb literal_or_space (v ++ b) = true)
      by (now rewrite forallb_app, A, Hb).
    rewrite app_assoc in Es'.
    now destruct (split_at_first_outside literal_or_space _ "%" q _ "%" rest
                    Hvb eq_refl Hlw eq_refl Es') as (Q & _ & _).
  - left. pose proof (after_stops literal_or_space v) as S.
    rewrite A in S. simpl in S.
    assert (Es2 : run literal_or_space v ++ y :: (r ++ b ++ "%" :: q)
                  = (l ++ ws) ++ "%" :: rest).
    { rewrite <- Es'. rewrite <- R at 2. now rewrite <- app_assoc. }
    destruct (split_at_first_outside literal_or_space _ y
                (r ++ b ++ "%" :: q) _ "%" rest
                (run_all _ _) S Hlw eq_refl Es2) as (Q1 & -> & Q3).
    exists r. split; [now rewrite Q3|].
    rewrite <- R, Q1, <- app_assoc. now apply pct_at_complete.
Qed.

Lemma forallb_rev (p : ascii -> bool) (s : str) :
  forallb p (rev s) = forallb p s.
Proof.
  induction s as [|c s IH]; [reflexivity|]. simpl.
  rewrite forallb_app, IH. simpl. rewrite andb_true_r. apply andb_comm.
Qed.

(** Literals followed by white space: the literal is determined. *)
Lemma literal_spaces_inj (a b ws ws' : str) :
  ends_with is_digit a = true -> ends_with is_digit b = true ->
  forallb is_space ws = true -> forallb is_space ws' = true ->
  a ++ ws = b ++ ws' -> a = b /\ ws = ws'.
Proof.
  unfold ends_with. intros Ha Hb Hw Hw' E.
  apply (f_equal (@rev ascii)) in E. rewrite !rev_app_distr in E.
  destruct (rev a) as [|x ra] eqn:Ra; [discriminate|].
  destruct (rev b) as [|y rb] eqn:Rb; [discriminate|].
  simpl in Ha, Hb.
  assert (Sx : is_space x = false) by (now apply digit_not_space).
  assert (Sy : is_space y = false) by (now apply digit_not_space).
  assert (Rw : forallb is_space (rev ws) = true) by (now rewrite forallb_rev).
  assert (Rw' : forallb is_space (rev ws') = true) by (now rewrite forallb_rev).
  destruct (split_at_first_outside is_space _ x ra _ y rb Rw Sx Rw' Sy E)
    as (Q1 & Q2 & Q3).
  split.
  - rewrite <- (rev_involutive a), <- (rev_involutive b), Ra, Rb. congruence.
  - rewrite <- (rev_involutive ws), <- (rev_involutive ws'). congruence.
Qed.

(** Among the literals that end where a given literal ends, the longest. *)
Lemma longest_literal (l : str) : forall p : str,
  decimal_literal l = true ->
  exists p' n,
    p ++ l = p' ++ n /\ decimal_literal n = true
    /\ (forall u v, p' = u ++ v -> v <> [] -> decimal_literal (v ++ n) = false).
Proof.
  induction p as [|c t IH]; intros Hl.
  - exists [], l. split; [reflexivity|]. split; [exact Hl|].
    intros u v E Hv. symmetry in E. apply app_eq_nil in E as [_ E]. congruence.
  - destruct (decimal_literal ((c :: t) ++ l)) eqn:D.
    + exists [], ((c :: t) ++ l). split; [reflexivity|]. split; [exact D|].
      intros u v E Hv. symmetry in E. apply app_eq_nil in E as [_ E]. congruence.
    + destruct (IH Hl) as (p' & n & E & Hn & M).
      exists (c :: p'), n. split; [simpl; now rewrite E|]. split; [exact Hn|].
      intros [|a u] v Ev Hv.
      * simpl in Ev. subst v. simpl. rewrite <- E. exact D.
      * injection Ev as _ Ev. now apply (M u v).
Qed.

Lemma sub_percent_percent (q : str) :
  sub_percent ("%" :: q) = "%" :: sub_percent q.
Proof. apply sub_percent_none, pct_at_not_digit. reflexivity. Qed.

Lemma ends_with_forallb (p : ascii -> bool) (s : str) :
  s <> [] -> forallb p s = true -> ends_with p s = true.
Proof.
  intros Hs H. unfold ends_with. rewrite <- forallb_rev in H.
  destruct (rev s) as [|x r] eqn:R.
  - apply (f_equal (@rev ascii)) in R. rewrite rev_involutive in R. now subst.
  - simpl in *. now apply andb_prop in H as [H _].
Qed.

Lemma ends_with_weaken (p q : ascii -> bool) (s : str) :
  (forall c, p c = true -> q c = true) ->
  ends_with p s = true -> ends_with q s = true.
Proof.
  unfold ends_with. intros H. destruct (rev s) as [|x r]; simpl; [easy|].
  apply H.
Qed.

Lemma decimal_literal_digit_or_point l :
  decimal_literal l = true -> forallb digit_or_point l = true.
Proof.
  intros H. destruct (decimal_literal_shape l H) as (ip & _ & Hip & Hs).
  assert (D : forall u : str, forallb is_digit u = true ->
                              forallb digit_or_point u = true).
  { intros u. apply forallb_weaken. intros c Hc. unfold digit_or_point.
    now rewrite Hc. }
  destruct Hs as [->|(fp & _ & Hfp & ->)]; [now apply D|].
  rewrite forallb_app. simpl. rewrite (D _ Hip), (D _ Hfp). reflexivity.
Qed.

(** A literal that follows a character other than a digit or a point is the
    longest literal that ends where it ends. *)
Lemma longest_after (p n : str) :
  ends_with digit_or_point p = false ->
  forall u v, p = u ++ v -> v <> [] -> decimal_literal (v ++ n) = false.
Proof.
  intros Hp u v -> Hv.
  destruct (decimal_literal (v ++ n)) eqn:D; [|reflexivity].
  apply decimal_literal_digit_or_point in D. rewrite forallb_app in D.
  apply andb_prop in D as [D _].
  rewrite ends_with_app in Hp by exact Hv.
  now rewrite (ends_with_forallb _ _ Hv D) in Hp.
Qed.

(** Text that ends with a character other than a digit or white space does
    not end with a literal and optional white space. *)
Lemma no_literal_before (p : str) :
  ends_with digit_or_space p = false ->
  forall u l ws, p = u ++ l ++ ws -> decimal_literal l = true ->
                 forallb is_space ws = true -> False.
Proof.
  intros Hp u l ws -> Hl Hws.
  assert (Hne : l ++ ws <> []) by (destruct l; [discriminate | discriminate]).
  rewrite ends_with_app in Hp by exact Hne.
  destruct ws as [|w ws'].
  - rewrite app_nil_r in Hp.
    rewrite (ends_with_weaken is_digit digit_or_space l) in Hp;
      [discriminate| |now apply decimal_literal_ends].
    intros c Hc. unfold digit_or_space. now rewrite Hc.
  - rewrite ends_with_app in Hp by discriminate.
    rewrite (ends_with_weaken is_space digit_or_space (w :: ws')) in Hp;
      [discriminate| |now apply ends_with_forallb].
    intros c Hc. unfold digit_or_space. now rewrite Hc, orb_true_r.
Qed.

(** C7, as amended.  The percent rule applies to a numeric literal (digits,
    optionally followed by a point and more digits) that is followed, after
    optional white space, by [%]: whatever stands before and after,
    - a literal [n] followed by optional white space and [%] becomes
      [(n/100)], [n] being the longest literal that ends there (the literal
      the pattern matches), and the text before and the text after are
      rewritten on their own;
    - a [%] that is not preceded by a literal and optional white space is
      left as it is, the text before and after it being rewritten on their
      own;
    - every literal is the end of a longest literal, so that one of the two
      cases applies to every [%] of every input;
    - a string in which no [%] follows a literal and optional white space
      is left as it is. *)
Theorem percent_rule_scope :
  (forall p n ws q : str,
     decimal_literal n = true -> forallb is_space ws = true ->
     (forall u v, p = u ++ v -> v <> [] -> decimal_literal (v ++ n) = false) ->
     sub_percent (p ++ n ++ ws ++ "%" :: q)
     = sub_percent p ++ lit "(" ++ n ++ lit "/100)" ++ sub_percent q)
  /\ (forall p q : str,
        (forall u l ws, p = u ++ l ++ ws -> decimal_literal l = true ->
                        forallb is_space ws = true -> False) ->
        sub_percent (p ++ "%" :: q) = sub_percent p ++ "%" :: sub_percent q)
  /\ (forall p l : str,
        decimal_literal l = true ->
        exists p' n,
          p ++ l = p' ++ n /\ decimal_literal n = true
          /\ (forall u v, p' = u ++ v -> v <> [] ->
                          decimal_literal (v ++ n) = false))
  /\ (forall n : str,
        decimal_literal n = true ->
        sub_percent (n ++ lit "%") = lit "(" ++ n ++ lit "/100)")
  /\ (forall s : str,
        (forall p l ws q : str,
           s = p ++ l ++ ws ++ "%" :: q -> decimal_literal l = true ->
           forallb is_space ws = true -> False) ->
        sub_percent s = s).
Proof.
  split; [|split; [|split; [|split]]].
  - intros p n ws q Hn Hws M.
    rewrite sub_percent_app.
    + now rewrite (sub_percent_at_literal n ws q Hn Hws).
    + intros u v l rest Ep Hv E.
      assert (Hb : forallb literal_or_space (n ++ ws) = true).
      { now rewrite forallb_app, (decimal_literal_chars _ Hn),
          (spaces_chars _ Hws). }
      replace (v ++ n ++ ws ++ "%" :: q) with (v ++ (n ++ ws) ++ "%" :: q) in E
        by (now rewrite <- (app_assoc n ws)).
      destruct (pct_at_reach v (n ++ ws) q l rest Hb E)
        as [(r & -> & P) | (ws' & Hws' & Hl & Q)].
      * exists r. split; [now rewrite <- (app_assoc n ws)|exact P].
      * exfalso. rewrite app_assoc in Q.
        assert (Hn' : n <> []) by (destruct n; [discriminate|discriminate]).
        destruct (literal_spaces_inj (v ++ n) l ws ws') as [Q1 _];
          try assumption.
        -- rewrite ends_with_app by exact Hn'. now apply decimal_literal_ends.
        -- now apply decimal_literal_ends.
        -- rewrite <- Q1, (M u v Ep Hv) in Hl. discriminate.
  - intros p q N.
    rewrite sub_percent_app; [now rewrite sub_percent_percent|].
    intros u v l rest Ep Hv E.
    destruct (pct_at_reach v [] q l rest eq_refl E)
      as [(r & -> & P) | (ws' & Hws' & Hl & Q)].
    + exists r. split; [reflexivity|exact P].
    + exfalso. rewrite app_nil_r in Q. apply (N u l ws'); try assumption.
      now rewrite Ep, Q.
  - intros p l Hl. now apply longest_literal.
  - intros n Hn. change (n ++ lit "%") with (n ++ [] ++ "%" :: []).
    rewrite (sub_percent_at_literal n [] [] Hn eq_refl).
    change (sub_percent []) with (@nil ascii). now rewrite app_nil_r.
  - intros s N. now apply sub_percent_fixed, no_site_pli_false.
Qed.

Lemma percent_rule_scope_witness :
  sub_percent (lit "1+5%") = lit "1+(5/100)"
  /\ sub_percent (lit "x% + 5 %") = lit "x% + (5/100)"
  /\ sub_percent (lit "1.2.5%") = lit "1.(2.5/100)".
Proof.
  destruct percent_rule_scope as (A & B & _).
  split; [|split].
  - change (lit "1+5%") with (lit "1+" ++ lit "5" ++ [] ++ "%" :: []).
    rewrite (A (lit "1+") (lit "5") [] [] eq_refl eq_refl
               (longest_after (lit "1+") (lit "5") eq_refl)).
    reflexivity.
  - change (lit "x% + 5 %") with (lit "x" ++ "%" :: lit " + 5 %").
    rewrite (B (lit "x") (lit " + 5 %") (no_literal_before (lit "x") eq_refl)).
    change (lit " + 5 %") with (lit " + " ++ lit "5" ++ lit " " ++ "%" :: []).
    rewrite (A (lit " + ") (lit "5") (lit " ") [] eq_refl eq_refl
               (longest_after (lit " + ") (lit "5") eq_refl)).
    reflexivity.
  - change (lit "1.2.5%") with (lit "1." ++ lit "2.5" ++ [] ++ "%" :: []).
    rewrite (A (lit "1.") (lit "2.5") [] []); [reflexivity..|].
    intros u v E Hv. change (lit "1.") with ["1"; "."] in E.
    destruct u as [|a u]; simpl in E; [now subst v|].
    injection E as _ E.
    destruct u as [|b u]; simpl in E; [now subst v|].
    injection E as _ E.
    destruct u; simpl in E; [now subst v | discriminate].
Defined.

(** C7, as stated, fails.  In ["50 %"] the [%] is not directly preceded by
    a numeric literal (a space stands between), yet the rule rewrites it;
    and in ["5.%"] the digit sequence with one point ["5."] stands directly
    before the [%], yet the rule leaves it. *)
Lemma percent_after_space_rewritten :
  ~ (forall p q : str,
       (forall u l : str, p = u ++ l -> decimal_literal l = true -> False) ->
       sub_percent (p ++ "%" :: q) = sub_percent p ++ "%" :: sub_percent q)
  /\ sub_percent (lit "50 %") = lit "(50/100)"
  /\ sub_percent (lit "5.%") = lit "5.%".
Proof.
  split; [|split; reflexivity].
  intros H. specialize (H (lit "50 ") []).
  assert (E : sub_percent (lit "50 " ++ "%" :: []) = lit "(50/100)")
    by reflexivity.
  rewrite E in H. discriminate H.
  intros u l Ep Hl.
  apply (no_digit_percent_no_literal (lit "50 " ++ lit "%") u l [] eq_refl);
    [|exact Hl].
  now rewrite Ep, <- app_assoc.
Qed.

(** C8.  [preprocess_expression] is idempotent. *)
Theorem preprocess_expression_idempotent (s : str) :
  preprocess_expression (preprocess_expression s) = preprocess_expression s.
Proof. apply preprocess_twice. Qed.

Local Close Scope char_scope.
Local Open Scope string_scope.

Lemma load_history_returns username d histories :
  load_json_file d = Returns histories ->
  load_history username d = Returns (default [] (histories !! username)).
Proof. intros H. unfold load_history. now rewrite H. Qed.

Lemma append_history_returns username entry d r :
  append_history username entry d = Returns r ->
  exists histories,
    load_json_file d = Returns histories
    /\ r = save_json_file (appended username entry histories) d.
Proof.
  unfold append_history.
  destruct (load_json_file d) as [histories| |]; simpl; try discriminate.
  intros [= <-]. eauto.
Qed.

Lemma save_json_file_true data d d' :
  save_json_file data d = (true, d') ->
  d' = {| history_file := Json data; writable := true |}.
Proof.
  unfold save_json_file. destruct (writable d) eqn:W; [|discriminate].
  now intros [= <-].
Qed.

(** C9.  [append_history] hands to the file a dictionary in which the
    user's list is the new entry followed by the old entries, cut to
    [MAX_HISTORY] = 100; when the save succeeds, [load_history] returns
    that list: the new entry first, the older ones after it in their
    order, at most 100 in all, and the other users' lists as they were. *)
Theorem append_history_newest_first (username : string)
    (entry : CalculationEntry) (d d' : disk)
    (Hsaved : append_history username entry d = Returns (true, d')) :
  exists histories old new,
    load_json_file d = Returns histories
    /\ load_history username d = Returns old
    /\ load_history username d' = Returns new
    /\ appended username entry histories !! username
       = Some (take MAX_HISTORY (to_dict entry :: old))
    /\ new = take MAX_HISTORY (to_dict entry :: old)
    /\ head new = Some (to_dict entry)
    /\ length new <= 100
    /\ (forall u, u <> username -> load_history u d' = load_history u d).
Proof.
  apply append_history_returns in Hsaved as (histories & Hl & Hs).
  symmetry in Hs. apply save_json_file_true in Hs.
  assert (L' : load_json_file d' = Returns (appended username entry histories))
    by (now rewrite Hs).
  exists histories, (default [] (histories !! username)),
    (take MAX_HISTORY (to_dict entry :: default [] (histories !! username))).
  split; [exact Hl|]. split; [now apply load_history_returns|]. split.
  { rewrite (load_history_returns _ _ _ L'). now rewrite appended_lookup. }
  split; [apply appended_lookup|]. split; [reflexivity|].
  split; [reflexivity|]. split.
  - rewrite length_take. unfold MAX_HISTORY. lia.
  - intros u Hu. rewrite (load_history_returns _ _ _ L'),
      (load_history_returns _ _ _ Hl). now rewrite appended_other.
Qed.

Lemma append_history_newest_first_witness :
  let e1 := {| expr_ := "1+1"; result_ := "2"; timestamp := "t1" |} in
  let e2 := {| expr_ := "2*3"; result_ := "6"; timestamp := "t2" |} in
  let d0 := {| history_file := Json {["ann" := [to_dict e1]]};
               writable := true |} in
  let d1 := {| history_file := Json {["ann" := [to_dict e2; to_dict e1]]};
               writable := true |} in
  append_history "ann" e2 d0 = Returns (true, d1)
  /\ load_history "ann" d1 = Returns [to_dict e2; to_dict e1].
Proof.
  intros e1 e2 d0 d1.
  assert (H : append_history "ann" e2 d0 = Returns (true, d1))
    by (vm_compute; reflexivity).
  split; [exact H|].
  destruct (append_history_newest_first "ann" e2 d0 d1 H)
    as (histories & old & new & _ & Ho & Hn & _ & E & _).
  assert (O : load_history "ann" d0 = Returns [to_dict e1])
    by (vm_compute; reflexivity).
  rewrite O in Ho. injection Ho as <-.
  rewrite Hn, E. reflexivity.
Defined.

(** C10.  When [eval] returns a boolean, as for the comparison ["2>1"],
    [safe_eval] returns that boolean as a successful result, not the
    message ["Result is not a number"]. *)
Theorem boolean_result_returned (math_dir : list string)
    (math_ext : string -> list value -> outcome value) (s : str) (b : bool)
    (Hev : py_eval math_ext (preprocess_expression s) (safe_dict math_dir)
           = Returns (VBool b)) :
  safe_eval math_dir math_ext s = Returns (Some (VBool b), None)
  /\ safe_eval math_dir math_ext (lit "2>1") = Returns (Some (VBool true), None).
Proof.
  split; [now rewrite (safe_eval_returns _ _ _ _ Hev) | apply safe_eval_2_gt_1].
Qed.

Lemma boolean_result_returned_witness :
  py_eval no_ext (preprocess_expression (lit "1 < 2.5 <= 2"))
    (safe_dict math_dir_311)
  = Returns (VBool false)
  /\ safe_eval math_dir_311 no_ext (lit "1 < 2.5 <= 2")
     = Returns (Some (VBool false), None).
Proof.
  assert (H : py_eval no_ext (preprocess_expression (lit "1 < 2.5 <= 2"))
                (safe_dict math_dir_311)
              = Returns (VBool false)) by (vm_compute; reflexivity).
  split; [exact H|].
  exact (proj1 (boolean_result_returned math_dir_311 no_ext _ false H)).
Defined.

(** ** Accounts *)

Local Close Scope string_scope.
Local Open Scope char_scope.

(** A greedy run followed by [k] succeeds exactly when some prefix inside
    the class leaves a rest on which [k] succeeds. *)
Lemma star_k_is_Some p (s : str) (k : str -> mres) :
  is_Some (star_k p s k)
  <-> exists u v : str, s = u ++ v /\ forallb p u = true /\ is_Some (k v).
Proof.
  induction s as [|c t IH]; simpl.
  - split.
    + intros H. now exists [], [].
    + intros (u & v & E & _ & H). symmetry in E.
      apply app_eq_nil in E as [_ ->]. exact H.
  - destruct (p c) eqn:Pc.
    + destruct (star_k p t k) as [r|] eqn:St.
      * split; [intros _|intros _; eauto].
        destruct (proj1 IH (ltac:(eauto))) as (u & v & -> & Hu & Hk).
        exists (c :: u), v. simpl. rewrite Pc, Hu. auto.
      * split.
        -- intros H. now exists [], (c :: t).
        -- intros (u & v & E & Hu & Hk). destruct u as [|x u].
           ++ simpl in E. now subst v.
           ++ simpl in E. injection E as -> ->. simpl in Hu.
              apply andb_prop in Hu as [_ Hu].
              assert (X : is_Some (@None (str * captures))); [|now destruct X].
              apply IH. eauto 6.
    + split.
      * intros H. now exists [], (c :: t).
      * intros (u & v & E & Hu & Hk). destruct u as [|x u].
        -- simpl in E. now subst v.
        -- simpl in E. injection E as -> ->. simpl in Hu.
           apply andb_prop in Hu as [Hu _]. congruence.
Qed.

Lemma code_inj_at (c : ascii) (n : N) :
  (n < 256)%N -> (code c =? n)%N = true -> c = ascii_of_N n.
Proof.
  intros Hn H. apply N.eqb_eq in H. unfold code in H.
  rewrite <- H. now rewrite ascii_N_embedding.
Qed.

Lemma at_dollar_spec (s : str) :
  at_dollar s = true <-> s = [] \/ s = ["010"].
Proof.
  destruct s as [|c [|c' t]]; simpl.
  - intuition.
  - split.
    + intros H. right. now rewrite (code_inj_at c 10 eq_refl H).
    + intros [H|H]; [discriminate|]. now injection H as ->.
  - split; [discriminate|]. intros [H|H]; discriminate.
Qed.

Lemma re_username_spec (s : str) :
  is_Some (re_username s)
  <-> exists w : str, w <> [] /\ forallb is_word w = true
                      /\ (s = w \/ s = w ++ ["010"]).
Proof.
  unfold re_username. simpl. split.
  - destruct s as [|x t]; [intros [? H]; discriminate|].
    destruct (is_word x) eqn:Wx; [|intros [? H]; discriminate].
    intros H. apply star_k_is_Some in H as (u & v & -> & Hu & Hk).
    exists (x :: u). split; [discriminate|]. split.
    { simpl. now rewrite Wx. }
    destruct (at_dollar v) eqn:D; [|now destruct Hk].
    apply at_dollar_spec in D as [-> | ->].
    + left. now rewrite app_nil_r.
    + now right.
  - intros (w & Hne & Hw & E). destruct w as [|x u]; [congruence|].
    simpl in Hw. apply andb_prop in Hw as [Wx Hu].
    assert (Es : exists v, s = x :: u ++ v /\ at_dollar v = true).
    { destruct E as [-> | ->].
      - exists []. now rewrite app_nil_r.
      - now exists ["010"]. }
    destruct Es as (v & -> & D). rewrite Wx. apply star_k_is_Some.
    exists u, v. rewrite D. eauto.
Qed.

Lemma newline_is_space : is_space "010" = true.
Proof. reflexivity. Qed.

Lemma word_not_space c : is_word c = true -> is_space c = false.
Proof. by_cases_on c. Qed.

Lemma strip_strip s : strip (strip s) = strip s.
Proof. apply strip_fixed, strip_trimmed. Qed.

Lemma trimmed_no_newline (w : str) : ~ trimmed (w ++ ["010"]).
Proof.
  intros [_ H]. rewrite ends_with_app in H by discriminate. discriminate.
Qed.

Lemma validate_username_true (username : str) :
  fst (validate_username username) = true
  <-> validate_username username = (true, ""%string).
Proof.
  unfold validate_username.
  destruct (length username <? 3)%nat; [split; discriminate|].
  destruct (20 <? length username)%nat; [split; discriminate|].
  destruct (re_username username); [tauto | split; discriminate].
Qed.

Lemma validate_username_spec (username : str) :
  validate_username username = (true, ""%string)
  <-> (3 <= length username <= 20)%nat
      /\ exists w : str, w <> [] /\ forallb is_word w = true
           /\ (username = w \/ username = w ++ ["010"]).
Proof.
  unfold validate_username.
  destruct (Nat.ltb_spec (length username) 3) as [L|L].
  { split; [discriminate | intros [? _]; lia]. }
  destruct (Nat.ltb_spec 20 (length username)) as [U|U].
  { split; [discriminate | intros [? _]; lia]. }
  pose proof (re_username_spec username) as R.
  destruct (re_username username) as [r|].
  - split; [intros _|reflexivity]. split; [lia|]. apply R. eauto.
  - split; [discriminate|]. intros [_ H]. apply R in H. now destruct H.
Qed.

(** X1.  [validate_username] accepts exactly the names of 3 to 20
    characters made of ASCII letters, digits and underscores, or of such
    characters followed by one final line feed: the [$] of the pattern also
    matches before a line feed that ends the string. *)
Theorem validate_username_accepts (username : str) :
  (validate_username username = (true, ""%string)
   <-> (3 <= length username <= 20)%nat
       /\ exists w : str, w <> [] /\ forallb is_word w = true
            /\ (username = w \/ username = w ++ ["010"]))
  /\ (fst (validate_username username) = false
      <-> validate_username username <> (true, ""%string)).
Proof.
  split; [apply validate_username_spec|].
  pose proof (validate_username_true username) as T.
  destruct (validate_username username) as [[] m]; simpl in *.
  - split; [discriminate|]. intros H. destruct H. now apply T.
  - split; [intros _ H; discriminate | reflexivity].
Qed.

Local Close Scope char_scope.
Local Open Scope string_scope.

Arguments hash_password : simpl never.

Lemma string_of_list_ascii_inj (a b : list ascii) :
  string_of_list_ascii a = string_of_list_ascii b -> a = b.
Proof.
  intros H. apply (f_equal list_ascii_of_string) in H.
  now rewrite !list_ascii_of_string_of_list_ascii in H.
Qed.

Lemma create_user_true now username password d msg d' :
  create_user now username password d = Returns ((true, msg), d') ->
  exists users,
    Users.load_json_file d = Returns users
    /\ validate_username (strip username) = (true, "")
    /\ (6 <= length password)%nat
    /\ users !! string_of_list_ascii (strip username) = None
    /\ msg = "Account created successfully! You can now log in."
    /\ d' = {| Users.users_file :=
                 Users.Json
                   (<[string_of_list_ascii (strip username) :=
                        User.to_dict
                          {| User.username :=
                               string_of_list_ascii (strip username);
                             User.password_hash := hash_password password;
                             User.created_at := now |}]> users);
               Users.writable := true |}.
Proof.
  unfold create_user, validate_password.
  pose proof (validate_username_true (strip username)) as T.
  destruct (validate_username (strip username)) as [[] m]; simpl;
    [|discriminate].
  destruct (Nat.ltb_spec (length password) 6) as [L|L]; simpl;
    [discriminate|].
  destruct (Users.load_json_file d) as [users| |]; simpl; try discriminate.
  destruct (users !! string_of_list_ascii (strip username)) eqn:K;
    simpl; [discriminate|].
  unfold Users.save_json_file.
  destruct (Users.writable d); simpl; [|discriminate].
  intros [= <- <-]. exists users. split; [reflexivity|].
  split; [now apply T|]. auto.
Qed.

Lemma forallb_word_trimmed (name w : str) :
  trimmed name -> forallb is_word w = true ->
  name = w \/ name = (w ++ ["010"%char])%list -> forallb is_word name = true.
Proof.
  intros Ht Hw [-> | ->]; [exact Hw|]. now apply trimmed_no_newline in Ht.
Qed.

(** X2.  When [create_user] succeeds, the stripped user name has 3 to 20
    characters, all of them ASCII letters, digits or underscores (no line
    feed: it was stripped), the password has at least 6 characters, the name
    was not registered before, and the users file now holds the old accounts
    together with the new one, whose fields are the password's hash and the
    creation time. *)
Theorem create_user_stores (now : string) (username password : str)
    (d d' : Users.disk) (msg : string)
    (Hok : create_user now username password d = Returns ((true, msg), d')) :
  let name := strip username in
  let key := string_of_list_ascii name in
  exists users users',
    Users.load_json_file d = Returns users
    /\ Users.load_json_file d' = Returns users'
    /\ (3 <= length name <= 20)%nat
    /\ forallb is_word name = true
    /\ (6 <= length password)%nat
    /\ users !! key = None
    /\ users'
       = <[key := User.to_dict {| User.username := key;
                                  User.password_hash := hash_password password;
                                  User.created_at := now |}]> users
    /\ users' !! key
       = Some {[ "password" := hash_password password; "created_at" := now ]}
    /\ (forall u, u <> key -> users' !! u = users !! u).
Proof.
  intros name key.
  destruct (create_user_true _ _ _ _ _ _ Hok) as (users & U & V & P & N & _ & E).
  apply validate_username_spec in V as (L & w & _ & Hw & Hs).
  exists users. eexists. split; [exact U|]. split; [now rewrite E|].
  split; [exact L|]. split.
  { exact (forallb_word_trimmed _ w (strip_trimmed username) Hw Hs). }
  split; [exact P|]. split; [exact N|]. split; [reflexivity|]. split.
  - rewrite lookup_insert_eq. reflexivity.
  - intros u Hu. now rewrite lookup_insert_ne.
Qed.

Lemma create_user_stores_witness :
  let d0 := {| Users.users_file := Users.Absent; Users.writable := true |} in
  let account : gmap string string :=
    {[ "password" :=
         "5b11618c2e44027877d0cd0921ed166b9f176f50587fc91e7534dd2946db77d6";
       "created_at" := "2024-01-01T00:00:00" ]} in
  let d1 := {| Users.users_file := Users.Json {[ "ann_01" := account ]};
               Users.writable := true |} in
  create_user "2024-01-01T00:00:00" (lit "  ann_01 ") (lit "secret1") d0
  = Returns ((true, "Account created successfully! You can now log in."), d1)
  /\ exists users',
       Users.load_json_file d1 = Returns users'
       /\ users' !! "ann_01"
          = Some {[ "password" := hash_password (lit "secret1");
                    "created_at" := "2024-01-01T00:00:00" ]}.
Proof.
  intros d0 account d1.
  assert (H : create_user "2024-01-01T00:00:00" (lit "  ann_01 ")
                (lit "secret1") d0
              = Returns ((true,
                          "Account created successfully! You can now log in."),
                         d1))
    by (vm_compute; reflexivity).
  split; [exact H|].
  destruct (create_user_stores _ _ _ _ _ _ H)
    as (users & users' & _ & L & _ & _ & _ & _ & _ & S & _).
  exists users'. split; [exact L | exact S].
Defined.

Lemma authenticate_user_lookup username password d users account :
  Users.load_json_file d = Returns users ->
  users !! string_of_list_ascii (strip username) = Some account ->
  authenticate_user username password d
  = Returns (bool_decide (account !! "password"
                          = Some (hash_password password))).
Proof. intros L H. unfold authenticate_user. rewrite L. simpl. now rewrite H. Qed.

(** X3.  After a successful [create_user username password], logging in
    under any spelling of the name that strips to the same text succeeds
    with a password exactly when its hash is the stored one; in particular
    with the password the account was created with. *)
Theorem create_then_authenticate (now : string) (username password : str)
    (d d' : Users.disk) (msg : string)
    (Hok : create_user now username password d = Returns ((true, msg), d')) :
  (forall username' password',
     strip username' = strip username ->
     authenticate_user username' password' d'
     = Returns (bool_decide (hash_password password' = hash_password password)))
  /\ authenticate_user username password d' = Returns true
  /\ authenticate_user (strip username) password d' = Returns true.
Proof.
  destruct (create_user_true _ _ _ _ _ _ Hok) as (users & _ & _ & _ & _ & _ & E).
  assert (A : forall username' password',
     strip username' = strip username ->
     authenticate_user username' password' d'
     = Returns (bool_decide (hash_password password' = hash_password password))).
  { intros u' p' Hs. rewrite E.
    erewrite authenticate_user_lookup; [|reflexivity|].
    2:{ rewrite Hs. apply lookup_insert_eq. }
    unfold User.to_dict. simpl.
    rewrite lookup_insert_ne by discriminate. rewrite lookup_insert_eq.
    f_equal. apply bool_decide_ext. split; congruence. }
  split; [exact A|]. split.
  - rewrite A by reflexivity. f_equal. now apply bool_decide_eq_true.
  - rewrite A by apply strip_strip. f_equal. now apply bool_decide_eq_true.
Qed.

Lemma create_then_authenticate_witness :
  let d0 := {| Users.users_file := Users.Absent; Users.writable := true |} in
  let d1 := {| Users.users_file :=
                 Users.Json
                   {[ "bob_7" :=
                        {[ "password" := hash_password (lit "hunter22");
                           "created_at" := "t0" ]} ]};
               Users.writable := true |} in
  create_user "t0" (lit "bob_7") (lit "hunter22") d0
  = Returns ((true, "Account created successfully! You can now log in."), d1)
  /\ authenticate_user (lit " bob_7") (lit "hunter22") d1 = Returns true
  /\ authenticate_user (lit "bob_7") (lit "hunter23") d1 = Returns false.
Proof.
  intros d0 d1.
  assert (H : create_user "t0" (lit "bob_7") (lit "hunter22") d0
              = Returns ((true,
                          "Account created successfully! You can now log in."),
                         d1))
    by (vm_compute; reflexivity).
  split; [exact H|].
  destruct (create_then_authenticate _ _ _ _ _ _ H) as (A & _ & _).
  split.
  - rewrite (A (lit " bob_7") (lit "hunter22")) by (vm_compute; reflexivity).
    vm_compute. reflexivity.
  - rewrite (A (lit "bob_7") (lit "hunter23")) by (vm_compute; reflexivity).
    vm_compute. reflexivity.
Defined.

(** X4.  [create_user] on a name that is already registered (after
    stripping) fails and writes nothing: the users file, and with it the
    stored password, stays as it was. *)
Theorem create_user_existing_name (now : string) (username password : str)
    (d : Users.disk) (users : Users.users_t)
    (Hload : Users.load_json_file d = Returns users)
    (Hex : is_Some (users !! string_of_list_ascii (strip username))) :
  (exists msg,
     create_user now username password d = Returns ((false, msg), d))
  /\ (forall r d',
        create_user now username password d = Returns (r, d') ->
        fst r = false
        /\ d' = d
        /\ (forall u p, authenticate_user u p d' = authenticate_user u p d)).
Proof.
  assert (H : exists msg,
             create_user now username password d = Returns ((false, msg), d)).
  { unfold create_user.
    destruct (validate_username (strip username)) as [[] m]; simpl; [|eauto].
    destruct (validate_password password) as [[] m']; simpl; [|eauto].
    rewrite Hload. simpl. destruct Hex as [a ->]. eauto. }
  split; [exact H|].
  destruct H as (msg & H). intros r d' E. rewrite H in E.
  injection E as <- <-. auto.
Qed.

Lemma create_user_existing_name_witness :
  let d1 := {| Users.users_file :=
                 Users.Json
                   {[ "carol" :=
                        {[ "password" := hash_password (lit "first-pw");
                           "created_at" := "t0" ]} ]};
               Users.writable := true |} in
  (exists users,
     Users.load_json_file d1 = Returns users
     /\ is_Some (users !! string_of_list_ascii (strip (lit "carol "))))
  /\ create_user "t1" (lit "carol ") (lit "second-pw") d1
     = Returns ((false, "Username already exists"), d1).
Proof.
  intros d1.
  assert (L : Users.load_json_file d1
              = Returns {[ "carol" :=
                             {[ "password" := hash_password (lit "first-pw");
                                "created_at" := "t0" ]} ]}) by reflexivity.
  assert (H : is_Some (({[ "carol" :=
                             {[ "password" := hash_password (lit "first-pw");
                                "created_at" := "t0" ]} ]} : Users.users_t)
                       !! string_of_list_ascii (strip (lit "carol "))))
    by (vm_compute; eauto).
  split; [eexists; split; [exact L | exact H]|].
  destruct (create_user_existing_name "t1" (lit "carol ") (lit "second-pw")
              d1 _ L H) as [(msg & E) _].
  rewrite E. f_equal. f_equal. f_equal.
  assert (M : create_user "t1" (lit "carol ") (lit "second-pw") d1
              = Returns ((false, "Username already exists"), d1))
    by (vm_compute; reflexivity).
  rewrite M in E. congruence.
Defined.
(** ** Clearing and filling a history *)

Local Close Scope char_scope.
Local Open Scope string_scope.

Lemma save_json_file_writable data d :
  writable d = true ->
  save_json_file data d
  = (true, {| history_file := Json data; writable := true |}).
Proof. intros H. unfold save_json_file. now rewrite H. Qed.

Lemma load_json_file_decodable d :
  (forall msg, history_file d <> Undecodable msg) ->
  exists histories, load_json_file d = Returns histories.
Proof.
  intros H. unfold load_json_file.
  destruct (history_file d) as [| |msg|data]; eauto.
  now destruct (H msg).
Qed.


Lemma load_json_file_returns d histories :
  load_json_file d = Returns histories ->
  forall msg, history_file d <> Undecodable msg.
Proof.
  unfold load_json_file. intros H msg E. rewrite E in H. discriminate.
Qed.

Lemma clear_history_true username d d' :
  clear_history username d = Returns (true, d') ->
  exists histories,
    load_json_file d = Returns histories
    /\ load_json_file d' = Returns (delete username histories).
Proof.
  unfold clear_history.
  destruct (load_json_file d) as [histories| |] eqn:L; simpl;
    try discriminate.
  destruct (histories !! username) as [l|] eqn:K.
  - unfold save_json_file. destruct (writable d); simpl; [|discriminate].
    intros [= <-]. eauto.
  - intros [= <-]. exists histories. split; [reflexivity|].
    rewrite L. f_equal. symmetry. now apply delete_id.
Qed.

(** X5.  When [clear_history] returns [True], the user's history read
    back is empty and every other user's history is what it was.  For a
    user without a stored history it returns [True] without writing, so also
    when the file cannot be written. *)
Theorem clear_history_clears (username : string) (d d' : disk)
    (Hok : clear_history username d = Returns (true, d')) :
  load_history username d' = Returns []
  /\ (exists histories',
        load_json_file d' = Returns histories'
        /\ histories' !! username = None)
  /\ (forall u, u <> username -> load_history u d' = load_history u d)
  /\ (forall d0 histories0,
        load_json_file d0 = Returns histories0 ->
        histories0 !! username = None ->
        clear_history username d0 = Returns (true, d0)).
Proof.
  destruct (clear_history_true username d d' Hok) as (histories & L & L').
  split; [|split; [|split]].
  - rewrite (load_history_returns _ _ _ L'). now rewrite lookup_delete_eq.
  - eexists. split; [exact L'|]. apply lookup_delete_eq.
  - intros u Hu. rewrite (load_history_returns _ _ _ L'),
      (load_history_returns _ _ _ L). now rewrite lookup_delete_ne.
  - intros d0 histories0 L0 H. unfold clear_history. rewrite L0. simpl.
    now rewrite H.
Qed.

Lemma clear_history_clears_witness :
  let e1 := {| expr_ := "1+1"; result_ := "2"; timestamp := "t1" |} in
  let d0 := {| history_file := Json {["ann" := [to_dict e1];
                                      "bob" := [to_dict e1; to_dict e1]]};
               writable := true |} in
  let d1 := {| history_file := Json {["bob" := [to_dict e1; to_dict e1]]};
               writable := true |} in
  clear_history "ann" d0 = Returns (true, d1)
  /\ load_history "ann" d1 = Returns []
  /\ load_history "bob" d1 = Returns [to_dict e1; to_dict e1].
Proof.
  intros e1 d0 d1.
  assert (H : clear_history "ann" d0 = Returns (true, d1))
    by (vm_compute; reflexivity).
  destruct (clear_history_clears "ann" d0 d1 H) as (A & _ & B & _).
  split; [exact H|]. split; [exact A|].
  rewrite (B "bob") by discriminate. vm_compute. reflexivity.
Defined.

Lemma append_history_writable username entry d histories :
  load_json_file d = Returns histories ->
  writable d = true ->
  append_history username entry d
  = Returns (true, {| history_file := Json (appended username entry histories);
                      writable := true |}).
Proof.
  intros L H. unfold append_history. rewrite L. simpl.
  now rewrite save_json_file_writable.
Qed.

Lemma take_app_take {A} (n k : nat) (l m : list A) :
  n <= k -> take n (l ++ take k m)%list = take n (l ++ m)%list.
Proof.
  revert n. induction l as [|x l IH]; intros n Hn; simpl.
  - rewrite take_take. f_equal. lia.
  - destruct n as [|n]; [reflexivity|]. simpl. f_equal. apply IH. lia.
Qed.

(** One append on a writable file that can be decoded. *)
Lemma append_history_step username entry d :
  (forall msg, history_file d <> Undecodable msg) ->
  writable d = true ->
  exists d' old,
    append_history username entry d = Returns (true, d')
    /\ writable d' = true
    /\ (forall msg, history_file d' <> Undecodable msg)
    /\ load_history username d = Returns old
    /\ load_history username d'
       = Returns (take MAX_HISTORY (to_dict entry :: old))
    /\ (forall u, u <> username -> load_history u d' = load_history u d).
Proof.
  intros F W. destruct (load_json_file_decodable d F) as (histories & L).
  eexists _, _. split; [exact (append_history_writable _ entry _ _ L W)|].
  split; [reflexivity|]. split; [discriminate|].
  split; [exact (load_history_returns _ _ _ L)|]. split.
  - unfold load_history, load_json_file. simpl. now rewrite appended_lookup.
  - intros u Hu. rewrite (load_history_returns _ _ _ L).
    unfold load_history, load_json_file. simpl. now rewrite appended_other.
Qed.

(** An append on a file that cannot be written leaves it as it is. *)
Lemma append_history_not_saved username entry d :
  (forall msg, history_file d <> Undecodable msg) ->
  writable d = false ->
  append_history username entry d = Returns (false, d).
Proof.
  intros F W. destruct (load_json_file_decodable d F) as (histories & L).
  unfold append_history, save_json_file. rewrite L. simpl. now rewrite W.
Qed.

Lemma append_all_cons username es e d :
  (forall msg, history_file d <> Undecodable msg) ->
  writable d = true ->
  exists d' old,
    foldl (fun acc e => d ← acc; r ← append_history username e d;
                        Returns (snd r)) (Returns d) (e :: es)
    = Returns d'
    /\ load_history username d = Returns old
    /\ load_history username d'
       = Returns (take MAX_HISTORY (rev (to_dict <$> e :: es) ++ old)%list)
    /\ (forall u, u <> username -> load_history u d' = load_history u d).
Proof.
  revert e d. induction es as [|e' es IH]; intros e d F W.
  - destruct (append_history_step username e d F W)
      as (d' & old & A & _ & _ & O & N & U).
    exists d', old. simpl. rewrite A. simpl. auto.
  - destruct (append_history_step username e d F W)
      as (d1 & old & A & W1 & F1 & O & N & U).
    destruct (IH e' d1 F1 W1) as (d' & old1 & A' & O' & N' & U').
    exists d', old.
    split.
    { rewrite <- A'. cbn [foldl]. cbn [mbind outcome_bind]. rewrite A.
      reflexivity. }
    split; [exact O|]. split.
    + rewrite N'.
      assert (Q : old1 = take MAX_HISTORY (to_dict e :: old)) by congruence.
      rewrite Q.
      rewrite take_app_take by lia. f_equal. f_equal.
      rewrite (fmap_cons _ e (e' :: es)).
      change (rev (to_dict e :: (to_dict <$> e' :: es)))
        with (rev (to_dict <$> e' :: es) ++ [to_dict e])%list.
      now rewrite <- app_assoc.
    + intros u Hu. rewrite U' by exact Hu. now apply U.
Qed.

(** X6.  On a writable file, appending one or more entries one after the
    other leaves as the user's history those entries, the last appended
    first, followed by the old history, the whole cut to [MAX_HISTORY] =
    100: however many are appended the history holds at most 100, and the
    other users' histories stay as they were.  (The file is one that can be
    decoded; on bytes that are not UTF-8 every append raises.) *)
Theorem append_history_sequence (username : string)
    (es : list CalculationEntry) (d : disk)
    (Hfile : forall msg, history_file d <> Undecodable msg)
    (Hw : writable d = true) (Hes : es <> []) :
  exists d' old new,
    foldl (fun acc e => d ← acc; r ← append_history username e d;
                        Returns (snd r)) (Returns d) es
    = Returns d'
    /\ load_history username d = Returns old
    /\ load_history username d' = Returns new
    /\ new = take MAX_HISTORY (rev (to_dict <$> es) ++ old)%list
    /\ length new <= 100
    /\ (forall u, u <> username -> load_history u d' = load_history u d).
Proof.
  destruct es as [|e es]; [congruence|].
  destruct (append_all_cons username es e d Hfile Hw) as (d' & old & A & O & N & U).
  exists d', old. eexists. split; [exact A|]. split; [exact O|].
  split; [exact N|]. split; [reflexivity|]. split; [|exact U].
  rewrite length_take. unfold MAX_HISTORY. lia.
Qed.

Lemma append_history_sequence_witness :
  let e1 := {| expr_ := "1+1"; result_ := "2"; timestamp := "t1" |} in
  let e2 := {| expr_ := "2*3"; result_ := "6"; timestamp := "t2" |} in
  let e3 := {| expr_ := "7-2"; result_ := "5"; timestamp := "t3" |} in
  let d0 := {| history_file := Json {["ann" := [to_dict e1]]};
               writable := true |} in
  (forall msg, history_file d0 <> Undecodable msg)
  /\ writable d0 = true /\ [e2; e3] <> []
  /\ exists d',
       foldl (fun acc e => d ← acc; r ← append_history "ann" e d;
                           Returns (snd r)) (Returns d0) [e2; e3]
       = Returns d'
       /\ load_history "ann" d' = Returns [to_dict e3; to_dict e2; to_dict e1].
Proof.
  intros e1 e2 e3 d0.
  assert (F : forall msg, history_file d0 <> Undecodable msg) by discriminate.
  split; [exact F|]. split; [reflexivity|]. split; [discriminate|].
  destruct (append_history_sequence "ann" [e2; e3] d0 F eq_refl
              ltac:(discriminate)) as (d' & old & new & A & O & N & E & _).
  exists d'. split; [exact A|]. rewrite N, E.
  assert (O' : load_history "ann" d0 = Returns [to_dict e1])
    by (vm_compute; reflexivity).
  rewrite O' in O. injection O as <-. vm_compute. reflexivity.
Defined.



(** ** More on the evaluator *)

Local Close Scope string_scope.
Local Open Scope char_scope.

Lemma preprocess_strip s :
  preprocess_expression (strip s) = preprocess_expression s.
Proof. now rewrite !preprocess_expression_eq, strip_strip. Qed.

Lemma preprocess_blank s : strip s = [] -> preprocess_expression s = [].
Proof. intros H. rewrite preprocess_expression_eq, H. reflexivity. Qed.

(** X8.  [safe_eval] gives the same answer on an expression, on the
    expression with its surrounding white space removed, and on the
    expression already passed through [preprocess_expression]: normalising
    beforehand, once or several times, changes no result. *)
Theorem safe_eval_preprocessed (math_dir : list string)
    (math_ext : string -> list value -> outcome value) (s : str) :
  safe_eval math_dir math_ext (preprocess_expression s)
  = safe_eval math_dir math_ext s
  /\ safe_eval math_dir math_ext (strip s) = safe_eval math_dir math_ext s
  /\ safe_eval math_dir math_ext
       (preprocess_expression (preprocess_expression s))
     = safe_eval math_dir math_ext s.
Proof.
  unfold safe_eval, try_body.
  now rewrite !preprocess_twice, preprocess_strip.
Qed.

(** X9.  On the empty string, and on any string of white space only,
    [safe_eval] returns no value and the message ["Invalid syntax"]. *)
Theorem safe_eval_blank (math_dir : list string)
    (math_ext : string -> list value -> outcome value) (s : str)
    (Hs : forallb is_space s = true) :
  safe_eval math_dir math_ext s
  = Returns (None, Some "Invalid syntax"%string).
Proof.
  assert (E : strip s = []).
  { unfold strip. rewrite lstrip_after.
    now rewrite (after_all is_space s Hs). }
  unfold safe_eval, try_body. now rewrite (preprocess_blank s E).
Qed.

Lemma safe_eval_blank_witness :
  forallb is_space [" "; "009"; " "] = true
  /\ safe_eval math_dir_311 no_ext [" "; "009"; " "]
     = Returns (None, Some "Invalid syntax"%string).
Proof.
  split; [reflexivity|]. now apply safe_eval_blank.
Defined.

(** *** Literals before any text that cannot continue them *)

Lemma not_continuing (r : str) :
  starts_with (fun c => Ascii.eqb c "." || is_ident_char c) r = false ->
  starts_with is_digit r = false
  /\ match r with
     | c :: _ => Ascii.eqb c "." = false /\ is_ident_char c = false
     | [] => True
     end.
Proof.
  destruct r as [|c r]; simpl; [auto|]. intros H.
  apply orb_false_elim in H as [H1 H2]. split; [|auto].
  unfold is_ident_char in H2. now apply orb_false_elim in H2 as [_ H2].
Qed.

Lemma lex_number_int_before ip r :
  forallb is_digit ip = true ->
  starts_with (fun c => Ascii.eqb c "." || is_ident_char c) r = false ->
  lex_number (ip ++ r) = Tok (TNumber ip) (length ip).
Proof.
  intros H Hr. destruct (not_continuing r Hr) as [Hd Hc]. unfold lex_number.
  rewrite (run_app is_digit ip r H Hd), (after_app is_digit ip r H Hd).
  destruct r as [|c r]; [reflexivity|]. destruct Hc as [Hp Hi].
  destruct (Ascii.eqb_spec c "."); [discriminate|].
  destruct c as [[] [] [] [] [] [] [] []]; try congruence;
    cbv iota; now rewrite ?Hi.
Qed.

Lemma lex_number_point_before ip fp r :
  forallb is_digit ip = true -> forallb is_digit fp = true ->
  starts_with (fun c => Ascii.eqb c "." || is_ident_char c) r = false ->
  lex_number ((ip ++ "." :: fp) ++ r)
  = Tok (TNumber (ip ++ "." :: fp)) (length (ip ++ "." :: fp)).
Proof.
  intros Hi Hf Hr. destruct (not_continuing r Hr) as [Hd Hc].
  unfold lex_number. rewrite <- app_assoc. simpl app.
  rewrite (run_app is_digit ip ("." :: fp ++ r) Hi eq_refl).
  rewrite (after_app is_digit ip ("." :: fp ++ r) Hi eq_refl).
  cbv beta iota.
  rewrite (run_app is_digit fp r Hf Hd), (after_app is_digit fp r Hf Hd).
  destruct r as [|c r]; [reflexivity|]. destruct Hc as [_ Hc].
  now rewrite Hc.
Qed.

Lemma lex_at_literal_before n r :
  decimal_literal n = true ->
  starts_with (fun c => Ascii.eqb c "." || is_ident_char c) r = false ->
  lex_at (n ++ r) = Tok (TNumber n) (length n).
Proof.
  intros Hn Hr.
  destruct (decimal_literal_shape n Hn) as (ip & Hne & Hip & Hs).
  destruct ip as [|c t]; [congruence|].
  assert (Hc : is_digit c = true) by (simpl in Hip; now apply andb_prop in Hip).
  assert (L : forall w, lex_at ((c :: t) ++ w) = lex_number ((c :: t) ++ w)).
  { intros w. simpl. now rewrite (digit_not_blank c Hc), Hc. }
  destruct Hs as [->|(fp & _ & Hfp & ->)].
  - rewrite L. now apply lex_number_int_before.
  - rewrite <- app_assoc, L, app_assoc. now apply lex_number_point_before.
Qed.

Lemma tokenize_literal_before n r :
  decimal_literal n = true ->
  starts_with (fun c => Ascii.eqb c "." || is_ident_char c) r = false ->
  tokenize (n ++ r) = cons (TNumber n) <$> tokenize r.
Proof.
  intros Hn Hr. pose proof (lex_at_literal_before n r Hn Hr) as L.
  destruct n as [|c t]; [discriminate|]. unfold tokenize.
  change (lex_from 0 ((c :: t) ++ r))
    with (match lex_at ((c :: t) ++ r) with
          | Tok tk len => cons tk <$> lex_from (len - 1) (t ++ r)
          | Blank => lex_from 0 (t ++ r)
          | Bad => None
          end).
  rewrite L. replace (length (c :: t) - 1) with (length t) by (simpl; lia).
  rewrite lex_from_skip. reflexivity.
Qed.

Lemma tokenize_literal_alone n :
  decimal_literal n = true -> tokenize n = Some [TNumber n].
Proof.
  intros Hn. rewrite <- (app_nil_r n) at 1.
  now rewrite tokenize_literal_before.
Qed.

Lemma number_value_modelled n :
  decimal_literal n = true -> length n <= int_max_str_digits ->
  number_value n <> Unmodelled.
Proof.
  intros Hn Hl. unfold number_value.
  assert (I : int_literal n <> Unmodelled).
  { unfold int_literal. destruct (Nat.ltb_spec int_max_str_digits (length n));
      [lia|]. now destruct (_ && _). }
  assert (F : forall ip fp, float_literal ip fp <> Unmodelled).
  { intros ip fp. unfold float_literal. now destruct (_ =? _)%Z. }
  destruct (after is_digit n) as [|c fp]; [exact I|].
  destruct c as [[] [] [] [] [] [] [] []]; try exact I. apply F.
Qed.

(** *** A percent sign between two literals *)

Lemma ends_digit_not_space (m : str) :
  ends_with is_digit m = true -> ends_with is_space m = false.
Proof.
  unfold ends_with. destruct (rev m) as [|c r]; [discriminate|]. simpl.
  apply digit_not_space.
Qed.

Lemma literals_trimmed n (w : str) m :
  decimal_literal n = true -> decimal_literal m = true ->
  trimmed (n ++ w ++ m).
Proof.
  intros Hn Hm. split; [now apply literal_starts|].
  rewrite app_assoc, ends_with_app by (now destruct m).
  now apply ends_digit_not_space, decimal_literal_ends.
Qed.

Lemma literal_clean m :
  decimal_literal m = true ->
  forallb not_percent m = true
  /\ forallb (fun c => negb (is_lower c)) m = true
  /\ forallb (fun c => negb (is_lpar c)) m = true
  /\ forallb (fun c => negb (is_rpar c)) m = true.
Proof.
  intros H. now apply quotient_chars_clean, decimal_literal_quotient_chars.
Qed.

Lemma has_pair_nil_r A B (s : str) :
  forallb (fun c => negb (A c)) s = true -> has_pair A B s = false.
Proof.
  intros H. rewrite <- (app_nil_r s). now rewrite has_pair_no_A.
Qed.

(** The insertion passes on [(q)m] and on [(q) m], for [q] a quotient of
    literals and [m] a literal. *)
Lemma mul_passes_quotient_times (q m : str) :
  forallb quotient_char q = true -> decimal_literal m = true ->
  mul_passes ("(" :: q ++ ")" :: m) = "(" :: q ++ ")" :: "*" :: m.
Proof.
  intros Hq Hm.
  destruct (quotient_chars_clean q Hq) as (_ & Q1 & Q2 & Q3).
  destruct (literal_clean m Hm) as (_ & M1 & M2 & M3).
  unfold mul_passes.
  rewrite (ins_star_fixed is_digit is_lower)
    by (apply has_pair_no_B; rewrite forallb_app; simpl;
        now rewrite Q1, M1).
  rewrite (ins_star_fixed is_digit is_lpar)
    by (apply has_pair_no_B; rewrite forallb_app; simpl;
        now rewrite Q2, M2).
  destruct m as [|c m']; [discriminate|].
  assert (Hc : is_digit c = true)
    by (simpl in Hm; now apply andb_prop in Hm as [Hm _]).
  change ("(" :: q ++ ")" :: c :: m') with (("(" :: q) ++ ")" :: c :: m').
  rewrite (ins_star_split is_rpar is_digit ("(" :: q) ")" c m' eq_refl Hc).
  rewrite (ins_star_fixed is_rpar is_digit (("(" :: q) ++ [")"]))
    by (rewrite has_pair_no_A; [reflexivity | simpl; exact Q3]).
  rewrite (ins_star_fixed is_rpar is_digit (c :: m'))
    by (now apply has_pair_nil_r).
  replace ((("(" :: q) ++ [")"]) ++ "*" :: c :: m')
    with ("(" :: q ++ ")" :: "*" :: c :: m')
    by (simpl; now rewrite <- app_assoc).
  apply ins_star_fixed, has_pair_no_B.
  rewrite forallb_app. simpl. simpl in M2. now rewrite Q2, M2.
Qed.

Lemma mul_passes_quotient_space (q m : str) :
  forallb quotient_char q = true -> decimal_literal m = true ->
  mul_passes ("(" :: q ++ ")" :: " " :: m) = "(" :: q ++ ")" :: " " :: m.
Proof.
  intros Hq Hm.
  destruct (quotient_chars_clean q Hq) as (_ & Q1 & Q2 & Q3).
  destruct (literal_clean m Hm) as (_ & M1 & M2 & M3).
  apply mul_passes_fixed.
  - apply has_pair_no_B. rewrite forallb_app. simpl. now rewrite Q1, M1.
  - apply has_pair_no_B. rewrite forallb_app. simpl. now rewrite Q2, M2.
  - change ("(" :: q ++ ")" :: " " :: m) with (("(" :: q) ++ ")" :: " " :: m).
    rewrite has_pair_no_A by (simpl; exact Q3). simpl.
    now apply has_pair_nil_r.
  - apply has_pair_no_B. rewrite forallb_app. simpl. now rewrite Q2, M2.
Qed.

Lemma preprocess_percent_times n m :
  decimal_literal n = true -> decimal_literal m = true ->
  preprocess_expression (n ++ "%" :: m) = lit "(" ++ n ++ lit "/100)*" ++ m.
Proof.
  intros Hn Hm. rewrite preprocess_expression_eq.
  rewrite strip_fixed by (exact (literals_trimmed n ["%"] m Hn Hm)).
  change (n ++ "%" :: m) with (n ++ [] ++ "%" :: m).
  rewrite (sub_percent_at_literal n [] m Hn eq_refl).
  rewrite (sub_percent_fixed m)
    by (apply pli_no_percent; now apply literal_clean).
  replace (lit "(" ++ n ++ lit "/100)" ++ m)
    with ("(" :: (n ++ lit "/100") ++ ")" :: m)
    by (simpl; now rewrite <- app_assoc).
  rewrite mul_passes_quotient_times;
    [simpl; now rewrite <- app_assoc | | exact Hm].
  rewrite forallb_app, (decimal_literal_quotient_chars n Hn). reflexivity.
Qed.

Lemma preprocess_percent_spaced n m :
  decimal_literal n = true -> decimal_literal m = true ->
  preprocess_expression (n ++ lit " % " ++ m)
  = lit "(" ++ n ++ lit "/100) " ++ m.
Proof.
  intros Hn Hm. rewrite preprocess_expression_eq.
  rewrite strip_fixed by (exact (literals_trimmed n (lit " % ") m Hn Hm)).
  change (n ++ lit " % " ++ m) with (n ++ [" "] ++ "%" :: " " :: m).
  rewrite (sub_percent_at_literal n [" "] (" " :: m) Hn eq_refl).
  rewrite (sub_percent_fixed (" " :: m))
    by (apply pli_no_percent; simpl; now apply literal_clean).
  replace (lit "(" ++ n ++ lit "/100)" ++ " " :: m)
    with ("(" :: (n ++ lit "/100") ++ ")" :: " " :: m)
    by (simpl; now rewrite <- app_assoc).
  rewrite mul_passes_quotient_space;
    [simpl; now rewrite <- app_assoc | | exact Hm].
  rewrite forallb_app, (decimal_literal_quotient_chars n Hn). reflexivity.
Qed.

Lemma tokenize_quotient_then n m :
  decimal_literal n = true -> decimal_literal m = true ->
  tokenize (lit "(" ++ n ++ lit "/100) " ++ m)
  = Some [TLPar; TNumber n; TSlash; TNumber (lit "100"); TRPar; TNumber m].
Proof.
  intros Hn Hm.
  change (tokenize (lit "(" ++ n ++ lit "/100) " ++ m))
    with (cons TLPar <$> tokenize (n ++ "/" :: lit "100) " ++ m)).
  rewrite (tokenize_literal n (lit "100) " ++ m) Hn).
  change (tokenize ("/" :: lit "100) " ++ m))
    with (cons TSlash <$> (cons (TNumber (lit "100")) <$>
                             (cons TRPar <$> tokenize m))).
  now rewrite (tokenize_literal_alone m Hm).
Qed.

Lemma parse_paren_quotient_then n m :
  parse [TLPar; TNumber n; TSlash; TNumber (lit "100"); TRPar; TNumber m]
  = v ← number_value n; Raises SyntaxError.
Proof.
  unfold parse.
  change (parse_fuel [TLPar; TNumber n; TSlash; TNumber (lit "100"); TRPar;
                      TNumber m]) with 112.
  rewrite p_comparison_levels, p_factor_paren_number.
  rewrite p_comparison_levels, p_factor_number.
  destruct (number_value n) as [v| |]; [|reflexivity|reflexivity].
  vm_compute. reflexivity.
Qed.

Lemma number_value_raises n e :
  number_value n = Raises e -> e = SyntaxError.
Proof.
  unfold number_value.
  assert (I : int_literal n = Raises e -> e = SyntaxError).
  { unfold int_literal. destruct (Nat.ltb _ _); [discriminate|].
    destruct (_ && _); congruence. }
  assert (F : forall ip fp, float_literal ip fp = Raises e -> e = SyntaxError).
  { intros ip fp. unfold float_literal. now destruct (_ =? _)%Z. }
  destruct (after is_digit n) as [|c fp]; [exact I|].
  destruct c as [[] [] [] [] [] [] [] []]; try exact I. apply F.
Qed.

(** X10.  Between two numeric literals [n] and [m] of the form the
    percent rule matches (digits, optionally followed by a point and more
    digits), a [%] is not the remainder operator.  Written without spaces,
    [n%m] is rewritten to [(n/100)*m] (the percent rule, then the rule for
    [)] before a digit) and evaluates as that product; written [n % m] it
    is rewritten to [(n/100) m], for which [safe_eval] returns the message
    ["Invalid syntax"].  (Literals such as [5.] and [.5] are not of that
    form, and nothing is said about them.) *)
Theorem percent_between_literals (math_dir : list string)
    (math_ext : string -> list value -> outcome value) (n m : str)
    (Hn : decimal_literal n = true) (Hm : decimal_literal m = true)
    (Hlen : length n <= int_max_str_digits) :
  preprocess_expression (n ++ "%" :: m) = lit "(" ++ n ++ lit "/100)*" ++ m
  /\ safe_eval math_dir math_ext (n ++ "%" :: m)
     = safe_eval math_dir math_ext (lit "(" ++ n ++ lit "/100)*" ++ m)
  /\ preprocess_expression (n ++ lit " % " ++ m)
     = lit "(" ++ n ++ lit "/100) " ++ m
  /\ safe_eval math_dir math_ext (n ++ lit " % " ++ m)
     = Returns (None, Some "Invalid syntax"%string).
Proof.
  split; [now apply preprocess_percent_times|]. split.
  { unfold safe_eval, try_body.
    rewrite <- (preprocess_percent_times n m Hn Hm).
    now rewrite preprocess_twice. }
  split; [now apply preprocess_percent_spaced|].
  unfold safe_eval, try_body, py_eval.
  rewrite (preprocess_percent_spaced n m Hn Hm).
  rewrite (tokenize_quotient_then n m Hn Hm).
  change (Nat.ltb max_modelled_tokens (length _)) with false. cbv iota.
  rewrite parse_paren_quotient_then.
  pose proof (number_value_modelled n Hn Hlen) as N.
  pose proof (number_value_raises n) as R.
  destruct (number_value n) as [v|e|]; [reflexivity| |congruence].
  now rewrite (R e eq_refl).
Qed.

Lemma percent_between_literals_witness :
  decimal_literal (lit "7") = true /\ decimal_literal (lit "3") = true
  /\ length (lit "7") <= int_max_str_digits
  /\ preprocess_expression (lit "7%3") = lit "(7/100)*3"
  /\ safe_eval math_dir_311 no_ext (lit "7 % 3")
     = Returns (None, Some "Invalid syntax"%string).
Proof.
  assert (L : length (lit "7") <= int_max_str_digits)
    by (unfold int_max_str_digits; simpl; lia).
  split; [reflexivity|]. split; [reflexivity|]. split; [exact L|].
  destruct (percent_between_literals math_dir_311 no_ext (lit "7") (lit "3")
              eq_refl eq_refl L) as (A & _ & _ & B).
  split; [exact A | exact B].
Defined.

(** ** The decimal text of an integer *)

Local Close Scope string_scope.
Local Open Scope char_scope.

Lemma pretty_N_char_digit k :
  (k < 10)%N ->
  is_digit (pretty_N_char k) = true
  /\ digit_value (pretty_N_char k) = Z.of_N k
  /\ ((0 < k)%N -> Ascii.eqb "0" (pretty_N_char k) = false).
Proof.
  intros H.
  assert (C : (k = 0 \/ k = 1 \/ k = 2 \/ k = 3 \/ k = 4 \/ k = 5 \/ k = 6
               \/ k = 7 \/ k = 8 \/ k = 9)%N) by lia.
  repeat (destruct C as [-> | C]); try subst k;
    (split; [reflexivity | split; [reflexivity | intros H0; try reflexivity; lia]]).
Qed.

Lemma digits_value_snoc ds c :
  digits_value (ds ++ [c]) = (10 * digits_value ds + digit_value c)%Z.
Proof. unfold digits_value. now rewrite fold_left_app. Qed.

Lemma starts_with_app_ne (p : ascii -> bool) (u v : str) :
  u <> [] -> starts_with p (u ++ v) = starts_with p u.
Proof. now destruct u. Qed.

(** The digits [pretty_N_go] puts in front of the text it is given. *)
Lemma pretty_N_go_digits x : forall s,
  exists ds : str,
    lit (pretty_N_go x s) = ds ++ lit s
    /\ forallb is_digit ds = true
    /\ digits_value ds = Z.of_N x
    /\ ((0 < x)%N -> ds <> [] /\ starts_with (Ascii.eqb "0") ds = false)
    /\ (x = 0%N -> ds = []).
Proof.
  induction (N.lt_wf_0 x) as [x _ IH]. intros s.
  destruct (N.eq_dec x 0%N) as [->|Hx].
  - exists []. rewrite pretty_N_go_0. repeat split; try reflexivity; lia.
  - rewrite pretty_N_go_step by lia.
    assert (Hlt : (x / 10 < x)%N) by (apply N.div_lt; lia).
    destruct (IH (x / 10)%N Hlt (String (pretty_N_char (x mod 10)) s))
      as (ds & E & D & V & P & Z0).
    assert (Hm : (x mod 10 < 10)%N) by (apply N.mod_lt; lia).
    destruct (pretty_N_char_digit _ Hm) as (C1 & C2 & C3).
    exists (ds ++ [pretty_N_char (x mod 10)]). split; [|split; [|split; [|split]]].
    + rewrite E. simpl. now rewrite <- app_assoc.
    + rewrite forallb_app, D. simpl. now rewrite C1.
    + rewrite digits_value_snoc, V, C2.
      pose proof (N.div_mod x 10%N ltac:(lia)). lia.
    + intros _. split; [now destruct ds|].
      destruct (N.eq_dec (x / 10)%N 0%N) as [Hq|Hq].
      * rewrite (Z0 Hq). simpl. apply C3.
        pose proof (N.div_mod x 10%N ltac:(lia)) as H. rewrite Hq in H.
        change (x = (x mod 10)%N) in H. rewrite <- H. clear -Hx. lia.
      * destruct P as [P1 P2]; [now apply N.neq_0_lt_0|].
        now rewrite starts_with_app_ne.
    + intros ->. lia.
Qed.

Lemma str_int_pos p :
  exists ds : str,
    str_int (Z.pos p) = ds /\ ds <> [] /\ forallb is_digit ds = true
    /\ digits_value ds = Z.pos p
    /\ starts_with (Ascii.eqb "0") ds = false.
Proof.
  destruct (pretty_N_go_digits (N.pos p) EmptyString)
    as (ds & E & D & V & P & _).
  destruct P as [P1 P2]; [lia|].
  exists ds. split; [|auto].
  unfold str_int, pretty, pretty_Z, pretty, pretty_positive, pretty, pretty_N.
  destruct (decide (N.pos p = 0%N)); [lia|].
  rewrite E. apply app_nil_r.
Qed.

Lemma str_int_neg p : str_int (Z.neg p) = "-" :: str_int (Z.pos p).
Proof. reflexivity. Qed.

Lemma str_int_zero : str_int 0 = ["0"].
Proof. reflexivity. Qed.

Lemma sign_digit_plain (s : str) :
  forallb (fun c => is_digit c || Ascii.eqb c "-") s = true ->
  forallb not_percent s = true
  /\ forallb (fun c => negb (is_lower c)) s = true
  /\ forallb (fun c => negb (is_lpar c)) s = true
  /\ forallb (fun c => negb (is_rpar c)) s = true
  /\ forallb (fun c => negb (is_space c)) s = true.
Proof.
  intros H. repeat split; revert H; apply forallb_weaken; intros c;
    by_cases_on c.
Qed.

Lemma has_pair_none_B A B (s : str) :
  forallb (fun c => negb (B c)) s = true -> has_pair A B s = false.
Proof.
  destruct s as [|a s]; [reflexivity|]. simpl. intros H.
  apply andb_prop in H as [_ H]. now apply (has_pair_no_B A B a s).
Qed.

Lemma starts_with_forallb (p : ascii -> bool) (s : str) :
  forallb (fun c => negb (p c)) s = true -> starts_with p s = false.
Proof.
  destruct s as [|c s]; [reflexivity|]. simpl. intros H.
  apply andb_prop in H as [H _]. now apply negb_true_iff.
Qed.

(** Text made of digits and minus signs is left as it is. *)
Lemma preprocess_sign_digits (s : str) :
  forallb (fun c => is_digit c || Ascii.eqb c "-") s = true ->
  preprocess_expression s = s.
Proof.
  intros H. destruct (sign_digit_plain s H) as (P & L & LP & RP & SP).
  apply preprocess_fixed.
  - split; [now apply starts_with_forallb|]. unfold ends_with.
    apply starts_with_forallb. now rewrite forallb_rev.
  - now apply pli_no_percent.
  - now apply has_pair_none_B.
  - now apply has_pair_none_B.
  - now apply has_pair_nil_r.
  - now apply has_pair_nil_r.
Qed.

Lemma tokenize_minus c (t : str) :
  is_digit c = true ->
  tokenize ("-" :: c :: t) = cons TMinus <$> tokenize (c :: t).
Proof.
  intros Hc. unfold tokenize.
  change (lex_from 0 ("-" :: c :: t))
    with (match lex_op ("-" :: c :: t) with
          | Tok tk len => cons tk <$> lex_from (len - 1) (c :: t)
          | Blank => lex_from 0 (c :: t)
          | Bad => None
          end).
  assert (L : lex_op ("-" :: c :: t) = Tok TMinus 1).
  { revert Hc. by_cases_on c. }
  now rewrite L.
Qed.

Lemma parse_number n :
  parse [TNumber n] = v ← number_value n; Returns (EConst v).
Proof.
  unfold parse. change (parse_fuel [TNumber n]) with 32.
  rewrite p_comparison_levels, p_factor_number.
  destruct (number_value n) as [v| |]; [|reflexivity|reflexivity].
  vm_compute. reflexivity.
Qed.

Lemma p_factor_minus k ts :
  p_factor (S k) (TMinus :: ts)
  = '(e, ts2) ← p_factor k ts; Returns (EUnary USub e, ts2).
Proof. reflexivity. Qed.

Lemma parse_minus_number n :
  parse [TMinus; TNumber n]
  = v ← number_value n; Returns (EUnary USub (EConst v)).
Proof.
  unfold parse. change (parse_fuel [TMinus; TNumber n]) with 48.
  rewrite p_comparison_levels, p_factor_minus, p_factor_number.
  destruct (number_value n) as [v| |]; [|reflexivity|reflexivity].
  vm_compute. reflexivity.
Qed.

Lemma forallb_zero_digits (ds : str) :
  starts_with (Ascii.eqb "0") ds = false ->
  starts_with (Ascii.eqb "0") ds && negb (forallb (Ascii.eqb "0") ds) = false.
Proof. now intros ->. Qed.

Lemma number_value_digits (ds : str) :
  ds <> [] -> forallb is_digit ds = true ->
  length ds <= int_max_str_digits ->
  starts_with (Ascii.eqb "0") ds && negb (forallb (Ascii.eqb "0") ds) = false ->
  number_value ds = Returns (VInt (digits_value ds)).
Proof.
  intros Hne Hd Hl Hz. unfold number_value.
  rewrite (after_all is_digit ds Hd). unfold int_literal.
  destruct (Nat.ltb_spec int_max_str_digits (length ds)); [lia|].
  now rewrite Hz.
Qed.

Lemma safe_eval_digits dir ext (ds : str) :
  ds <> [] -> forallb is_digit ds = true ->
  length ds <= int_max_str_digits ->
  starts_with (Ascii.eqb "0") ds && negb (forallb (Ascii.eqb "0") ds) = false ->
  safe_eval dir ext ds = Returns (Some (VInt (digits_value ds)), None)
  /\ safe_eval dir ext ("-" :: ds)
     = Returns (Some (VInt (- digits_value ds)), None).
Proof.
  intros Hne Hd Hl Hz.
  pose proof (number_value_digits ds Hne Hd Hl Hz) as N.
  pose proof (decimal_literal_int ds Hne Hd) as Dl.
  assert (W : forallb (fun c => is_digit c || Ascii.eqb c "-") ds = true).
  { revert Hd. apply forallb_weaken. now intros c ->. }
  split.
  - rewrite (safe_eval_via dir ext ds [TNumber ds]
               (EConst (VInt (digits_value ds)))).
    + reflexivity.
    + rewrite (preprocess_sign_digits ds W). now apply tokenize_literal_alone.
    + reflexivity.
    + rewrite parse_number, N. reflexivity.
  - rewrite (safe_eval_via dir ext ("-" :: ds) [TMinus; TNumber ds]
               (EUnary USub (EConst (VInt (digits_value ds))))).
    + reflexivity.
    + rewrite (preprocess_sign_digits ("-" :: ds)) by (simpl; exact W).
      destruct ds as [|c t]; [congruence|].
      rewrite tokenize_minus
        by (simpl in Hd; now apply andb_prop in Hd as [Hd _]).
      now rewrite (tokenize_literal_alone (c :: t) Dl).
    + reflexivity.
    + rewrite parse_minus_number, N. reflexivity.
Qed.

Lemma safe_eval_str_int dir ext (n : Z) :
  length (str_int (Z.abs n)) <= int_max_str_digits ->
  safe_eval dir ext (str_int n) = Returns (Some (VInt n), None).
Proof.
  intros Hlen. destruct n as [|p|p].
  - assert (L : length ["0"%char] <= int_max_str_digits)
      by (unfold int_max_str_digits; simpl; lia).
    exact (proj1 (safe_eval_digits dir ext ["0"%char]
                    ltac:(discriminate) eq_refl L eq_refl)).
  - destruct (str_int_pos p) as (ds & E & Hne & Hd & V & Hz).
    change (Z.abs (Z.pos p)) with (Z.pos p) in Hlen.
    rewrite E in *. rewrite <- V.
    exact (proj1 (safe_eval_digits dir ext ds Hne Hd Hlen
                    (forallb_zero_digits ds Hz))).
  - destruct (str_int_pos p) as (ds & E & Hne & Hd & V & Hz).
    change (Z.abs (Z.neg p)) with (Z.pos p) in Hlen.
    rewrite str_int_neg, E in *.
    replace (Z.neg p) with (- digits_value ds)%Z by (rewrite V; reflexivity).
    exact (proj2 (safe_eval_digits dir ext ds Hne Hd Hlen
                    (forallb_zero_digits ds Hz))).
Qed.

(** X11.  Evaluating the decimal text of an integer gives that integer
    back: for every integer [n] whose text has at most 4300 digits,
    [safe_eval(str(n))] is [(n, None)], and [preprocess_expression] leaves
    the text as it is. *)
Theorem safe_eval_int_text (math_dir : list string)
    (math_ext : string -> list value -> outcome value) (n : Z)
    (Hlen : length (str_int (Z.abs n)) <= int_max_str_digits) :
  safe_eval math_dir math_ext (str_int n) = Returns (Some (VInt n), None)
  /\ preprocess_expression (str_int n) = str_int n.
Proof.
  split; [now apply safe_eval_str_int|].
  apply preprocess_sign_digits.
  destruct n as [|p|p]; [reflexivity| |].
  - destruct (str_int_pos p) as (ds & -> & _ & Hd & _).
    revert Hd. apply forallb_weaken. now intros c ->.
  - rewrite str_int_neg. destruct (str_int_pos p) as (ds & -> & _ & Hd & _).
    simpl. revert Hd. apply forallb_weaken. now intros c ->.
Qed.

Lemma safe_eval_int_text_witness :
  length (str_int (Z.abs (-1234567890123))) <= int_max_str_digits
  /\ str_int (-1234567890123) = lit "-1234567890123"
  /\ safe_eval math_dir_311 no_ext (lit "-1234567890123")
     = Returns (Some (VInt (-1234567890123)), None).
Proof.
  assert (L : length (str_int (Z.abs (-1234567890123))) <= int_max_str_digits)
    by (vm_compute; lia).
  split; [exact L|]. split; [reflexivity|].
  exact (proj1 (safe_eval_int_text math_dir_311 no_ext (-1234567890123) L)).
Defined.

(** ** The session state *)

Local Close Scope char_scope.
Local Open Scope string_scope.

Lemma init_step_union (st : session) (k : string) (v : session_value)
    (M : session) :
  match st !! k with
  | None => <[k := v]> st
  | Some _ => st
  end ∪ M = st ∪ <[k := v]> M.
Proof.
  apply map_eq. intros i. rewrite !lookup_union.
  destruct (st !! k) as [x|] eqn:K.
  - destruct (decide (i = k)) as [->|Hi].
    + rewrite K, lookup_insert_eq. now destruct (M !! k).
    + now rewrite lookup_insert_ne.
  - destruct (decide (i = k)) as [->|Hi].
    + rewrite K, !lookup_insert_eq. now destruct (M !! k).
    + now rewrite !lookup_insert_ne.
Qed.

Lemma init_fold_union (l : list (string * session_value)) (st : session) :
  foldl (fun st kv =>
           match st !! kv.1 with
           | None => <[kv.1 := kv.2]> st
           | Some _ => st
           end) st l
  = st ∪ list_to_map l.
Proof.
  revert st. induction l as [|[k v] l IH]; intros st; simpl.
  - now rewrite (right_id ∅ (∪)).
  - rewrite IH. apply init_step_union.
Qed.

(** X12.  [init_session_state] keeps every value the session already
    holds and gives each of the six keys that is missing its default; a
    second run changes nothing. *)
Theorem init_session_state_defaults (st : session) :
  init_session_state st = st ∪ list_to_map defaults
  /\ (forall k v, st !! k = Some v -> init_session_state st !! k = Some v)
  /\ (forall k v, st !! k = None -> (k, v) ∈ defaults ->
        init_session_state st !! k = Some v)
  /\ (forall k, st !! k = None -> k ∉ defaults.*1 ->
        init_session_state st !! k = None)
  /\ init_session_state (init_session_state st) = init_session_state st.
Proof.
  assert (E : forall st, init_session_state st = st ∪ list_to_map defaults).
  { intros st0. unfold init_session_state. apply init_fold_union. }
  assert (N : NoDup (defaults.*1)).
  { unfold defaults. simpl. repeat (apply NoDup_cons; split);
      [| | | | | |apply NoDup_nil_2];
      rewrite ?elem_of_cons, elem_of_nil; intros H;
      repeat (destruct H as [H|H]; [discriminate|]); exact H. }
  split; [apply E|]. split; [|split; [|split]].
  - intros k v H. rewrite E. now apply lookup_union_Some_l.
  - intros k v H Hin. rewrite E, lookup_union_r by exact H.
    now apply elem_of_list_to_map.
  - intros k H Hin. rewrite E, lookup_union_r by exact H.
    now apply not_elem_of_list_to_map.
  - rewrite (E (init_session_state st)), E.
    now rewrite <- (assoc_L (∪)), (idemp_L (∪)).
Qed.

Lemma attr_lookup (st : session) key v :
  st !! key = Some v -> attr st key = Returns v.
Proof. intros H. unfold attr. now rewrite H. Qed.

Lemma take_snoc_length (e : str) (c : ascii) :
  take (length (e ++ [c]) - 1) (e ++ [c]) = e.
Proof.
  rewrite length_app. simpl.
  replace (length e + 1 - 1) with (length e) by lia.
  apply take_app_length.
Qed.

(** X13.  With a string in the expression field, [append_to_expr] puts
    the given text at its end, and [backspace] after appending one
    character gives the session back exactly as it was; on the empty
    expression [backspace] changes nothing. *)
Theorem backspace_undoes_append (st : session) (e : str) (c : ascii)
    (He : st !! "expr" = Some (SStr e)) :
  (forall value,
     append_to_expr value st = Returns (<["expr" := SStr (e ++ value)%list]> st))
  /\ (append_to_expr [c] st ≫= backspace) = Returns st
  /\ (e = [] -> backspace st = Returns st).
Proof.
  assert (A : forall value,
     append_to_expr value st = Returns (<["expr" := SStr (e ++ value)%list]> st)).
  { intros value. unfold append_to_expr. now rewrite (attr_lookup _ _ _ He). }
  split; [exact A|]. split.
  - rewrite A. simpl. unfold mbind, outcome_bind, backspace.
    rewrite (attr_lookup _ "expr" (SStr (e ++ [c])%list))
      by apply lookup_insert_eq.
    simpl. rewrite take_snoc_length, insert_insert_eq.
    now rewrite insert_id.
  - intros ->. unfold backspace. rewrite (attr_lookup _ _ _ He). simpl.
    now rewrite insert_id.
Qed.

Lemma backspace_undoes_append_witness :
  let st := init_session_state ∅ in
  st !! "expr" = Some (SStr [])
  /\ (append_to_expr (lit "7") st ≫= backspace) = Returns st.
Proof.
  intros st.
  assert (H : st !! "expr" = Some (SStr [])) by (vm_compute; reflexivity).
  split; [exact H|].
  exact (proj1 (proj2 (backspace_undoes_append st [] "7"%char H))).
Defined.

Lemma augmented_ints (o : binop) (m r : Z) :
  augmented o (SVal (VInt m)) (SVal (VInt r))
  = v ← int_binop o m r; Returns (SVal v).
Proof. reflexivity. Qed.

(** X14.  With integers in the memory and in the last result, [M+] adds
    the result to the memory and [M-] after it takes it away again, leaving
    the session as it was; with no last result ([None]) both buttons change
    nothing. *)
Theorem memory_add_then_subtract (st : session) (m r : Z)
    (Hm : st !! "memory" = Some (SVal (VInt m)))
    (Hr : st !! "last_result" = Some (SVal (VInt r))) :
  memory_add st = Returns (<["memory" := SVal (VInt (m + r))]> st)
  /\ memory_subtract st = Returns (<["memory" := SVal (VInt (m - r))]> st)
  /\ (memory_add st ≫= memory_subtract) = Returns st
  /\ (forall st0 : session,
        st0 !! "last_result" = Some (SVal VNone) ->
        memory_add st0 = Returns st0 /\ memory_subtract st0 = Returns st0).
Proof.
  assert (A : memory_add st = Returns (<["memory" := SVal (VInt (m + r))]> st)).
  { unfold memory_add.
    rewrite (attr_lookup _ _ _ Hr). simpl.
    now rewrite (attr_lookup _ _ _ Hm). }
  split; [exact A|]. split; [|split].
  - unfold memory_subtract.
    rewrite (attr_lookup _ _ _ Hr). simpl.
    now rewrite (attr_lookup _ _ _ Hm).
  - rewrite A. simpl. unfold mbind, outcome_bind, memory_subtract.
    rewrite (attr_lookup _ "last_result" (SVal (VInt r)))
      by (now rewrite lookup_insert_ne).
    simpl.
    rewrite (attr_lookup _ "memory" (SVal (VInt (m + r))))
      by apply lookup_insert_eq.
    simpl. rewrite insert_insert_eq.
    replace (m + r - r)%Z with m by lia. now rewrite insert_id.
  - intros st0 H. unfold memory_add, memory_subtract.
    now rewrite (attr_lookup _ _ _ H).
Qed.

Lemma memory_add_then_subtract_witness :
  let st := <["last_result" := SVal (VInt 42)]> (init_session_state ∅) in
  st !! "memory" = Some (SVal (VInt 0))
  /\ st !! "last_result" = Some (SVal (VInt 42))
  /\ (memory_add st ≫= memory_add) ≫= (fun st => attr st "memory")
     = Returns (SVal (VInt 84))
  /\ (memory_add st ≫= memory_subtract) = Returns st.
Proof.
  intros st.
  assert (Hm : st !! "memory" = Some (SVal (VInt 0)))
    by (vm_compute; reflexivity).
  assert (Hr : st !! "last_result" = Some (SVal (VInt 42)))
    by (vm_compute; reflexivity).
  split; [exact Hm|]. split; [exact Hr|].
  destruct (memory_add_then_subtract st 0 42 Hm Hr) as (_ & _ & B & _).
  split; [vm_compute; reflexivity | exact B].
Defined.

Lemma logout_reset_lookup (st : session) :
  logout_reset st !! "user" = Some (SVal VNone)
  /\ logout_reset st !! "expr" = Some (SStr [])
  /\ logout_reset st !! "last_result" = Some (SStr [])
  /\ logout_reset st !! "history" = Some (SList [])
  /\ logout_reset st !! "memory" = Some (SVal (VInt 0)).
Proof.
  unfold logout_reset. simpl.
  repeat split;
    repeat (rewrite lookup_insert_eq || rewrite lookup_insert_ne by discriminate);
    reflexivity.
Qed.

(** X15.  The logout button resets [last_result] to the empty string,
    not to [None], and the memory to [0].  So in whatever state the session
    was, [M+] or [M-] pressed after a logout, before a new calculation,
    raises [TypeError]: the test [last_result is not None] passes and an
    integer and a string are added. *)
Theorem memory_add_after_logout (st : session) :
  logout_reset st !! "last_result" = Some (SStr [])
  /\ logout_reset st !! "memory" = Some (SVal (VInt 0))
  /\ memory_add (logout_reset st)
     = Raises (TypeError "unsupported operand type(s) for +=: 'int' and 'str'")
  /\ memory_subtract (logout_reset st)
     = Raises (TypeError "unsupported operand type(s) for -=: 'int' and 'str'")
  /\ (forall k, k ∉ ["user"; "expr"; "last_result"; "history"; "memory"] ->
        logout_reset st !! k = st !! k).
Proof.
  destruct (logout_reset_lookup st) as (_ & _ & R & _ & M).
  split; [exact R|]. split; [exact M|]. split; [|split].
  - unfold memory_add. rewrite (attr_lookup _ _ _ R). simpl.
    now rewrite (attr_lookup _ _ _ M).
  - unfold memory_subtract. rewrite (attr_lookup _ _ _ R). simpl.
    now rewrite (attr_lookup _ _ _ M).
  - intros k Hk. unfold logout_reset. simpl.
    rewrite !elem_of_cons, elem_of_nil in Hk.
    rewrite !lookup_insert_ne by (intros <-; tauto). reflexivity.
Qed.

(** *** The Calculate button *)

Section CalculateButton.

Variable math_dir : list string.
Variable math_ext : string -> list value -> outcome value.
Variable float_repr : spec_float -> str.



Lemma strip_nil_blank (e : str) : strip e = [] -> forallb is_space e = true.
Proof.
  unfold strip, rstrip. intros H.
  apply (f_equal (@rev ascii)) in H. rewrite rev_involutive in H. simpl in H.
  assert (L : lstrip e = []).
  { destruct (lstrip e) as [|c t] eqn:E; [reflexivity|].
    pose proof (after_stops is_space e) as S. rewrite <- lstrip_after, E in S.
    simpl in S.
    assert (X : exists w : str, rev (c :: t) = (w ++ [c])%list)
      by (simpl; eauto).
    destruct X as (w & X). rewrite X in H.
    destruct (after_keeps_last is_space w c S) as (w' & A).
    rewrite lstrip_after, A in H. now destruct w'. }
  rewrite lstrip_after in L. now apply after_nil_all.
Qed.


Lemma safe_eval_value_not_blank e v :
  safe_eval math_dir math_ext e = Returns (Some v, None) -> strip e <> [].
Proof.
  intros H E. unfold safe_eval, try_body in H.
  now rewrite (preprocess_blank e E) in H.
Qed.

Lemma calculate_value now (st : session) d (e u text : str) v saved d'
    history :
  st !! "expr" = Some (SStr e) -> st !! "user" = Some (SStr u) ->
  safe_eval math_dir math_ext e = Returns (Some v, None) ->
  py_str float_repr v = Returns text ->
  append_history (string_of_list_ascii u)
    {| expr_ := string_of_list_ascii e;
       result_ := string_of_list_ascii text;
       timestamp := now |} d = Returns (saved, d') ->
  load_history (string_of_list_ascii u) d' = Returns history ->
  calculate math_dir math_ext float_repr now st d
  = Returns (<["expr" := SStr text]>
               (<["history" := SList history]>
                  (<["last_result" := SVal v]> st)), d').
Proof.
  intros He Hu Hev Ht Ha Hl. unfold calculate.
  rewrite (attr_lookup _ _ _ He). simpl.
  rewrite bool_decide_eq_false_2 by (now apply (safe_eval_value_not_blank e v)).
  rewrite Hev. simpl. rewrite Ht. simpl.
  rewrite (attr_lookup _ "user" (SStr u)) by (now rewrite lookup_insert_ne).
  simpl. rewrite Ha. simpl. rewrite Hl. reflexivity.
Qed.


(** What [append_history] and the [load_history] after it give on a file
    that can be decoded. *)
Lemma append_then_load username entry d :
  (forall msg, history_file d <> Undecodable msg) ->
  exists saved d' old history,
    append_history username entry d = Returns (saved, d')
    /\ load_history username d = Returns old
    /\ load_history username d' = Returns history
    /\ (forall msg, history_file d' <> Undecodable msg)
    /\ writable d' = writable d
    /\ (writable d = true ->
        history = take MAX_HISTORY (to_dict entry :: old)).
Proof.
  intros F. destruct (writable d) eqn:W.
  - destruct (append_history_step username entry d F W)
      as (d' & old & A & W' & F' & O & N & _).
    exists true, d', old. eexists. split; [exact A|]. split; [exact O|].
    split; [exact N|]. split; [exact F'|]. split; [exact W'|]. reflexivity.
  - destruct (load_json_file_decodable d F) as (histories & L).
    exists false, d. eexists _, _.
    split; [now apply append_history_not_saved|].
    split; [exact (load_history_returns _ _ _ L)|].
    split; [exact (load_history_returns _ _ _ L)|].
    split; [exact F|]. split; [exact W|]. discriminate.
Qed.


(** X17.  When the result is an integer [n] (of at most 4300 digits), the
    expression field holds the decimal text of [n] afterwards, and pressing
    Calculate again evaluates that text to [n] again: the result, and the
    text in the field, stay the same however often the button is
    pressed.  (The history file is one that can be decoded.) *)
Theorem calculate_again_integer (now now' : string) (st : session)
    (d : disk) (e u : str) (n : Z)
    (He : st !! "expr" = Some (SStr e))
    (Hu : st !! "user" = Some (SStr u))
    (Hev : safe_eval math_dir math_ext e = Returns (Some (VInt n), None))
    (Hlen : length (str_int (Z.abs n)) <= int_max_str_digits)
    (Hfile : forall msg, history_file d <> Undecodable msg) :
  exists st1 d1 st2 d2,
    calculate math_dir math_ext float_repr now st d = Returns (st1, d1)
    /\ st1 !! "expr" = Some (SStr (str_int n))
    /\ st1 !! "last_result" = Some (SVal (VInt n))
    /\ calculate math_dir math_ext float_repr now' st1 d1 = Returns (st2, d2)
    /\ st2 !! "expr" = Some (SStr (str_int n))
    /\ st2 !! "last_result" = Some (SVal (VInt n))
    /\ (writable d = true ->
        exists history,
          load_history (string_of_list_ascii u) d2 = Returns history
          /\ take 2 history
             = [to_dict {| expr_ := string_of_list_ascii (str_int n);
                           result_ := string_of_list_ascii (str_int n);
                           timestamp := now' |};
                to_dict {| expr_ := string_of_list_ascii e;
                           result_ := string_of_list_ascii (str_int n);
                           timestamp := now |}]).
Proof.
  assert (T : py_str float_repr (VInt n) = Returns (str_int n)).
  { unfold py_str. destruct (Nat.ltb_spec int_max_str_digits
                               (length (str_int (Z.abs n)))); [lia|].
    reflexivity. }
  set (user := string_of_list_ascii u).
  set (en1 := {| expr_ := string_of_list_ascii e;
                 result_ := string_of_list_ascii (str_int n);
                 timestamp := now |}).
  set (en2 := {| expr_ := string_of_list_ascii (str_int n);
                 result_ := string_of_list_ascii (str_int n);
                 timestamp := now' |}).
  destruct (append_then_load user en1 d Hfile)
    as (s1 & d1 & old & h1 & A1 & _ & L1 & F1 & W1 & N1).
  destruct (append_then_load user en2 d1 F1)
    as (s2 & d2 & old1 & h2 & A2 & O2 & L2 & _ & _ & N2).
  pose proof (calculate_value now st d e u (str_int n) (VInt n) s1 d1 h1
                He Hu Hev T A1 L1) as C1.
  set (st1 := <["expr" := SStr (str_int n)]>
                (<["history" := SList h1]>
                   (<["last_result" := SVal (VInt n)]> st))) in *.
  assert (E1 : st1 !! "expr" = Some (SStr (str_int n)))
    by apply lookup_insert_eq.
  assert (U1 : st1 !! "user" = Some (SStr u)).
  { subst st1. now rewrite 3!lookup_insert_ne by discriminate. }
  pose proof (calculate_value now' st1 d1 (str_int n) u (str_int n) (VInt n)
                s2 d2 h2 E1 U1 (safe_eval_str_int math_dir math_ext n Hlen) T
                A2 L2) as C2.
  eexists st1, d1, _, d2. split; [exact C1|]. split; [exact E1|]. split.
  { subst st1. rewrite 2!lookup_insert_ne by discriminate.
    apply lookup_insert_eq. }
  split; [exact C2|]. split; [apply lookup_insert_eq|]. split.
  { rewrite 2!lookup_insert_ne by discriminate. apply lookup_insert_eq. }
  intros W. exists h2. split; [exact L2|].
  rewrite N2 by congruence.
  assert (Q : old1 = h1) by congruence. rewrite Q, (N1 W). reflexivity.
Qed.

End CalculateButton.


Lemma calculate_again_integer_witness :
  let st := <["user" := SStr (lit "ann")]>
              (<["expr" := SStr (lit "6*7")]> (init_session_state ∅)) in
  let d := {| history_file := Absent; writable := true |} in
  st !! "expr" = Some (SStr (lit "6*7"))
  /\ st !! "user" = Some (SStr (lit "ann"))
  /\ safe_eval math_dir_311 no_ext (lit "6*7") = Returns (Some (VInt 42), None)
  /\ (forall msg, history_file d <> Undecodable msg)
  /\ exists st1 d1 st2 d2,
       calculate math_dir_311 no_ext (fun _ => []) "t1" st d
       = Returns (st1, d1)
       /\ calculate math_dir_311 no_ext (fun _ => []) "t2" st1 d1
          = Returns (st2, d2)
       /\ st2 !! "expr" = Some (SStr (lit "42"))
       /\ st2 !! "last_result" = Some (SVal (VInt 42)).
Proof.
  intros st d.
  assert (He : st !! "expr" = Some (SStr (lit "6*7")))
    by (vm_compute; reflexivity).
  assert (Hu : st !! "user" = Some (SStr (lit "ann")))
    by (vm_compute; reflexivity).
  assert (Hev : safe_eval math_dir_311 no_ext (lit "6*7")
                = Returns (Some (VInt 42), None))
    by (vm_compute; reflexivity).
  assert (Hl : length (str_int (Z.abs 42)) <= int_max_str_digits)
    by (vm_compute; lia).
  assert (Hf : forall msg, history_file d <> Undecodable msg) by discriminate.
  split; [exact He|]. split; [exact Hu|]. split; [exact Hev|].
  split; [exact Hf|].
  destruct (calculate_again_integer math_dir_311 no_ext (fun _ => [])
              "t1" "t2" st d (lit "6*7") (lit "ann") 42 He Hu Hev Hl Hf)
    as (st1 & d1 & st2 & d2 & C1 & _ & _ & C2 & E2 & R2 & _).
  exists st1, d1, st2, d2. auto.
Defined.




(** ** Functions whose name ends in a digit *)

Local Close Scope string_scope.
Local Open Scope char_scope.

Lemma existsb_digit_app (l ds : str) :
  ds <> [] -> forallb is_digit ds = true -> existsb is_digit (l ++ ds) = true.
Proof.
  intros Hne Hd. rewrite existsb_app. destruct ds as [|d ds]; [congruence|].
  simpl in *. apply andb_prop in Hd as [-> _]. simpl. apply orb_true_r.
Qed.

Lemma eqb_digitless (x : str) (k : string) :
  existsb is_digit x = true -> existsb is_digit (lit k) = false ->
  String.eqb (string_of_list_ascii x) k = false.
Proof.
  intros Hx Hk. apply String.eqb_neq. intros E.
  apply (f_equal list_ascii_of_string) in E.
  rewrite list_ascii_of_string_of_list_ascii in E. unfold lit in Hk.
  congruence.
Qed.

Lemma existsb_eqb_digitless (x : str) (ks : list string) :
  existsb is_digit x = true ->
  forallb (fun k => negb (existsb is_digit (lit k))) ks = true ->
  existsb (String.eqb (string_of_list_ascii x)) ks = false.
Proof.
  intros Hx. induction ks as [|k ks IH]; simpl; [reflexivity|].
  intros H. apply andb_prop in H as [Hk H]. apply negb_true_iff in Hk.
  now rewrite (eqb_digitless x k Hx Hk), IH.
Qed.

Lemma lex_name_with_digit (x r : str) :
  forallb is_ident_char x = true -> existsb is_digit x = true ->
  starts_with is_ident_char r = false ->
  lex_name (x ++ r) = Tok (TName (string_of_list_ascii x)) (length x).
Proof.
  intros Hx Hd Hr. unfold lex_name.
  rewrite (run_app is_ident_char x r Hx Hr).
  rewrite (eqb_digitless x "True" Hd eq_refl).
  rewrite (eqb_digitless x "False" Hd eq_refl).
  rewrite (eqb_digitless x "None" Hd eq_refl).
  now rewrite (existsb_eqb_digitless x keywords Hd eq_refl).
Qed.

Lemma lower_ident c : is_lower c = true -> is_ident_char c = true.
Proof. by_cases_on c. Qed.

Lemma digit_ident c : is_digit c = true -> is_ident_char c = true.
Proof. by_cases_on c. Qed.

Lemma lower_starts_name c :
  is_lower c = true ->
  is_blank c = false /\ is_digit c = false /\ Ascii.eqb c "." = false
  /\ is_ident_start c = true /\ is_space c = false
  /\ Ascii.eqb c "_" = false.
Proof.
  destruct c as [[] [] [] [] [] [] [] []]; try discriminate;
    intros _; repeat split.
Qed.

Lemma tokenize_name_with_digit (l ds r : str) :
  l <> [] -> forallb is_lower l = true ->
  ds <> [] -> forallb is_digit ds = true ->
  starts_with is_ident_char r = false ->
  tokenize ((l ++ ds) ++ r)
  = cons (TName (string_of_list_ascii (l ++ ds))) <$> tokenize r.
Proof.
  intros Hl1 Hl2 Hd1 Hd2 Hr.
  assert (Hx : forallb is_ident_char (l ++ ds) = true).
  { rewrite forallb_app.
    rewrite (forallb_weaken is_lower is_ident_char l lower_ident Hl2).
    now rewrite (forallb_weaken is_digit is_ident_char ds digit_ident Hd2). }
  pose proof (lex_name_with_digit (l ++ ds) r Hx
                (existsb_digit_app l ds Hd1 Hd2) Hr) as L.
  destruct l as [|c t]; [congruence|].
  assert (Hc : is_lower c = true)
    by (simpl in Hl2; now apply andb_prop in Hl2 as [Hl2 _]).
  destruct (lower_starts_name c Hc) as (B & D & P & I & _).
  unfold tokenize.
  change (lex_from 0 (((c :: t) ++ ds) ++ r))
    with (match lex_at (((c :: t) ++ ds) ++ r) with
          | Tok tk len => cons tk <$> lex_from (len - 1) ((t ++ ds) ++ r)
          | Blank => lex_from 0 ((t ++ ds) ++ r)
          | Bad => None
          end).
  assert (A : lex_at (((c :: t) ++ ds) ++ r) = lex_name (((c :: t) ++ ds) ++ r)).
  { simpl. now rewrite B, D, P, I. }
  rewrite A, L.
  replace (length ((c :: t) ++ ds) - 1) with (length (t ++ ds))
    by (simpl; lia).
  now rewrite lex_from_skip.
Qed.

Lemma p_factor_name_star k f ts :
  p_factor (S (S (S (S k)))) (TName f :: TStar :: ts)
  = Returns (EName f, TStar :: ts).
Proof. reflexivity. Qed.

Lemma p_term_rest_star k l ts :
  p_term_rest (S k) l (TStar :: ts)
  = '(r, ts2) ← p_factor k ts; p_term_rest k (EBin Mult l r) ts2.
Proof. reflexivity. Qed.

Lemma parse_name_times_paren f n v :
  number_value n = Returns v ->
  parse [TName f; TStar; TLPar; TNumber n; TRPar]
  = Returns (EBin Mult (EName f) (EConst v)).
Proof.
  intros Hv. unfold parse.
  change (parse_fuel [TName f; TStar; TLPar; TNumber n; TRPar]) with 96.
  rewrite p_comparison_levels, p_factor_name_star.
  cbv beta iota delta [mbind outcome_bind].
  rewrite p_term_rest_star, p_factor_paren_number.
  rewrite p_comparison_levels, p_factor_number, Hv.
  vm_compute. reflexivity.
Qed.

Lemma lower_clean (l : str) :
  forallb is_lower l = true ->
  forallb not_percent l = true
  /\ forallb (fun c => negb (is_digit c)) l = true
  /\ forallb (fun c => negb (is_lpar c)) l = true
  /\ forallb (fun c => negb (is_rpar c)) l = true.
Proof.
  intros H. repeat split; revert H; apply forallb_weaken; intros c;
    by_cases_on c.
Qed.

Lemma digits_clean (ds : str) :
  forallb is_digit ds = true ->
  forallb not_percent ds = true
  /\ forallb (fun c => negb (is_lower c)) ds = true
  /\ forallb (fun c => negb (is_lpar c)) ds = true
  /\ forallb (fun c => negb (is_rpar c)) ds = true.
Proof.
  intros H. repeat split; revert H; apply forallb_weaken; intros c;
    by_cases_on c.
Qed.

Lemma split_last (ds : str) :
  ds <> [] -> exists ds' d, ds = ds' ++ [d].
Proof.
  intros H. rewrite <- (rev_involutive ds) in *.
  destruct (rev ds) as [|d r]; [now destruct H|].
  simpl. eauto.
Qed.

(** The rule for a digit before [(] breaks the call [f(n)] of a function
    whose name is letters followed by digits. *)
Lemma preprocess_digit_named_call (l ds n : str) :
  l <> [] -> forallb is_lower l = true ->
  ds <> [] -> forallb is_digit ds = true ->
  decimal_literal n = true ->
  preprocess_expression ((l ++ ds) ++ "(" :: n ++ [")"])
  = (l ++ ds) ++ "*" :: "(" :: n ++ [")"].
Proof.
  intros Hl1 Hl2 Hd1 Hd2 Hn.
  destruct (lower_clean l Hl2) as (L0 & L1 & L2 & L3).
  destruct (digits_clean ds Hd2) as (D0 & D1 & D2 & D3).
  destruct (literal_clean n Hn) as (N0 & N1 & N2 & N3).
  rewrite preprocess_expression_eq.
  rewrite strip_fixed.
  2:{ split.
      - destruct l as [|c t]; [congruence|]. simpl in *.
        apply andb_prop in Hl2 as [Hc _].
        now destruct (lower_starts_name c Hc) as (_ & _ & _ & _ & S & _).
      - change ((l ++ ds) ++ "(" :: n ++ [")"])
          with ((l ++ ds) ++ ("(" :: n) ++ [")"]).
        now rewrite app_assoc, ends_with_last. }
  rewrite sub_percent_fixed.
  2:{ apply pli_no_percent. rewrite !forallb_app. simpl.
      rewrite forallb_app. simpl. now rewrite L0, D0, N0. }
  unfold mul_passes.
  rewrite (ins_star_fixed is_digit is_lower).
  2:{ rewrite <- app_assoc, has_pair_no_A by exact L1.
      apply has_pair_none_B. rewrite forallb_app. simpl.
      rewrite forallb_app. simpl. now rewrite D1, N1. }
  destruct (split_last ds Hd1) as (ds' & d & ->).
  rewrite forallb_app in Hd2, D2, D3. simpl in Hd2, D2, D3.
  apply andb_prop in Hd2 as [Hd2 Hd]. rewrite andb_true_r in Hd.
  apply andb_prop in D2 as [D2 Dd2]. apply andb_prop in D3 as [D3 Dd3].
  replace ((l ++ ds' ++ [d]) ++ "(" :: n ++ [")"])
    with ((l ++ ds') ++ d :: "(" :: n ++ [")"])
    by (now rewrite <- !app_assoc).
  rewrite (ins_star_split is_digit is_lpar (l ++ ds') d "(" (n ++ [")"])
             Hd eq_refl).
  rewrite (ins_star_fixed is_digit is_lpar ((l ++ ds') ++ [d])).
  2:{ apply has_pair_none_B. rewrite !forallb_app. simpl.
      now rewrite L2, D2, Dd2. }
  rewrite (ins_star_fixed is_digit is_lpar ("(" :: n ++ [")"])).
  2:{ apply has_pair_no_B. rewrite forallb_app. simpl. now rewrite N2. }
  assert (R : forallb (fun c => negb (is_rpar c))
                (((l ++ ds') ++ [d]) ++ "*" :: "(" :: n) = true).
  { rewrite !forallb_app. simpl. now rewrite L3, D3, Dd3, N3. }
  replace (((l ++ ds') ++ [d]) ++ "*" :: "(" :: n ++ [")"])
    with ((((l ++ ds') ++ [d]) ++ "*" :: "(" :: n) ++ [")"])
    by (now rewrite <- !app_assoc).
  rewrite (ins_star_fixed is_rpar is_digit)
    by (now rewrite has_pair_no_A).
  rewrite (ins_star_fixed is_rpar is_lpar)
    by (now rewrite has_pair_no_A).
  now rewrite <- !app_assoc.
Qed.

Lemma tokenize_digit_named_call (l ds n : str) :
  l <> [] -> forallb is_lower l = true ->
  ds <> [] -> forallb is_digit ds = true ->
  decimal_literal n = true ->
  tokenize ((l ++ ds) ++ "*" :: "(" :: n ++ [")"])
  = Some [TName (string_of_list_ascii (l ++ ds)); TStar; TLPar; TNumber n;
          TRPar].
Proof.
  intros Hl1 Hl2 Hd1 Hd2 Hn.
  rewrite tokenize_name_with_digit by auto.
  change (tokenize ("*" :: "(" :: n ++ [")"]))
    with (cons TStar <$> (cons TLPar <$> tokenize (n ++ [")"]))).
  now rewrite (tokenize_literal_before n [")"] Hn eq_refl).
Qed.

Local Close Scope char_scope.
Local Open Scope string_scope.

Lemma math_getattr_with_digit (x : str) :
  existsb is_digit x = true ->
  math_getattr (string_of_list_ascii x) = VMath (string_of_list_ascii x).
Proof.
  intros Hd. unfold math_getattr.
  rewrite (eqb_digitless x "pi" Hd eq_refl).
  rewrite (eqb_digitless x "e" Hd eq_refl).
  rewrite (eqb_digitless x "tau" Hd eq_refl).
  rewrite (eqb_digitless x "inf" Hd eq_refl).
  now rewrite (eqb_digitless x "nan" Hd eq_refl).
Qed.

(** X19.  A function of the math module whose name is lowercase letters
    followed by digits ([log2], [log10], [atan2], [expm1], ...) cannot be
    called: in [f(n)] the digit that ends the name stands before [(], so
    [preprocess_expression] turns the call into the product [f*(n)], and
    [safe_eval] reports the [TypeError] of multiplying a function by a
    number. *)
Theorem digit_named_function_call (math_dir : list string)
    (math_ext : string -> list value -> outcome value)
    (l ds n : str) (v : value)
    (Hl1 : l <> []) (Hl2 : forallb is_lower l = true)
    (Hd1 : ds <> []) (Hd2 : forallb is_digit ds = true)
    (Hn : decimal_literal n = true) (Hv : number_value n = Returns v)
    (Hin : string_of_list_ascii (l ++ ds) ∈ math_dir) :
  preprocess_expression ((l ++ ds) ++ "(" :: n ++ [")"])%char%list
  = ((l ++ ds) ++ "*" :: "(" :: n ++ [")"])%char%list
  /\ safe_eval math_dir math_ext ((l ++ ds) ++ "(" :: n ++ [")"])%char%list
     = Returns (None,
                Some ("Error: unsupported operand type(s) for *: "
                      +:+ "'builtin_function_or_method' and '"
                      +:+ type_name v +:+ "'")).
Proof.
  pose proof (preprocess_digit_named_call l ds n Hl1 Hl2 Hd1 Hd2 Hn) as P.
  split; [exact P|].
  rewrite (safe_eval_via math_dir math_ext _ _
             (EBin Mult (EName (string_of_list_ascii (l ++ ds)%list))
                (EConst v))
             ltac:(rewrite P; now apply tokenize_digit_named_call)
             eq_refl (parse_name_times_paren _ n v Hv)).
  assert (S : startswith_underscore (string_of_list_ascii (l ++ ds)%list)
              = false).
  { destruct l as [|c t]; [congruence|]. simpl in Hl2.
    apply andb_prop in Hl2 as [Hc _].
    destruct (lower_starts_name c Hc) as (_ & _ & _ & _ & _ & U).
    simpl. revert U. clear. by_cases_on c. }
  simpl eval_expr.
  rewrite (load_name_found math_dir _ _ (safe_dict_math math_dir _ Hin S)).
  rewrite (math_getattr_with_digit _ (existsb_digit_app l ds Hd1 Hd2)).
  assert (T : exists k, to_num v = Some k).
  { revert Hv. clear. unfold number_value, int_literal, float_literal.
    repeat case_match; intros [= <-]; simpl; eauto. }
  destruct T as [k T].
  cbv beta iota delta [mbind outcome_bind]. unfold binary.
  change (to_num (VMath (string_of_list_ascii (l ++ ds)%list)))
    with (@None num).
  rewrite T. reflexivity.
Qed.

Lemma digit_named_function_call_witness :
  lit "log" <> [] /\ forallb is_lower (lit "log") = true
  /\ lit "10" <> [] /\ forallb is_digit (lit "10") = true
  /\ decimal_literal (lit "100") = true
  /\ number_value (lit "100") = Returns (VInt 100)
  /\ "log10" ∈ math_dir_311
  /\ preprocess_expression (lit "log10(100)") = lit "log10*(100)"
  /\ safe_eval math_dir_311 no_ext (lit "log10(100)")
     = Returns (None,
                Some ("Error: unsupported operand type(s) for *: "
                      +:+ "'builtin_function_or_method' and 'int'")).
Proof.
  assert (Hin : "log10" ∈ math_dir_311) by in_list.
  assert (H1 : lit "log" <> []) by discriminate.
  assert (H2 : lit "10" <> []) by discriminate.
  repeat (split; [first [reflexivity | assumption]|]).
  exact (proj2 (digit_named_function_call math_dir_311 no_ext (lit "log")
                  (lit "10") (lit "100") (VInt 100) H1 eq_refl H2 eq_refl
                  eq_refl eq_refl Hin)).
Defined.

(** ** More on accounts and on the normaliser *)

Local Close Scope char_scope.
Local Open Scope string_scope.

Lemma create_user_result now username password d users :
  Users.load_json_file d = Returns users ->
  Users.writable d = true ->
  exists r d',
    create_user now username password d = Returns (r, d')
    /\ (d' = d
        \/ (users !! string_of_list_ascii (strip username) = None
            /\ Users.load_json_file d'
               = Returns
                   (<[string_of_list_ascii (strip username) :=
                        User.to_dict
                          {| User.username :=
                               string_of_list_ascii (strip username);
                             User.password_hash := hash_password password;
                             User.created_at := now |}]> users))).
Proof.
  intros L W. unfold create_user.
  destruct (validate_username (strip username)) as [[] m]; simpl; [|eauto].
  destruct (validate_password password) as [[] m']; simpl; [|eauto].
  rewrite L. simpl.
  destruct (users !! string_of_list_ascii (strip username))
    eqn:K; simpl; [eauto|].
  unfold Users.save_json_file. rewrite W. simpl.
  eexists _, _. split; [reflexivity|]. right. auto.
Qed.

(** X20.  Registering never locks anybody out: on a writable users file,
    whoever could log in before a call of [create_user] (whatever name and
    password it was called with, and whether it succeeded or not) can log
    in with the same name and password after it. *)
Theorem create_user_keeps_logins (now : string)
    (username password username1 password1 : str) (d : Users.disk)
    (Hw : Users.writable d = true)
    (Hauth : authenticate_user username1 password1 d = Returns true) :
  exists r d',
    create_user now username password d = Returns (r, d')
    /\ authenticate_user username1 password1 d' = Returns true.
Proof.
  assert (L : exists users, Users.load_json_file d = Returns users).
  { unfold authenticate_user in Hauth.
    destruct (Users.load_json_file d) as [users| |]; try discriminate.
    eauto. }
  destruct L as (users & L).
  destruct (create_user_result now username password d users L Hw)
    as (r & d' & C & [-> | [K E]]).
  - exists r, d. auto.
  - exists r, d'. split; [exact C|].
    unfold authenticate_user in *. rewrite L in Hauth. rewrite E. simpl in *.
    destruct (decide (string_of_list_ascii (strip username1)
                      = string_of_list_ascii (strip username))) as [Q|Q].
    + rewrite Q, K in Hauth. discriminate.
    + rewrite lookup_insert_ne by congruence. exact Hauth.
Qed.

Lemma create_user_keeps_logins_witness :
  let d1 := {| Users.users_file :=
                 Users.Json
                   {[ "dave" :=
                        {[ "password" := hash_password (lit "pw-dave");
                           "created_at" := "t0" ]} ]};
               Users.writable := true |} in
  Users.writable d1 = true
  /\ authenticate_user (lit "dave") (lit "pw-dave") d1 = Returns true
  /\ exists r d2,
       create_user "t1" (lit "erin") (lit "pw-erin") d1 = Returns (r, d2)
       /\ authenticate_user (lit "dave") (lit "pw-dave") d2 = Returns true.
Proof.
  intros d1.
  assert (W : Users.writable d1 = true) by reflexivity.
  assert (A : authenticate_user (lit "dave") (lit "pw-dave") d1 = Returns true)
    by (vm_compute; reflexivity).
  split; [exact W|]. split; [exact A|].
  exact (create_user_keeps_logins "t1" (lit "erin") (lit "pw-erin")
           (lit "dave") (lit "pw-dave") d1 W A).
Defined.

Local Close Scope string_scope.
Local Open Scope char_scope.

Lemma hex_length n x : length (SHA256.hex n x) = n.
Proof.
  revert x. induction n as [|n IH]; intros x; simpl; [reflexivity|].
  rewrite length_app, IH. simpl. lia.
Qed.

Lemma hex_digit_class d :
  (d < 16)%N -> (is_digit (SHA256.hex_digit d) || in_range 97 102 (SHA256.hex_digit d)) = true.
Proof.
  intros H.
  assert (C : (d = 0 \/ d = 1 \/ d = 2 \/ d = 3 \/ d = 4 \/ d = 5 \/ d = 6
               \/ d = 7 \/ d = 8 \/ d = 9 \/ d = 10 \/ d = 11 \/ d = 12
               \/ d = 13 \/ d = 14 \/ d = 15)%N) by lia.
  repeat (destruct C as [-> | C]); try subst d; reflexivity.
Qed.

Lemma hex_class n x :
  forallb (fun c => is_digit c || in_range 97 102 c) (SHA256.hex n x) = true.
Proof.
  revert x. induction n as [|n IH]; intros x; simpl; [reflexivity|].
  rewrite forallb_app, IH. simpl.
  rewrite hex_digit_class; [reflexivity|]. apply N.mod_lt. discriminate.
Qed.

Lemma flat_map_hex_length n (l : list N) :
  length (flat_map (SHA256.hex n) l) = length l * n.
Proof.
  induction l as [|x l IH]; [reflexivity|].
  change (flat_map (SHA256.hex n) (x :: l))
    with (SHA256.hex n x ++ flat_map (SHA256.hex n) l).
  rewrite length_app, hex_length, IH. simpl. lia.
Qed.

Lemma flat_map_hex_class n (l : list N) :
  forallb (fun c => is_digit c || in_range 97 102 c)
    (flat_map (SHA256.hex n) l) = true.
Proof.
  induction l as [|x l IH]; [reflexivity|].
  change (flat_map (SHA256.hex n) (x :: l))
    with (SHA256.hex n x ++ flat_map (SHA256.hex n) l).
  now rewrite forallb_app, hex_class, IH.
Qed.

(** X21.  For every password, [hash_password] returns a text of exactly
    64 characters, each a digit or a letter from [a] to [f]: what
    [create_user] stores as the password is always of that form. *)
Theorem hash_password_format (password : str) :
  length (lit (hash_password password)) = 64
  /\ forallb (fun c => is_digit c || in_range 97 102 c)
       (lit (hash_password password)) = true.
Proof.
  unfold hash_password, SHA256.hexdigest.
  destruct (SHA256.digest (utf8_encode password))
    as [[[[[[[a b] c] d] e] f] g] h].
  unfold lit. rewrite list_ascii_of_string_of_list_ascii.
  split; [apply flat_map_hex_length | apply flat_map_hex_class].
Qed.

Lemma forallb_after (p q : ascii -> bool) (s : str) :
  forallb p s = true -> forallb p (after q s) = true.
Proof.
  induction s as [|c s IH]; simpl; [reflexivity|]. intros H.
  destruct (q c); [|exact H]. apply IH. now apply andb_prop in H as [_ H].
Qed.

Lemma forallb_strip (p : ascii -> bool) (s : str) :
  forallb p s = true -> forallb p (strip s) = true.
Proof.
  intros H. unfold strip, rstrip. rewrite forallb_rev, !lstrip_after.
  apply forallb_after. rewrite forallb_rev. now apply forallb_after.
Qed.

(** X22.  Text without a digit and without a closing parenthesis is only
    stripped: every rule of [preprocess_expression] needs a digit or a [)]
    to apply. *)
Theorem preprocess_without_digits (s : str)
    (Hs : forallb (fun c => negb (is_digit c) && negb (is_rpar c)) s = true) :
  preprocess_expression s = strip s.
Proof.
  assert (K : forall t : str,
            forallb (fun c => negb (is_digit c) && negb (is_rpar c)) t = true ->
            trimmed t -> preprocess_expression t = t).
  { intros t Ht Tr.
    assert (D : forallb (fun c => negb (is_digit c)) t = true).
    { revert Ht. apply forallb_weaken. intros c H.
      now apply andb_prop in H as [H _]. }
    assert (R : forallb (fun c => negb (is_rpar c)) t = true).
    { revert Ht. apply forallb_weaken. intros c H.
      now apply andb_prop in H as [_ H]. }
    apply preprocess_fixed; try exact Tr; try now apply has_pair_nil_r.
    apply no_site_pli_false. intros p l w q E Hl _. subst t.
    destruct l as [|c l]; [discriminate|]. simpl in Hl.
    apply andb_prop in Hl as [Hc _].
    rewrite forallb_app in D. simpl in D. rewrite Hc in D. simpl in D.
    now rewrite andb_false_r in D. }
  rewrite <- preprocess_strip.
  apply K; [now apply forallb_strip | apply strip_trimmed].
Qed.

Lemma preprocess_without_digits_witness :
  forallb (fun c => negb (is_digit c) && negb (is_rpar c)) (lit "  sin(pi  ")
  = true
  /\ preprocess_expression (lit "  sin(pi  ") = lit "sin(pi".
Proof.
  split; [reflexivity|].
  now rewrite (preprocess_without_digits (lit "  sin(pi  ") eq_refl).
Defined.
